(** * nfc-pcsc: the Reader core of [src/Reader.ts]

    A shallow embedding of the [Reader] class: the APDU builders and
    response validation, the block read/write engine, the MIFARE key
    slots with their in-flight load table, the tag dispatcher and the
    reader status handler.

    Conventions.
    - A [Buffer] is a list of bytes; a number used as a length, a size or
      a status word is a [Z]; a block number is a [jsnum], because [read]
      computes it with the division [/] of the language.
    - A method that the source declares [async] is cut at each [await]:
      the code up to the await is one function, the code after it is
      another one (its continuation), and the event loop below runs the
      continuations in the order in which the JavaScript job queue does.
    - The PC/SC provider is outside the repository: its answers are inputs. *)

From Stdlib Require Import ZArith QArith Lia.
From Stdlib.Strings Require Import Ascii Byte.
From stdpp Require Import gmap strings list pretty.

Local Open Scope Z_scope.
Set Warnings "-register-all".

(** ** The runtime library used by the source (Buffer, String, Number) *)

Module Js.

Abbreviation Buffer := (list byte).

#[global] Instance byte_eq_decision : EqDecision byte := byte_eq_dec.

(** The value of a byte as a number, [buf[i]]. *)
Definition byte_val (b : byte) : Z := Z.of_N (Byte.to_N b).

(** The conversion applied to each element by [Buffer.from([...])] and by
    [buf[i] = v]: the integer is reduced modulo 256. *)
Definition u8 (z : Z) : byte :=
  match Byte.of_N (Z.to_N (z mod 256)) with
  | Some b => b
  | None => x00
  end.

(** [Buffer.from(array)] *)
Definition Buffer_from_array (l : list Z) : Buffer := map u8 l.

(** Value of one hexadecimal digit, [None] when the character is not one. *)
Definition unhex (c : ascii) : option Z :=
  let n := Z.of_N (N_of_ascii c) in
  if (48 <=? n) && (n <=? 57) then Some (n - 48)
  else if (97 <=? n) && (n <=? 102) then Some (n - 87)
  else if (65 <=? n) && (n <=? 70) then Some (n - 55)
  else None.

(** [Buffer.from(s, 'hex')]: the string is read two characters at a time;
    decoding stops at the first pair that is not two hexadecimal digits,
    and a single trailing character is dropped. It never throws. *)
Fixpoint Buffer_from_hex (s : string) : Buffer :=
  match s with
  | String a (String b rest) =>
      match unhex a, unhex b with
      | Some h, Some l => u8 (16 * h + l) :: Buffer_from_hex rest
      | _, _ => []
      end
  | _ => []
  end.

Definition hex_digit (n : Z) : ascii :=
  ascii_of_N (Z.to_N (if n <? 10 then 48 + n else 87 + n)).

(** [buf.toString('hex')]: two lowercase digits per byte. *)
Fixpoint Buffer_toString_hex (b : Buffer) : string :=
  match b with
  | [] => EmptyString
  | x :: rest =>
      String (hex_digit (byte_val x / 16))
        (String (hex_digit (byte_val x mod 16)) (Buffer_toString_hex rest))
  end.

Definition lower_char (c : ascii) : ascii :=
  let n := Z.of_N (N_of_ascii c) in
  if (65 <=? n) && (n <=? 90) then ascii_of_N (Z.to_N (n + 32)) else c.

(** [s.toLowerCase()] on the characters a [string] of this development has. *)
Fixpoint toLowerCase (s : string) : string :=
  match s with
  | EmptyString => EmptyString
  | String c rest => String (lower_char c) (toLowerCase rest)
  end.

(** [s.toUpperCase()] *)
Definition upper_char (c : ascii) : ascii :=
  let n := Z.of_N (N_of_ascii c) in
  if (97 <=? n) && (n <=? 122) then ascii_of_N (Z.to_N (n - 32)) else c.

Fixpoint toUpperCase (s : string) : string :=
  match s with
  | EmptyString => EmptyString
  | String c rest => String (upper_char c) (toUpperCase rest)
  end.

(** Length of a buffer as a number. *)
Definition blen (b : Buffer) : Z := Z.of_nat (length b).

(** An index of [slice]: a negative one counts from the end, and the
    result is clamped to the buffer. *)
Definition slice_index (len i : Z) : Z :=
  if i <? 0 then Z.max (len + i) 0 else Z.min i len.

(** [buf.slice(start, end)]; [end] defaults to the length. *)
Definition Buffer_slice (b : Buffer) (start : Z) (end_ : option Z) : Buffer :=
  let len := blen b in
  let s := slice_index len start in
  let e := match end_ with Some e => slice_index len e | None => len end in
  take (Z.to_nat (e - s)) (drop (Z.to_nat s) b).

(** [buf.readUInt16BE(offset)]; [None] is the [RangeError] thrown when the
    two bytes are not inside the buffer. *)
Definition readUInt16BE (b : Buffer) (offset : nat) : option Z :=
  match b !! offset, b !! S offset with
  | Some hi, Some lo => Some (byte_val hi * 256 + byte_val lo)
  | _, _ => None
  end.

(** [Buffer.concat(list, totalLength)]: an empty list gives the empty
    buffer; otherwise a buffer of [totalLength] bytes is filled with the
    elements in order, cut when they exceed it and zero-filled when they
    fall short; a negative [totalLength] throws ([None]). *)
Definition Buffer_concat (l : list Buffer) (totalLength : Z) : option Buffer :=
  match l with
  | [] => Some []
  | _ =>
      if totalLength <? 0 then None
      else
        let n := Z.to_nat totalLength in
        Some (take n (concat l ++ replicate n x00))
  end.

(** A number that may fail to be an integer. [NonFin] stands for [NaN],
    [Infinity] and [-Infinity], which the source only ever feeds to the
    bit operators, where all three become 0. A finite number is a double,
    kept as the rational it is equal to; the two zeros are not told
    apart, since nothing in the source does. *)
Inductive jsnum : Type :=
| Fin (q : Q)
| NonFin.

(** An integer argument; the numbers of the language hold every integer
    up to 2^53 in magnitude. *)
Definition of_int (z : Z) : jsnum := Fin (inject_Z z).

(** [a / b] for [a >= 0] and [b > 0], rounded to the nearest integer, a
    tie to the even one. *)
Definition round_div (a b : Z) : Z :=
  let q := a / b in
  let r := a mod b in
  if 2 * r <? b then q
  else if b <? 2 * r then q + 1
  else if Z.even q then q else q + 1.

(** The [E] with [2^E <= n / d < 2^(E+1)], for [n] and [d] positive. *)
Definition exponent (n d : Z) : Z :=
  let E := Z.log2 n - Z.log2 d in
  if (if 0 <=? E then d * 2 ^ E <=? n else d <=? n * 2 ^ (- E)) then E else E - 1.

(** The result of an arithmetic operation of the language whose exact
    value is [q]: the double nearest to [q]. A double is [m * 2^e] with
    [m] of at most 53 bits and [e >= -1074]; of two nearest doubles the
    one with the even [m] is taken; a value that rounds to 2^1024 or more
    is an infinity. *)
Definition to_double (q : Q) : jsnum :=
  let n := Z.abs (Qnum q) in
  let d := Zpos (Qden q) in
  if n =? 0 then Fin 0
  else
    let e := Z.max (exponent n d - 52) (-1074) in
    let m := if 0 <=? e then round_div n (d * 2 ^ e)
             else round_div (n * 2 ^ (- e)) d in
    if (971 <? e) || ((e =? 971) && (m =? 2 ^ 53)) then NonFin
    else Fin (if 0 <=? e then inject_Z (Z.sgn (Qnum q) * m * 2 ^ e)
              else Z.sgn (Qnum q) * m # Z.to_pos (2 ^ (- e))).

(** [a / b] on integers. *)
Definition js_div (a b : Z) : jsnum :=
  if b =? 0 then NonFin else to_double (inject_Z a / inject_Z b).

(** [x + y] *)
Definition js_add (x y : jsnum) : jsnum :=
  match x, y with
  | Fin p, Fin q => to_double (p + q)
  | _, _ => NonFin
  end.

(** The integer the bit operators [>>] and [&] see (ToInt32, before the
    reduction modulo 2^32, which the masks of the source make irrelevant):
    the fractional part is dropped. *)
Definition to_integer (x : jsnum) : Z :=
  match x with
  | Fin q => Z.quot (Qnum q) (Zpos (Qden q))
  | NonFin => 0
  end.

(** [a + b] on integers, as the integer a packet is built from. *)
Definition js_add_int (a b : Z) : Z := to_integer (js_add (of_int a) (of_int b)).

(** [Math.ceil(a / b)] on integers; [None] when the quotient is not finite. *)
Definition Math_ceil_div (a b : Z) : option Z :=
  if b =? 0 then None else Some (- ((- a) / b)).

(** [a % b] on integers: the sign follows the dividend; [None] is [NaN]. *)
Definition js_rem (a b : Z) : option Z :=
  if b =? 0 then None else Some (Z.rem a b).

(** [n.toString(16)] for a non-negative integer. *)
Fixpoint hex_of_pos (fuel : nat) (n : Z) (acc : string) : string :=
  match fuel with
  | O => acc
  | S f =>
      let acc' := String (hex_digit (n mod 16)) acc in
      if n / 16 =? 0 then acc' else hex_of_pos f (n / 16) acc'
  end.

Definition Number_toString16 (n : Z) : string :=
  hex_of_pos (S (Z.to_nat (Z.log2 n))) n EmptyString.

(** The names of the members of [Object.prototype]. An object made by
    [{}] inherits them: reading [obj[name]] for one of these names yields
    the member, a function (for [__proto__] the prototype itself), unless
    the object has a property of its own by that name. Every member is
    truthy, and none is a promise or has a [then]. *)
Definition Object_prototype_names : list string :=
  [ "constructor"; "__defineGetter__"; "__defineSetter__"; "hasOwnProperty";
    "__lookupGetter__"; "__lookupSetter__"; "isPrototypeOf";
    "propertyIsEnumerable"; "toString"; "valueOf"; "__proto__";
    "toLocaleString" ].

End Js.

Import Js.

(** ** Errors *)

Module Errors.

(** The module [./errors] imported by [Reader.ts]: its text follows that
    of [NFC.ts] in [src/src/NFC.ts] (lines 110-246). [BaseError] (lines
    114-135) and its nine subclasses (lines 141-246); an error carries a
    code, a message and the error it wraps, in the order of the
    arguments of the constructor (line 117). The last four classes are
    errors made outside [errors.ts]. *)
Inductive ErrorClass : Type :=
| ConnectError
| DisconnectError
| TransmitError
| ControlError
| AuthenticationError
| LoadAuthenticationKeyError
| ReadError
| WriteError
| GetUIDError
| PlainError      (* [new Error(message)] *)
| RangeError      (* thrown by the Buffer library *)
| TypeError       (* thrown by the language *)
| ProviderError.  (* the error object handed over by the PC/SC provider *)

Inductive Error : Type :=
| MkError (cls : ErrorClass) (code : option string) (message : option string)
          (previous : option Error).

Definition error_class (e : Error) : ErrorClass :=
  match e with MkError c _ _ _ => c end.

Definition error_code (e : Error) : option string :=
  match e with MkError _ c _ _ => c end.

Definition error_message (e : Error) : option string :=
  match e with MkError _ _ m _ => m end.

Definition error_previous (e : Error) : option Error :=
  match e with MkError _ _ _ p => p end.

(** The three code constants ([src/src/NFC.ts], lines 137-139). *)
Definition CARD_NOT_CONNECTED : string := "card_not_connected".
Definition OPERATION_FAILED : string := "operation_failed".
Definition FAILURE : string := "failure".

(** [this.name]: each subclass sets it to the name of the class after
    the constructor of [BaseError] has run (lines 147, 159, ..., 243). *)
Definition class_name (c : ErrorClass) : string :=
  match c with
  | ConnectError => "ConnectError"
  | DisconnectError => "DisconnectError"
  | TransmitError => "TransmitError"
  | ControlError => "ControlError"
  | AuthenticationError => "AuthenticationError"
  | LoadAuthenticationKeyError => "LoadAuthenticationKeyError"
  | ReadError => "ReadError"
  | WriteError => "WriteError"
  | GetUIDError => "GetUIDError"
  | PlainError => "Error"
  | RangeError => "RangeError"
  | TypeError => "TypeError"
  | ProviderError => "Error"
  end.

(** The constructor of [BaseError] (lines 117-133): the message given,
    and when none is given ([null], [undefined] or the empty string) the
    message of the wrapped error, if there is one. An error made outside
    [errors.ts] has the message it was made with. *)
Definition is_BaseError (c : ErrorClass) : bool :=
  match c with
  | PlainError | RangeError | TypeError | ProviderError => false
  | _ => true
  end.

(** [err.message] *)
Fixpoint Error_message (e : Error) : string :=
  match e with
  | MkError cls _ message previous =>
      match message with
      | Some (String c msg) => String c msg
      | _ =>
          if is_BaseError cls then
            match previous with
            | Some p => Error_message p
            | None => EmptyString
            end
          else EmptyString
      end
  end.

(** [String(err)], that is [Error.prototype.toString]: the name, a colon
    and the message, or the name alone when the message is empty. *)
Definition Error_toString (e : Error) : string :=
  match Error_message e with
  | EmptyString => class_name (error_class e)
  | msg => class_name (error_class e) +:+ ": " +:+ msg
  end.

(** What a promise settles to. *)
Inductive Settled (A : Type) : Type :=
| Fulfilled (a : A)
| Rejected (e : Error).

Arguments Fulfilled {A} a.
Arguments Rejected {A} e.

End Errors.

Import Errors.

(** ** The data model of [Reader.ts] *)

Inductive Standard : Type :=
| TAG_ISO_14443_3
| TAG_ISO_14443_4.

Definition KEY_TYPE_A : Z := 0x60.
Definition KEY_TYPE_B : Z := 0x61.

(** The argument of [connect] is a string. The type of the source has
    the two constants of lines 26-27; any other string reaches the method
    at run time as well. *)
Abbreviation ReaderConnectMode := string (only parsing).

Definition CONNECT_MODE_DIRECT : ReaderConnectMode := "CONNECT_MODE_DIRECT".
Definition CONNECT_MODE_CARD : ReaderConnectMode := "CONNECT_MODE_CARD".

(** What [modes[mode]] yields when it yields something: the number of
    the provider for one of the two modes, or, [modes] being an object
    literal, the member of [Object.prototype] of that name. *)
Inductive ShareMode : Type :=
| ShareNumber (n : Z)
| ShareInherited (name : string).

Coercion ShareNumber : Z >-> ShareMode.

Record ReaderConnection : Type := {
  conn_type : ShareMode;
  protocol : Z
}.

Record Card : Type := {
  atr : option Buffer;
  standard : option Standard;
  card_type : option Standard;   (* [type], a copy of [standard] *)
  uid : option string;
  data : option Buffer
}.

(** [{}] *)
Definition empty_card : Card :=
  {| atr := None; standard := None; card_type := None; uid := None; data := None |}.

(** What the setter [aid] accepts: a function, a Buffer, a string, or
    (at run time) anything else. The function returns [any]; only whether
    its result is a Buffer matters to the source. *)
Inductive AidArg : Type :=
| ArgFunction (f : Card -> option Buffer)
| ArgBuffer (b : Buffer)
| ArgString (s : string)
| ArgOther.

(** What the field [_aid] holds after construction and after the setter. *)
Inductive Aid : Type :=
| AidFunction (f : Card -> option Buffer)
| AidBuffer (b : Buffer).

(** A key as [loadAuthenticationKey] receives it. *)
Inductive KeyArg : Type :=
| KeyString (s : string)
| KeyBuffer (b : Buffer)
| KeyArray (l : list Z)
| KeyOther.

(** A key as [keyStorage] holds it: [key as Buffer] stores an array
    argument as it is. *)
Inductive KeyVal : Type :=
| StoredBuffer (b : Buffer)
| StoredArray (l : list Z).

(** [keyStorage = { 0: null, 1: null }]: two properties, in this order. *)
Record KeyStorage : Type := {
  key0 : option KeyVal;
  key1 : option KeyVal
}.

Definition Object_keys (ks : KeyStorage) : list Z := [0; 1].

(** [keyStorage[k]] *)
Definition get_key (ks : KeyStorage) (k : Z) : option KeyVal :=
  if k =? 0 then key0 ks else if k =? 1 then key1 ks else None.

(** [keyStorage[k] = v], for the two properties the object has. *)
Definition set_key (ks : KeyStorage) (k : Z) (v : KeyVal) : KeyStorage :=
  if k =? 0 then {| key0 := Some v; key1 := key1 ks |}
  else if k =? 1 then {| key0 := key0 ks; key1 := Some v |}
  else ks.

(** The constants and the state of the [CardReader] object of the PC/SC
    provider, which is outside the repository. *)
Record CardReader : Type := {
  name : string;
  state : Z;
  SCARD_STATE_EMPTY : Z;
  SCARD_STATE_PRESENT : Z;
  SCARD_SHARE_DIRECT : Z;
  SCARD_SHARE_SHARED : Z;
  SCARD_LEAVE_CARD : Z
}.

(** A promise of the event loop below is named by a number. *)
Abbreviation TaskId := nat.

(** The fields of a [Reader]. *)
Record Reader : Type := {
  reader : CardReader;
  connection : option ReaderConnection;
  card : option Card;
  autoProcessing : bool;
  _aid : option Aid;
  keyStorage : KeyStorage;
  pendingLoadAuthenticationKey : gmap string TaskId
}.

Definition with_connection (c : option ReaderConnection) (r : Reader) : Reader :=
  {| reader := reader r; connection := c; card := card r;
     autoProcessing := autoProcessing r; _aid := _aid r;
     keyStorage := keyStorage r;
     pendingLoadAuthenticationKey := pendingLoadAuthenticationKey r |}.

Definition with_card (c : option Card) (r : Reader) : Reader :=
  {| reader := reader r; connection := connection r; card := c;
     autoProcessing := autoProcessing r; _aid := _aid r;
     keyStorage := keyStorage r;
     pendingLoadAuthenticationKey := pendingLoadAuthenticationKey r |}.

Definition with_aid (a : option Aid) (r : Reader) : Reader :=
  {| reader := reader r; connection := connection r; card := card r;
     autoProcessing := autoProcessing r; _aid := a;
     keyStorage := keyStorage r;
     pendingLoadAuthenticationKey := pendingLoadAuthenticationKey r |}.

Definition with_keyStorage (ks : KeyStorage) (r : Reader) : Reader :=
  {| reader := reader r; connection := connection r; card := card r;
     autoProcessing := autoProcessing r; _aid := _aid r;
     keyStorage := ks;
     pendingLoadAuthenticationKey := pendingLoadAuthenticationKey r |}.

Definition with_pending (p : gmap string TaskId) (r : Reader) : Reader :=
  {| reader := reader r; connection := connection r; card := card r;
     autoProcessing := autoProcessing r; _aid := _aid r;
     keyStorage := keyStorage r;
     pendingLoadAuthenticationKey := p |}.

(** The field initialisers of the class (lines 58-70). *)
Definition new_Reader (cr : CardReader) : Reader :=
  {| reader := cr; connection := None; card := None;
     autoProcessing := true; _aid := None;
     keyStorage := {| key0 := None; key1 := None |};
     pendingLoadAuthenticationKey := ∅ |}.

(** What the read [this.pendingLoadAuthenticationKey[key]] yields (lines
    456 and 477). The field of the record holds the properties of the
    object's own, which the code adds with [obj[key] = promise] and
    removes with [delete obj[key]]; the object itself is made by [{}]
    (line 70) and so inherits from [Object.prototype]. *)
Inductive PropertyRead : Type :=
| OwnValue (p : TaskId)   (* the promise stored under the key *)
| Inherited               (* a member of [Object.prototype] *)
| Undefined.

Definition get_pending (r : Reader) (key : string) : PropertyRead :=
  match pendingLoadAuthenticationKey r !! key with
  | Some p => OwnValue p
  | None =>
      if bool_decide (key ∈ Object_prototype_names) then Inherited else Undefined
  end.

(** ** Events *)

(** One call of [emit]: the event name and the argument. *)
Inductive Payload : Type :=
| NoPayload
| CardPayload (c : Card)
| ErrorPayload (e : Error).

Record Emitted : Type := {
  event : string;
  payload : Payload
}.

(** [this.emit(name, arg)]. The call returns to the emitter: listeners
    are user code and are taken not to throw, and ['error'] is taken to
    have a listener (without one, [emit('error', ...)] of the platform
    throws its argument). *)
Definition emit (name : string) (arg : Payload) : Emitted :=
  {| event := name; payload := arg |}.

(** [this.emit(err)] (lines 170 and 202): the error object stands where
    the event name is expected, so the name is the error converted to a
    property key, its string form, and there is no argument. *)
Definition emit_object (err : Error) : Emitted :=
  {| event := Error_toString err; payload := NoPayload |}.

(** What the listeners registered with [on(name, ...)] receive. *)
Definition observed (name : string) (log : list Emitted) : list Payload :=
  payload <$> filter (λ e, event e = name) log.

(** ** [selectStandardByAtr] (lines 90-100) *)

Definition selectStandardByAtr (atr : Buffer) : Standard :=
  match atr !! 5%nat with
  | Some b =>
      (* [atr[5] && atr[5] === 0x4f] *)
      if negb (byte_val b =? 0) && (byte_val b =? 0x4f)
      then TAG_ISO_14443_3 else TAG_ISO_14443_4
  | None => TAG_ISO_14443_4
  end.

(** ** The setter [aid] (lines 106-119): the new reader, or the error thrown *)

Definition set_aid (r : Reader) (value : AidArg) : Reader + Error :=
  match value with
  | ArgFunction f => inl (with_aid (Some (AidFunction f)) r)
  | ArgBuffer b => inl (with_aid (Some (AidBuffer b)) r)
  | ArgString s => inl (with_aid (Some (AidBuffer (Buffer_from_hex s))) r)
  | ArgOther =>
      inr (MkError PlainError None
             (Some "AID must be a HEX string or an instance of Buffer or a function.")
             None)
  end.

(** ** [connect], [disconnect], [transmit] (lines 227-336) *)

(** [modes[mode]] (lines 231-234): the object literal has the two modes
    as its own properties and inherits the members of
    [Object.prototype]; any other string has no entry. *)
Definition modes (r : Reader) (mode : ReaderConnectMode) : option ShareMode :=
  if bool_decide (mode = CONNECT_MODE_DIRECT) then
    Some (ShareNumber (SCARD_SHARE_DIRECT (reader r)))
  else if bool_decide (mode = CONNECT_MODE_CARD) then
    Some (ShareNumber (SCARD_SHARE_SHARED (reader r)))
  else if bool_decide (mode ∈ Object_prototype_names) then
    Some (ShareInherited mode)
  else None.

(** A call of [connect]: it throws, or it asks the provider to connect. *)
Inductive ConnectCall : Type :=
| ConnectThrows (e : Error)
| ConnectIssued (share_mode : ShareMode) (protocol : option Z).

(** [!modes[mode]] (line 236) is true when there is no entry and when the
    entry is the number 0; a member of [Object.prototype] is truthy. *)
Definition connect (r : Reader) (mode : ReaderConnectMode) (protocol : option Z)
  : ConnectCall :=
  match modes r mode with
  | Some (ShareNumber m) =>
      if m =? 0 then ConnectThrows (MkError ConnectError (Some "invalid_mode") (Some "Invalid mode") None)
      else ConnectIssued (ShareNumber m) protocol
  | Some (ShareInherited name) => ConnectIssued (ShareInherited name) protocol
  | None => ConnectThrows (MkError ConnectError (Some "invalid_mode") (Some "Invalid mode") None)
  end.

(** The callback given to the provider by [connect] (lines 248-267): the
    provider reports an error or the protocol of the connection. *)
Definition connect_callback (share_mode : ShareMode) (answer : Error + option Z)
           (r : Reader)
  : Settled ReaderConnection * Reader :=
  match answer with
  | inl err =>
      (Rejected (MkError ConnectError (Some FAILURE)
                   (Some "An error occurred while connecting.") (Some err)), r)
  | inr connectionProtocol =>
      let c := {| conn_type := share_mode;
                  protocol := default 0 connectionProtocol |} in
      (Fulfilled c, with_connection (Some c) r)
  end.

(** A call of [disconnect]. *)
Inductive DisconnectCall : Type :=
| DisconnectThrows (e : Error)
| DisconnectIssued (disposition : Z).

Definition disconnect (r : Reader) : DisconnectCall :=
  match connection r with
  | None =>
      DisconnectThrows
        (MkError DisconnectError (Some "not_connected")
           (Some "Reader in not connected. No need for disconnecting.") None)
  | Some _ => DisconnectIssued (SCARD_LEAVE_CARD (reader r))
  end.

Definition disconnect_callback (answer : option Error) (r : Reader)
  : Settled bool * Reader :=
  match answer with
  | Some err =>
      (Rejected (MkError DisconnectError (Some FAILURE)
                   (Some "An error occurred while disconnecting.") (Some err)), r)
  | None => (Fulfilled true, with_connection None r)
  end.

(** A call of [transmit]: it throws before a promise exists (no card), it
    returns a promise that is already rejected (no connection), or it
    hands the packet to the provider. *)
Inductive TransmitCall : Type :=
| TransmitThrows (e : Error)
| TransmitRejects (e : Error)
| TransmitIssued (data : Buffer) (responseMaxLength : Z) (protocol : Z).

Definition transmit (r : Reader) (data : Buffer) (responseMaxLength : Z)
  : TransmitCall :=
  match card r with
  | None => TransmitThrows (MkError TransmitError (Some CARD_NOT_CONNECTED) (Some "No card") None)
  | Some _ =>
      match connection r with
      | None =>
          TransmitRejects
            (MkError TransmitError (Some CARD_NOT_CONNECTED)
               (Some "No card or connection available.") None)
      | Some c => TransmitIssued data responseMaxLength (protocol c)
      end
  end.

(** The answer of the provider to one transmission. *)
Inductive ProviderReply : Type :=
| ReplyError (err : Error)
| ReplyResponse (response : Buffer).

(** The callback given to the provider by [transmit] (lines 320-332). *)
Definition transmit_callback (reply : ProviderReply) : Settled Buffer :=
  match reply with
  | ReplyError err =>
      Rejected (MkError TransmitError (Some FAILURE)
                  (Some "An error occurred while transmitting.") (Some err))
  | ReplyResponse response => Fulfilled response
  end.

(** ** The block engine: [read] and [write] (lines 538-679)

    The code of [read] and [write] after an await does not touch the
    fields of the reader, so a call is described by the promise it
    returns: what it asked the provider, in the order of the calls, and
    how it settles once the provider has answered. *)

Inductive Async (A : Type) : Type :=
| Soon (s : Settled A)
    (* settles in the tick of the call, without the provider *)
| AwaitTransmit (data : Buffer) (responseMaxLength protocol : Z)
                (k : Settled Buffer -> Settled A)
    (* [await this.transmit(...)], then the code after it *)
| AwaitAll (commands : list (Async A)) (k : list A -> Settled A).
    (* [Promise.all(commands).then(k)] *)

Arguments Soon {A} s.
Arguments AwaitTransmit {A} data responseMaxLength protocol k.
Arguments AwaitAll {A} commands k.

(** One packet handed to the provider. *)
Record Transmission : Type := {
  tx_data : Buffer;
  tx_responseMaxLength : Z;
  tx_protocol : Z
}.

(** The packets a call hands to the provider before it returns, in order:
    every [this.transmit] is reached in the synchronous part of its call. *)
Fixpoint issued {A : Type} (a : Async A) : list Transmission :=
  match a with
  | Soon _ => []
  | AwaitTransmit d l p _ =>
      [{| tx_data := d; tx_responseMaxLength := l; tx_protocol := p |}]
  | AwaitAll commands _ => concat (map issued commands)
  end.

(** The provider answers the [n]-th packet it was handed with a reply, at
    some rank in the order of arrival of the answers. *)
Definition Provider : Type := nat -> nat * ProviderReply.

(** [Promise.all]: rejected with the earliest rejection (the first in
    the list among simultaneous ones), else fulfilled with all values. *)
Fixpoint first_rejection {A : Type} (rs : list (nat * Settled A))
  : option (nat * Error) :=
  match rs with
  | [] => None
  | (t, Rejected e) :: rest =>
      match first_rejection rest with
      | Some (t', e') => if (t' <? t)%nat then Some (t', e') else Some (t, e)
      | None => Some (t, e)
      end
  | (_, Fulfilled _) :: rest => first_rejection rest
  end.

Fixpoint fulfilled_values {A : Type} (rs : list (nat * Settled A)) : list A :=
  match rs with
  | [] => []
  | (_, Fulfilled a) :: rest => a :: fulfilled_values rest
  | (_, Rejected _) :: rest => fulfilled_values rest
  end.

Definition Promise_all {A : Type} (rs : list (nat * Settled A))
           (k : list A -> Settled A) : nat * Settled A :=
  match first_rejection rs with
  | Some (t, e) => (t, Rejected e)
  | None => (foldr Nat.max 0%nat (fst <$> rs), k (fulfilled_values rs))
  end.

(** How a promise settles, and when, if its first packet is the
    [first]-th one handed to the provider. *)
Fixpoint settle {A : Type} (a : Async A) (answers : Provider) (first : nat)
  : nat * Settled A :=
  match a with
  | Soon s => (0%nat, s)
  | AwaitTransmit _ _ _ k =>
      (fst (answers first), k (transmit_callback (snd (answers first))))
  | AwaitAll commands k =>
      Promise_all
        ((fix each (cs : list (Async A)) (first : nat) : list (nat * Settled A) :=
            match cs with
            | [] => []
            | c :: cs' =>
                settle c answers first :: each cs' (first + length (issued c))%nat
            end) commands first)
        k
  end.

(** The promises of a list of calls made one after the other: each
    starts where the packets of the one before end. *)
Fixpoint settle_all {A : Type} (cs : list (Async A)) (answers : Provider)
         (first : nat) : list (nat * Settled A) :=
  match cs with
  | [] => []
  | c :: cs' => settle c answers first :: settle_all cs' answers (first + length (issued c))%nat
  end.

(** [read], after [await this.transmit(packet, length + 2)] (lines 579-603) *)
Definition read_response (s : Settled Buffer) : Settled Buffer :=
  match s with
  | Rejected err => Rejected (MkError ReadError None None (Some err))
  | Fulfilled response =>
      if blen response <? 2 then
        Rejected (MkError ReadError (Some OPERATION_FAILED)
          (Some ("Read operation failed: Invalid response length "
                 +:+ pretty (blen response)
                 +:+ ". Expected minimal length is 2 bytes.")) None)
      else
        match readUInt16BE (Buffer_slice response (-2) None) 0 with
        | None => Rejected (MkError RangeError None None None)
        | Some statusCode =>
            if negb (statusCode =? 0x9000) then
              Rejected (MkError ReadError (Some OPERATION_FAILED)
                (Some ("Read operation failed: Status code: 0x"
                       +:+ Number_toString16 statusCode)) None)
            else Fulfilled (Buffer_slice response 0 (Some (-2)))
        end
  end.

(** The packet of one Read Binary command (lines 569-575). *)
Definition read_packet (blockNumber : jsnum) (length readClass : Z) : Buffer :=
  Buffer_from_array
    [ readClass;
      0xb0;
      Z.land (Z.shiftr (to_integer blockNumber) 8) 0xFF;
      Z.land (to_integer blockNumber) 0xFF;
      length ].

(** [read(blockNumber, length, blockSize, packetSize, readClass)]. The
    method calls itself for each part; [fuel] bounds the depth of these
    calls. [None]: the call does not return (a loop without end, or no
    fuel left). [length], [blockSize] and [packetSize] are integers, of the
    magnitudes below 2^53 on which the products, differences,
    comparisons and [Math.ceil] of a quotient of the language are exact;
    the block number of a part is a quotient and a sum of the language,
    rounded as these are (line 554). *)
Fixpoint read_ (fuel : nat) (r : Reader) (blockNumber : jsnum)
         (length blockSize packetSize readClass : Z) : option (Async Buffer) :=
  match fuel with
  | O => None
  | S fuel' =>
      match card r with
      | None => Some (Soon (Rejected (MkError ReadError (Some CARD_NOT_CONNECTED) None None)))
      | Some _ =>
          if length >? packetSize then
            match Math_ceil_div length packetSize with
            | None => None
            | Some p =>
                commands ← mapM (λ n : nat,
                    let i := Z.of_nat n in
                    let block := js_add blockNumber (js_div (i * packetSize) blockSize) in
                    let size := if (i + 1) * packetSize <? length
                                then packetSize else length - i * packetSize in
                    read_ fuel' r block size blockSize packetSize readClass)
                  (seq 0 (Z.to_nat p));
                Some (AwaitAll commands (λ values,
                        match Buffer_concat values length with
                        | Some b => Fulfilled b
                        | None => Rejected (MkError RangeError None None None)
                        end))
            end
          else
            let packet := read_packet blockNumber length readClass in
            match transmit r packet (length + 2) with
            | TransmitThrows err | TransmitRejects err =>
                Some (Soon (Rejected (MkError ReadError None None (Some err))))
            | TransmitIssued d l pr => Some (AwaitTransmit d l pr read_response)
            end
      end
  end.

(** A part is never longer than a packet, so one nested call is the most
    there is (lemma [read_fuel] below). *)
Definition read : Reader -> jsnum -> Z -> Z -> Z -> Z -> option (Async Buffer) :=
  read_ 2.

(** [write], after [await this.transmit(packet, 2)] (lines 657-677) *)
Definition write_response (s : Settled Buffer) : Settled bool :=
  match s with
  | Rejected err => Rejected (MkError WriteError None None (Some err))
  | Fulfilled response =>
      if blen response <? 2 then
        Rejected (MkError WriteError (Some OPERATION_FAILED)
          (Some ("Write operation failed: Invalid response length "
                 +:+ pretty (blen response)
                 +:+ ". Expected minimal length is 2 bytes.")) None)
      else
        match readUInt16BE (Buffer_slice response (-2) None) 0 with
        | None => Rejected (MkError RangeError None None None)
        | Some statusCode =>
            if negb (statusCode =? 0x9000) then
              Rejected (MkError WriteError (Some OPERATION_FAILED)
                (Some ("Write operation failed: Status code: 0x"
                       +:+ Number_toString16 statusCode)) None)
            else Fulfilled true
        end
  end.

(** The packet of one Update Binary command (lines 645-653). *)
Definition write_packet (blockNumber blockSize : Z) (data : Buffer) : Buffer :=
  Buffer_from_array [0xff; 0xd6; 0x00; blockNumber; blockSize] ++ data.

(** [data.length % blockSize !== 0] *)
Definition rem_not_zero (a b : Z) : bool :=
  match js_rem a b with
  | Some 0 => false
  | _ => true
  end.

(** [write(blockNumber, data, blockSize)]; the block number of a part
    is a sum of the language (line 621). *)
Fixpoint write_ (fuel : nat) (r : Reader) (blockNumber : Z) (data : Buffer)
         (blockSize : Z) : option (Async bool) :=
  match fuel with
  | O => None
  | S fuel' =>
      match card r with
      | None => Some (Soon (Rejected (MkError WriteError (Some CARD_NOT_CONNECTED) None None)))
      | Some _ =>
          if (blen data <? blockSize) || rem_not_zero (blen data) blockSize then
            Some (Soon (Rejected (MkError WriteError (Some "invalid_data_length")
              (Some "Invalid data length. You can only update the entire data block(s).")
              None)))
          else if blen data >? blockSize then
            let p := blen data / blockSize in
            commands ← mapM (λ n : nat,
                let i := Z.of_nat n in
                let block := js_add_int blockNumber i in
                let start := i * blockSize in
                let end_ := (i + 1) * blockSize in
                let part := Buffer_slice data start (Some end_) in
                write_ fuel' r block part blockSize)
              (seq 0 (Z.to_nat p));
            Some (AwaitAll commands (λ _, Fulfilled true))
          else
            let packet := write_packet blockNumber blockSize data in
            match transmit r packet 2 with
            | TransmitThrows err | TransmitRejects err =>
                Some (Soon (Rejected (MkError WriteError None None (Some err))))
            | TransmitIssued d l pr => Some (AwaitTransmit d l pr write_response)
            end
      end
  end.

Definition write : Reader -> Z -> Buffer -> Z -> option (Async bool) :=
  write_ 2.

(** ** The key slots: [findKeyNumber] (lines 429-438) *)

Definition key_length (k : KeyVal) : Z :=
  match k with
  | StoredBuffer b => blen b
  | StoredArray l => Z.of_nat (length l)
  end.

(** [...key] *)
Definition key_spread (k : KeyVal) : list Z :=
  match k with
  | StoredBuffer b => byte_val <$> b
  | StoredArray l => l
  end.

Fixpoint join (sep : string) (l : list string) : string :=
  match l with
  | [] => EmptyString
  | [x] => x
  | x :: rest => x +:+ sep +:+ join sep rest
  end.

(** [keyVal.toString('hex')]: the hexadecimal form of a Buffer; an array
    ignores the argument and joins its elements with commas. *)
Definition KeyVal_toString (k : KeyVal) : string :=
  match k with
  | StoredBuffer b => Buffer_toString_hex b
  | StoredArray l => join "," (pretty <$> l)
  end.

(** [findKeyNumber(key)]; [None] as argument is [null], [None] as result
    is [undefined]. *)
Definition findKeyNumber (r : Reader) (key : option string) : option Z :=
  List.find
    (λ k,
       let keyVal := get_key (keyStorage r) k in
       match key with
       | None => match keyVal with None => true | Some _ => false end
       | Some key =>
           match keyVal with
           | Some v => bool_decide (toLowerCase (KeyVal_toString v) = toLowerCase key)
           | None => false
           end
       end)
    (Object_keys (keyStorage r)).

(** The slot [authenticate] loads a missing key into (lines 458-469). *)
Definition target_keyNumber (r : Reader) : Z :=
  (* set key number to first *)
  let keyNumber := hd 0 (Object_keys (keyStorage r)) in
  (* if this number is not free *)
  match get_key (keyStorage r) keyNumber with
  | Some _ =>
      (* try to find any free number *)
      match findKeyNumber r None with
      | Some freeNumber =>
          (* [if (freeNumber)]: a number is true unless it is 0 *)
          if freeNumber =? 0 then keyNumber else freeNumber
      | None => keyNumber
      end
  | None => keyNumber
  end.

(** ** The event loop

    [loadAuthenticationKey] and [authenticate] change the fields of the
    reader after their awaits, and calls in flight see each other's
    changes. They run on a model of the job queue of the language: a call
    runs up to its first await and leaves a task behind; a task whose
    awaited promise settles gets a job at the end of the queue; jobs run
    one at a time, in order; user code and the callbacks of the provider
    run only when the queue is empty. *)

Inductive Value : Type :=
| VNumber (n : Z)
| VBoolean (b : bool)
| VObject.   (* a function or an object that is no promise *)

Inductive Invocation : Type :=
| LoadAuthenticationKey (keyNumber : Z) (key : KeyArg)
| Authenticate (blockNumber keyType : Z) (key : string) (obsolete : bool).

(** Where a task waits, with the variables the rest of the method uses. *)
Inductive Frame : Type :=
| LoadAwaitsTransmit (keyNumber : Z) (key : KeyVal)
    (* [loadAuthenticationKey], line 407 *)
| AuthenticateAwaitsLoad (blockNumber keyType : Z) (key : string) (obsolete : bool)
    (* [authenticate], line 477 *)
| AuthenticateAwaitsTransmit (packet : Buffer).
    (* [authenticate], line 519 *)

Inductive TaskState : Type :=
| Running
| Suspended (f : Frame)
| Done (s : Settled Value).

(** The promise of one call of an async method: the call, who made it
    ([None]: user code), its state, and the tasks that await it. *)
Record Task : Type := {
  invoked : Invocation;
  caller : option TaskId;
  status : TaskState;
  reactions : list TaskId
}.

(** What a task is resumed with. *)
Inductive Input : Type :=
| FromTransmit (s : Settled Buffer)
| FromPromise (s : Settled Value).

(** User code: calls of the two methods, and jobs it queues itself
    ([queueMicrotask], or a [then] on a settled promise). *)
Inductive Action : Type :=
| CallLoadAuthenticationKey (keyNumber : Z) (key : KeyArg)
| CallAuthenticate (blockNumber keyType : Z) (key : string) (obsolete : bool)
| QueueMicrotask (body : list Action).

Inductive Job : Type :=
| Resume (t : TaskId) (input : Input)
| UserJob (body : list Action).

(** A packet handed to the provider, the task that awaits the answer, and
    whether the provider has answered. *)
Record Sent : Type := {
  packet : Transmission;
  awaiter : TaskId;
  answered : bool
}.

Record Loop : Type := {
  this : Reader;
  tasks : list Task;
  jobs : list Job;
  sent : list Sent
}.

Definition set_this (r : Reader) (m : Loop) : Loop :=
  {| this := r; tasks := tasks m; jobs := jobs m; sent := sent m |}.

Definition set_tasks (ts : list Task) (m : Loop) : Loop :=
  {| this := this m; tasks := ts; jobs := jobs m; sent := sent m |}.

Definition set_jobs (js : list Job) (m : Loop) : Loop :=
  {| this := this m; tasks := tasks m; jobs := js; sent := sent m |}.

Definition set_sent (s : list Sent) (m : Loop) : Loop :=
  {| this := this m; tasks := tasks m; jobs := jobs m; sent := s |}.

Definition set_pending (p : gmap string TaskId) (m : Loop) : Loop :=
  set_this (with_pending p (this m)) m.

Definition boot (r : Reader) : Loop :=
  {| this := r; tasks := []; jobs := []; sent := [] |}.

Definition enqueue (j : Job) (m : Loop) : Loop :=
  set_jobs (jobs m ++ [j]) m.

(** A call of an async method creates its promise. *)
Definition alloc (i : Invocation) (c : option TaskId) (m : Loop) : TaskId * Loop :=
  (length (tasks m),
   set_tasks (tasks m ++ [{| invoked := i; caller := c; status := Running;
                             reactions := [] |}]) m).

Definition with_status (st : TaskState) (t : Task) : Task :=
  {| invoked := invoked t; caller := caller t; status := st;
     reactions := reactions t |}.

Definition with_reaction (w : TaskId) (t : Task) : Task :=
  {| invoked := invoked t; caller := caller t; status := status t;
     reactions := reactions t ++ [w] |}.

Definition set_status (t : TaskId) (st : TaskState) (m : Loop) : Loop :=
  set_tasks (alter (with_status st) t (tasks m)) m.

(** A task returns or throws: its promise settles, and each task that
    awaits it gets a job, in the order in which they started to wait. *)
Definition finish (t : TaskId) (s : Settled Value) (m : Loop) : Loop :=
  let waiting := default [] (reactions <$> tasks m !! t) in
  set_jobs (jobs m ++ ((λ w, Resume w (FromPromise s)) <$> waiting))
    (set_status t (Done s) m).

(** [try { await this.transmit(...) } catch (err) { throw wrap(err) }],
    up to the await. *)
Definition await_transmit (t : TaskId) (f : Frame) (call : TransmitCall)
           (wrap : Error -> Error) (m : Loop) : Loop :=
  match call with
  | TransmitThrows err => finish t (Rejected (wrap err)) m
  | TransmitRejects err =>
      enqueue (Resume t (FromTransmit (Rejected err))) (set_status t (Suspended f) m)
  | TransmitIssued d l pr =>
      set_sent (sent m ++ [{| packet := {| tx_data := d; tx_responseMaxLength := l;
                                          tx_protocol := pr |};
                              awaiter := t; answered := false |}])
        (set_status t (Suspended f) m)
  end.

(** [await p] for the promise of task [p]: a settled promise queues the
    job at once, a pending one records the waiting task. *)
Definition await_promise (t : TaskId) (f : Frame) (p : TaskId) (m : Loop) : Loop :=
  let m := set_status t (Suspended f) m in
  match status <$> tasks m !! p with
  | Some (Done s) => enqueue (Resume t (FromPromise s)) m
  | _ => set_tasks (alter (with_reaction t) p (tasks m)) m
  end.

(** [await v] for a value that is no promise: the task goes on with [v]
    in a job of its own. *)
Definition await_value (t : TaskId) (f : Frame) (v : Value) (m : Loop) : Loop :=
  enqueue (Resume t (FromPromise (Fulfilled v))) (set_status t (Suspended f) m).

(** *** [loadAuthenticationKey] (lines 372-426) *)

Definition normalize_key (key : KeyArg) : KeyVal + Error :=
  match key with
  | KeyBuffer b => inl (StoredBuffer b)
  | KeyArray l => inl (StoredArray l)
  | KeyString s => inl (StoredBuffer (Buffer_from_hex s))
  | KeyOther =>
      inr (MkError LoadAuthenticationKeyError (Some "invalid_key")
             (Some "Key must an instance of Buffer or an array of bytes or a string.")
             None)
  end.

Definition loadAuthenticationKey_packet (keyNumber : Z) (key : KeyVal) : Buffer :=
  Buffer_from_array ([0xff; 0x82; 0x00; keyNumber; key_length key] ++ key_spread key).

(** The call, up to [await this.transmit(packet, 2)]. *)
Definition loadAuthenticationKey (c : option TaskId) (keyNumber : Z) (key : KeyArg)
           (m : Loop) : TaskId * Loop :=
  let '(t, m) := alloc (LoadAuthenticationKey keyNumber key) c m in
  (t,
   if negb ((keyNumber =? 0) || (keyNumber =? 1)) then
     finish t (Rejected (MkError LoadAuthenticationKeyError (Some "invalid_key_number") None None)) m
   else
     match normalize_key key with
     | inr err => finish t (Rejected err) m
     | inl key =>
         if negb (key_length key =? 6) then
           finish t (Rejected (MkError LoadAuthenticationKeyError (Some "invalid_key")
                                 (Some "Key length must be 6 bytes.") None)) m
         else
           let packet := loadAuthenticationKey_packet keyNumber key in
           await_transmit t (LoadAwaitsTransmit keyNumber key)
             (transmit (this m) packet 2)
             (λ err, MkError LoadAuthenticationKeyError None None (Some err)) m
     end).

(** The rest of the method, from the answer to the packet (lines 409-424). *)
Definition loadAuthenticationKey_resume (keyNumber : Z) (key : KeyVal)
           (s : Settled Buffer) (r : Reader) : Settled Value * Reader :=
  match s with
  | Rejected err => (Rejected (MkError LoadAuthenticationKeyError None None (Some err)), r)
  | Fulfilled response =>
      match readUInt16BE response 0 with
      | None => (Rejected (MkError RangeError None None None), r)
      | Some statusCode =>
          if negb (statusCode =? 0x9000) then
            (Rejected (MkError LoadAuthenticationKeyError (Some OPERATION_FAILED)
               (Some ("Load authentication key operation failed: Status code: "
                      +:+ pretty statusCode)) None), r)
          else
            (Fulfilled (VNumber keyNumber),
             with_keyStorage (set_key (keyStorage r) keyNumber key) r)
      end
  end.

(** *** [authenticate] (lines 447-536) *)

Definition authenticate_packet (blockNumber keyType keyNumber : Z) (obsolete : bool)
  : Buffer :=
  if negb obsolete then
    Buffer_from_array [0xff; 0x86; 0x00; 0x00; 0x05; 0x01; 0x00; blockNumber; keyType; keyNumber]
  else
    Buffer_from_array [0xff; 0x88; 0x00; blockNumber; keyType; keyNumber].

(** Lines 488-525: the packet, and [await this.transmit(packet, 2)]. *)
Definition authenticate_transmit (t : TaskId) (blockNumber keyType keyNumber : Z)
           (obsolete : bool) (m : Loop) : Loop :=
  let packet := authenticate_packet blockNumber keyType keyNumber obsolete in
  await_transmit t (AuthenticateAwaitsTransmit packet)
    (transmit (this m) packet 2)
    (λ err, MkError AuthenticationError None None (Some err)) m.

(** The number a resolved value is when it is written into a packet; a
    function or an object converts to [NaN], which is stored as 0. *)
Definition number_of (v : Value) : Z :=
  match v with
  | VNumber n => n
  | VBoolean b => if b then 1 else 0
  | VObject => 0
  end.

(** The call, up to its first await. *)
Definition authenticate (blockNumber keyType : Z) (key : string) (obsolete : bool)
           (m : Loop) : TaskId * Loop :=
  let '(t, m) := alloc (Authenticate blockNumber keyType key obsolete) None m in
  (t,
   match findKeyNumber (this m) (Some key) with
   | None =>
       (* key is not in the storage *)
       match get_pending (this m) key with
       | Undefined =>
           (* [!this.pendingLoadAuthenticationKey[key]] *)
           let keyNumber := target_keyNumber (this m) in
           let '(p, m) := loadAuthenticationKey (Some t) keyNumber (KeyString key) m in
           let m := set_pending (<[key := p]> (pendingLoadAuthenticationKey (this m))) m in
           await_promise t (AuthenticateAwaitsLoad blockNumber keyType key obsolete) p m
       | OwnValue p =>
           await_promise t (AuthenticateAwaitsLoad blockNumber keyType key obsolete) p m
       | Inherited =>
           (* the read is truthy: no load is started, and line 477 awaits
              the member of [Object.prototype] *)
           await_value t (AuthenticateAwaitsLoad blockNumber keyType key obsolete)
             VObject m
       end
   | Some keyNumber => authenticate_transmit t blockNumber keyType keyNumber obsolete m
   end).

(** Lines 476-486, from the outcome of the awaited load: the [finally]
    block deletes the entry on both paths; then the method throws, or
    goes on to the packet. *)
Definition authenticate_after_load (t : TaskId) (blockNumber keyType : Z)
           (key : string) (obsolete : bool) (s : Settled Value) (m : Loop) : Loop :=
  let m := set_pending (delete key (pendingLoadAuthenticationKey (this m))) m in
  match s with
  | Rejected err =>
      finish t (Rejected (MkError AuthenticationError (Some "unable_to_load_key")
                            (Some "Could not load authentication key into reader.")
                            (Some err))) m
  | Fulfilled keyNumber =>
      authenticate_transmit t blockNumber keyType (number_of keyNumber) obsolete m
  end.

(** Lines 521-534, from the answer to the packet. *)
Definition authenticate_after_transmit (s : Settled Buffer) : Settled Value :=
  match s with
  | Rejected err => Rejected (MkError AuthenticationError None None (Some err))
  | Fulfilled response =>
      match readUInt16BE response 0 with
      | None => Rejected (MkError RangeError None None None)
      | Some statusCode =>
          if negb (statusCode =? 0x9000) then
            Rejected (MkError AuthenticationError (Some OPERATION_FAILED)
              (Some ("Authentication operation failed: Status code: 0x"
                     +:+ Number_toString16 statusCode)) None)
          else Fulfilled (VBoolean true)
      end
  end.

(** *** Jobs and events *)

Definition resume (t : TaskId) (input : Input) (m : Loop) : Loop :=
  match status <$> tasks m !! t, input with
  | Some (Suspended (LoadAwaitsTransmit keyNumber key)), FromTransmit s =>
      let '(res, r) := loadAuthenticationKey_resume keyNumber key s (this m) in
      finish t res (set_this r m)
  | Some (Suspended (AuthenticateAwaitsLoad b kt key o)), FromPromise s =>
      authenticate_after_load t b kt key o s m
  | Some (Suspended (AuthenticateAwaitsTransmit _)), FromTransmit s =>
      finish t (authenticate_after_transmit s) m
  | _, _ => m
  end.

Fixpoint run_actions (body : list Action) (m : Loop) : Loop :=
  match body with
  | [] => m
  | CallLoadAuthenticationKey k key :: rest =>
      run_actions rest (snd (loadAuthenticationKey None k key m))
  | CallAuthenticate b kt key o :: rest =>
      run_actions rest (snd (authenticate b kt key o m))
  | QueueMicrotask job :: rest =>
      run_actions rest (enqueue (UserJob job) m)
  end.

Definition run_job (j : Job) (m : Loop) : Loop :=
  match j with
  | Resume t input => resume t input m
  | UserJob body => run_actions body m
  end.

(** The callback of the [n]-th transmission runs: the promise of
    [transmit] settles and the task that awaits it gets its job. *)
Definition provider_answers (n : nat) (reply : ProviderReply) (m : Loop)
  : option Loop :=
  match sent m !! n with
  | Some s =>
      if answered s then None
      else
        Some (enqueue (Resume (awaiter s) (FromTransmit (transmit_callback reply)))
                (set_sent (<[n := {| packet := packet s; awaiter := awaiter s;
                                     answered := true |}]> (sent m)) m))
  | None => None
  end.

Inductive Event : Type :=
| Microtask
    (* the job at the head of the queue runs *)
| Macrotask (body : list Action)
    (* user code runs from the event loop *)
| ProviderAnswers (n : nat) (reply : ProviderReply)
    (* the provider calls back for the n-th packet *)
| ReaderChanges (c : option Card) (conn : option ReaderConnection).
    (* the status handler, the tag handlers and the callbacks of connect
       and disconnect change [card] and [connection]; this event is
       allowed at any point, which is more than the platform allows *)

Definition is_nil {A : Type} (l : list A) : bool :=
  match l with [] => true | _ => false end.

(** One event; [None] when it cannot happen in this state. *)
Definition step (e : Event) (m : Loop) : option Loop :=
  match e with
  | Microtask =>
      match jobs m with
      | j :: q => Some (run_job j (set_jobs q m))
      | [] => None
      end
  | Macrotask body =>
      if is_nil (jobs m) then Some (run_actions body m) else None
  | ProviderAnswers n reply =>
      if is_nil (jobs m) then provider_answers n reply m else None
  | ReaderChanges c conn =>
      Some (set_this (with_connection conn (with_card c (this m))) m)
  end.

Fixpoint exec (events : list Event) (m : Loop) : option Loop :=
  match events with
  | [] => Some m
  | e :: rest =>
      match step e m with
      | Some m' => exec rest m'
      | None => None
      end
  end.

(** The states a reader goes through from its construction. *)
Definition reachable (cr : CardReader) (m : Loop) : Prop :=
  ∃ events, exec events (boot (new_Reader cr)) = Some m.

(** ** The tag dispatcher (lines 681-849) *)

(** The promise of a tag handler: it finished in the tick of the call,
    with a return value ([None]: undefined) after some emits; or it waits
    for the answer to a packet, and the code after the await runs on the
    reader as it is then. *)
Inductive TagTask : Type :=
| TagReturns (v : option bool) (emitted : list Emitted)
| TagAwaits (data : Buffer) (responseMaxLength protocol : Z)
            (k : Settled Buffer -> Reader -> Reader * list Emitted).

Definition with_uid (u : string) (c : Card) : Card :=
  {| atr := atr c; standard := standard c; card_type := card_type c;
     uid := Some u; data := data c |}.

Definition with_data (d : Buffer) (c : Card) : Card :=
  {| atr := atr c; standard := standard c; card_type := card_type c;
     uid := uid c; data := Some d |}.

Definition GetUID_packet : Buffer :=
  Buffer_from_array [0xff; 0xca; 0x00; 0x00; 0x00].

(** [handle_Iso_14443_3_Tag], after [await this.transmit(packet, 12)]
    (lines 724-762). *)
Definition handle_Iso_14443_3_Tag_response (s : Settled Buffer) (r : Reader)
  : Reader * list Emitted :=
  match s with
  | Rejected err =>
      (r, [emit "error" (ErrorPayload (MkError GetUIDError None None (Some err)))])
  | Fulfilled response =>
      if blen response <? 2 then
        (r, [emit "error" (ErrorPayload (MkError GetUIDError (Some "invalid_response")
               (Some ("Invalid response length " +:+ pretty (blen response)
                      +:+ ". Expected minimal length is 2 bytes.")) None))])
      else
        match readUInt16BE (Buffer_slice response (-2) None) 0 with
        | None =>
            (r, [emit "error" (ErrorPayload (MkError GetUIDError None None
                   (Some (MkError RangeError None None None))))])
        | Some statusCode =>
            if negb (statusCode =? 0x9000) then
              (r, [emit "error" (ErrorPayload (MkError GetUIDError (Some OPERATION_FAILED)
                     (Some "Could not get card UID.") None))])
            else
              let uid := Buffer_toString_hex (Buffer_slice response 0 (Some (-2))) in
              match card r with
              | Some c =>
                  let c' := with_uid uid c in
                  (with_card (Some c') r, [emit "card" (CardPayload c')])
              | None =>
                  (* [this.card.uid = uid] on [null] throws inside the [try] *)
                  (r, [emit "error" (ErrorPayload (MkError GetUIDError None None
                         (Some (MkError TypeError None None None))))])
              end
        end
  end.

Definition handle_Iso_14443_3_Tag (r : Reader) : TagTask :=
  match card r, connection r with
  | Some _, Some _ =>
      match transmit r GetUID_packet 12 with
      | TransmitThrows err | TransmitRejects err =>
          TagReturns None
            [emit "error" (ErrorPayload (MkError GetUIDError None None (Some err)))]
      | TransmitIssued d l pr => TagAwaits d l pr handle_Iso_14443_3_Tag_response
      end
  | _, _ => TagReturns (Some false) []
  end.

Definition SelectAID_packet (aid : Buffer) : Buffer :=
  Buffer_from_array ([0x00; 0xa4; 0x04; 0x00; blen aid] ++ (byte_val <$> aid) ++ [0x00]).

(** [handle_Iso_14443_4_Tag], after [await this.transmit(packet, 40)]
    (lines 801-847). *)
Definition handle_Iso_14443_4_Tag_response (aid : Buffer) (s : Settled Buffer)
           (r : Reader) : Reader * list Emitted :=
  match s with
  | Rejected err =>
      (r, [emit "error" (ErrorPayload (MkError GetUIDError None None (Some err)))])
  | Fulfilled response =>
      if (blen response =? 2)
         && bool_decide (readUInt16BE response 0 = Some 0x6a82) then
        (r, [emit "error" (ErrorPayload (MkError PlainError None
               (Some ("Not found response. Tag not compatible with AID "
                      +:+ toUpperCase (Buffer_toString_hex aid) +:+ ".")) None))])
      else if blen response <? 2 then
        (r, [emit "error" (ErrorPayload (MkError PlainError None
               (Some ("Invalid response length " +:+ pretty (blen response)
                      +:+ ". Expected minimal length is 2 bytes.")) None))])
      else
        match readUInt16BE (Buffer_slice response (-2) None) 0 with
        | None =>
            (r, [emit "error" (ErrorPayload (MkError GetUIDError None None
                   (Some (MkError RangeError None None None))))])
        | Some statusCode =>
            if negb (statusCode =? 0x9000) then
              (r, [emit "error" (ErrorPayload (MkError PlainError None
                     (Some "Response status error.") None))])
            else
              let data := Buffer_slice response 0 (Some (-2)) in
              (r, [emit "card" (CardPayload (with_data data (default empty_card (card r))))])
        end
  end.

Definition handle_Iso_14443_4_Tag (r : Reader) : TagTask :=
  match card r, connection r with
  | Some c, Some _ =>
      match _aid r with
      | None =>
          TagReturns None
            [emit "error" (ErrorPayload (MkError PlainError None
               (Some "Cannot process ISO 14443-4 tag because AID was not set.") None))]
      | Some a =>
          match match a with AidFunction f => f c | AidBuffer b => Some b end with
          | None =>
              TagReturns None
                [emit "error" (ErrorPayload (MkError PlainError None
                   (Some "AID must be an instance of Buffer.") None))]
          | Some aid =>
              match transmit r (SelectAID_packet aid) 40 with
              | TransmitThrows err | TransmitRejects err =>
                  TagReturns None
                    [emit "error" (ErrorPayload (MkError GetUIDError None None (Some err)))]
              | TransmitIssued d l pr =>
                  TagAwaits d l pr (handle_Iso_14443_4_Tag_response aid)
              end
          end
      end
  | _, _ => TagReturns (Some false) []
  end.

(** [handleTag] returns [false], or the promise of the handler it calls. *)
Inductive HandleTagResult : Type :=
| HandleFalse
| HandlePromise (t : TagTask).

Definition handleTag (r : Reader) : HandleTagResult :=
  match card r with
  | None => HandleFalse
  | Some c =>
      match standard c with
      | Some TAG_ISO_14443_3 => HandlePromise (handle_Iso_14443_3_Tag r)
      | Some TAG_ISO_14443_4 => HandlePromise (handle_Iso_14443_4_Tag r)
      | None => HandlePromise (handle_Iso_14443_3_Tag r)   (* [default:] *)
      end
  end.

(** ** The status handler (lines 142-209) *)

Record Status : Type := {
  status_state : Z;
  status_atr : option Buffer
}.

(** A number in a condition. *)
Definition truthy (z : Z) : bool := negb (z =? 0).

(** The promise of the handler: it finished in the tick of the event, or
    it waits for the provider to disconnect or to connect; the code after
    the await runs on the reader as it is then, and may end with the call
    of [handleTag]. *)
Inductive StatusTask : Type :=
| StatusReturns (r : Reader) (emitted : list Emitted)
| StatusAwaitsDisconnect (r : Reader) (emitted : list Emitted) (disposition : Z)
    (k : option Error -> Reader -> Reader * list Emitted)
| StatusAwaitsConnect (r : Reader) (emitted : list Emitted)
    (share_mode : ShareMode) (protocol : option Z)
    (k : Error + option Z -> Reader -> Reader * list Emitted * option HandleTagResult).

(** Lines 168-172: the code after [await this.disconnect()]. *)
Definition on_status_disconnected (answer : option Error) (r : Reader)
  : Reader * list Emitted :=
  match disconnect_callback answer r with
  | (Rejected err, r') => (r', [emit_object err])
  | (Fulfilled _, r') => (r', [])
  end.

(** Lines 191-204: the code after [await this.connect()]. *)
Definition on_status_connected (share_mode : ShareMode) (answer : Error + option Z)
           (r : Reader) : Reader * list Emitted * option HandleTagResult :=
  match connect_callback share_mode answer r with
  | (Rejected err, r') => (r', [emit_object err], None)
  | (Fulfilled _, r') =>
      if negb (autoProcessing r') then
        (r', [emit "card" (CardPayload (default empty_card (card r')))], None)
      else (r', [], Some (handleTag r'))
  end.

Definition on_status (r : Reader) (status : Status) : StatusTask :=
  (* check what has changed *)
  let changes := Z.lxor (state (reader r)) (status_state status) in
  if truthy changes then
    if truthy (Z.land changes (SCARD_STATE_EMPTY (reader r)))
       && truthy (Z.land (status_state status) (SCARD_STATE_EMPTY (reader r))) then
      (* card removed *)
      let emitted :=
        match card r with
        | Some c => [emit "card.off" (CardPayload c)]
        | None => []
        end in
      let r := with_card None r in
      match connection r with
      | Some _ =>
          match disconnect r with
          | DisconnectThrows err => StatusReturns r (emitted ++ [emit_object err])
          | DisconnectIssued d => StatusAwaitsDisconnect r emitted d on_status_disconnected
          end
      | None => StatusReturns r emitted
      end
    else if truthy (Z.land changes (SCARD_STATE_PRESENT (reader r)))
            && truthy (Z.land (status_state status) (SCARD_STATE_PRESENT (reader r))) then
      (* card inserted *)
      let c :=
        match status_atr status with
        | Some a =>
            {| atr := Some a; standard := Some (selectStandardByAtr a);
               card_type := Some (selectStandardByAtr a); uid := None; data := None |}
        | None => empty_card
        end in
      let r := with_card (Some c) r in
      match connect r CONNECT_MODE_CARD None with
      | ConnectThrows err => StatusReturns r [emit_object err]
      | ConnectIssued m p => StatusAwaitsConnect r [] m p (on_status_connected m)
      end
    else StatusReturns r []
  else StatusReturns r [].

(** ** Notions used by the statements *)

(** The task whose code called [loadAuthenticationKey] for promise [p]. *)
Definition initiator (m : Loop) (p : TaskId) : option TaskId :=
  tasks m !! p ≫= caller.

(** The call a task stands for and who made it. *)
Definition call_of (t : Task) : Invocation * option TaskId :=
  (invoked t, caller t).

(** The state of task [t], if there is such a task. *)
Definition status_of (m : Loop) (t : TaskId) : option TaskState :=
  status <$> tasks m !! t.

(** C1 as the spec words it: when the job of a task removes an entry of
    the table, that task is the one that started the load of the entry. *)
Definition removed_only_by_initiator (cr : CardReader) : Prop :=
  ∀ m t input q key p,
    reachable cr m ->
    jobs m = Resume t input :: q ->
    pendingLoadAuthenticationKey (this m) !! key = Some p ->
    pendingLoadAuthenticationKey (this (run_job (Resume t input) (set_jobs q m))) !! key
    = None ->
    initiator m p = Some t.

(** A reader of the kind the provider reports, with the constants of
    PC/SC, used where a statement needs a concrete one. *)
Definition acr1252 : CardReader :=
  {| name := "ACS ACR1252"; state := 0x10;
     SCARD_STATE_EMPTY := 0x10; SCARD_STATE_PRESENT := 0x20;
     SCARD_SHARE_DIRECT := 3; SCARD_SHARE_SHARED := 2;
     SCARD_LEAVE_CARD := 0 |}.

(** A run in which three calls of [authenticate] for one key meet while
    the reader has a card and no connection, so every load fails at once.
    In source form, in one turn of the event loop:

      reader.authenticate(4, KEY_TYPE_A, K);           // call A, load L1
      queueMicrotask(() => {
        queueMicrotask(() => reader.authenticate(6, KEY_TYPE_A, K));   // call D
        reader.authenticate(5, KEY_TYPE_A, K);                         // call B
      });

    followed by the jobs of L1, of the user's first job, of A and of the
    user's second job. *)
Definition three_calls : list Event :=
  [ ReaderChanges (Some empty_card) None;
    Macrotask
      [ CallAuthenticate 4 KEY_TYPE_A "FFFFFFFFFFFF" false;
        QueueMicrotask
          [ QueueMicrotask [CallAuthenticate 6 KEY_TYPE_A "FFFFFFFFFFFF" false];
            CallAuthenticate 5 KEY_TYPE_A "FFFFFFFFFFFF" false ] ];
    Microtask; Microtask; Microtask; Microtask ].

(** A string made of pairs of hexadecimal digits only. *)
Fixpoint hex_pairs (s : string) : bool :=
  match s with
  | EmptyString => true
  | String a (String b rest) =>
      match unhex a, unhex b with
      | Some _, Some _ => hex_pairs rest
      | _, _ => false
      end
  | String _ EmptyString => false
  end.

(** A string at which hexadecimal decoding stops: fewer than two
    characters, or a first pair with a character that is not a digit. *)
Definition stops (s : string) : bool :=
  match s with
  | String a (String b _) =>
      match unhex a, unhex b with
      | Some _, Some _ => false
      | _, _ => true
      end
  | _ => true
  end.

(** ** More of the sources *)

(** *** [Reader.reverseBuffer] (lines 77-88)

    [Buffer.allocUnsafe] returns a buffer of the requested length with
    whatever bytes the memory held: [alloc] is that buffer. The loop runs
    while [i <= j]; [fuel] bounds its iterations. An index outside the
    source reads [undefined], which is stored as 0. *)
Fixpoint reverseBuffer_loop (fuel : nat) (src buffer : Buffer) (i j : Z) : Buffer :=
  match fuel with
  | O => buffer
  | S fuel' =>
      if i <=? j then
        let buffer := <[Z.to_nat i := default x00 (src !! Z.to_nat j)]> buffer in
        let buffer := <[Z.to_nat j := default x00 (src !! Z.to_nat i)]> buffer in
        reverseBuffer_loop fuel' src buffer (i + 1) (j - 1)
      else buffer
  end.

Definition reverseBuffer (alloc src : Buffer) : Buffer :=
  reverseBuffer_loop (length src) src alloc 0 (blen src - 1).

(** *** [control] (lines 338-370)

    [SCARD_CTL_CODE] is a function of the provider and [platform] is
    [process.platform]; both are inputs. The test [/^win/] asks whether
    the platform name starts with "win". *)
Inductive ControlCall : Type :=
| ControlThrows (e : Error)
| ControlIssued (data : Buffer) (control_code : Z) (responseMaxLength : Z).

Definition control (SCARD_CTL_CODE : Z -> Z) (platform : string) (r : Reader)
           (data : Buffer) (responseMaxLength : Z) : ControlCall :=
  match connection r with
  | None =>
      ControlThrows (MkError ControlError (Some "not_connected")
                       (Some "No connection available.") None)
  | Some _ =>
      let IOCTL_CCID_ESCAPE :=
        if String.prefix "win" platform then SCARD_CTL_CODE 3500
        else SCARD_CTL_CODE 1 in
      ControlIssued data IOCTL_CCID_ESCAPE responseMaxLength
  end.

(** The callback given to the provider by [control] (lines 355-366). *)
Definition control_callback (reply : ProviderReply) : Settled Buffer :=
  match reply with
  | ReplyError err =>
      Rejected (MkError ControlError (Some FAILURE)
                  (Some "An error occurred while transmitting control.") (Some err))
  | ReplyResponse response => Fulfilled response
  end.

(** *** The reader listener of [NFC] ([src/src/NFC.ts], lines 50-80)

    [s.indexOf(t) !== -1]: [t] occurs in [s]. *)
Fixpoint includes (t s : string) : bool :=
  String.prefix t s
  || match s with
     | EmptyString => false
     | String _ rest => includes t rest
     end.

(** The object the listener builds for a reader of the provider: an
    [ACR122Reader] (a class outside these sources) or a [Reader]. *)
Inductive Device : Type :=
| new_ACR122Reader (reader : CardReader)
| new_Reader_device (reader : CardReader).

Definition NFC_on_reader (reader : CardReader) : Device :=
  if includes "acr122" (toLowerCase (name reader))
     || includes "acr125" (toLowerCase (name reader))
  then new_ACR122Reader reader
  else new_Reader_device reader.

(** *** What a run of the status handler leaves behind *)

(** The reader when the handler returns or reaches its await. *)
Definition status_reader (t : StatusTask) : Reader :=
  match t with
  | StatusReturns r _ => r
  | StatusAwaitsDisconnect r _ _ _ => r
  | StatusAwaitsConnect r _ _ _ _ => r
  end.

(** What the handler has emitted by then. *)
Definition status_emitted (t : StatusTask) : list Emitted :=
  match t with
  | StatusReturns _ ev => ev
  | StatusAwaitsDisconnect _ ev _ _ => ev
  | StatusAwaitsConnect _ ev _ _ _ => ev
  end.

(** The status has the bit [mask] set and the bit differs from the state
    the provider had: the two conditions of lines 153 and 175. *)
Definition bit_rose (r : Reader) (status : Status) (mask : Z) : bool :=
  truthy (Z.land (Z.lxor (state (reader r)) (status_state status)) mask)
  && truthy (Z.land (status_state status) mask).

(** Every key in a slot has six bytes (or six elements). *)
Definition keys_have_six_bytes (r : Reader) : Prop :=
  ∀ k kv, get_key (keyStorage r) k = Some kv -> key_length kv = 6.

(** What the frames of the calls in flight satisfy. *)
Definition frames_hold (Q : Frame -> Prop) (m : Loop) : Prop :=
  ∀ t f, status_of m t = Some (Suspended f) -> Q f.

(** A call of [loadAuthenticationKey] that waits for the provider has
    passed the checks of lines 374-391. *)
Definition frame_key_ok (f : Frame) : Prop :=
  match f with
  | LoadAwaitsTransmit k kv => (k = 0 ∨ k = 1) ∧ key_length kv = 6
  | _ => True
  end.

Definition keys_well_formed (m : Loop) : Prop :=
  keys_have_six_bytes (this m) ∧ frames_hold frame_key_ok m.

(** Promise [p] is that of a call of [loadAuthenticationKey] for [key],
    made by a call of [authenticate] for that key. *)
Definition load_of (m : Loop) (key : string) (p : TaskId) : Prop :=
  ∃ k c b kt o,
    (call_of <$> tasks m) !! p = Some (LoadAuthenticationKey k (KeyString key), Some c)
    ∧ (call_of <$> tasks m) !! c = Some (Authenticate b kt key o, None)
    ∧ (k = 0 ∨ k = 1).

(** Every property of its own that the table of loads in flight has is
    such a promise, and none has the name of a member of
    [Object.prototype]. *)
Definition pending_names_loads (m : Loop) : Prop :=
  ∀ key p,
    pendingLoadAuthenticationKey (this m) !! key = Some p ->
    (key ∉ Object_prototype_names) ∧ load_of m key p.

(** * Properties *)

(** ** Bytes and strings *)

Lemma byte_val_range (b : byte) : 0 <= byte_val b < 256.
Proof.
  unfold byte_val. pose proof (Byte.to_N_bounded b) as H. lia.
Qed.

Lemma u8_byte_val (b : byte) : u8 (byte_val b) = b.
Proof.
  unfold u8, byte_val.
  rewrite Z.mod_small by (pose proof (Byte.to_N_bounded b); lia).
  rewrite N2Z.id, Byte.of_to_N. reflexivity.
Qed.

Lemma byte_val_u8 (z : Z) : byte_val (u8 z) = z mod 256.
Proof.
  unfold u8, byte_val.
  pose proof (Z.mod_pos_bound z 256 ltac:(lia)) as Hr.
  destruct (Byte.of_N (Z.to_N (z mod 256))) as [b|] eqn:E.
  - apply Byte.to_of_N in E. rewrite E. lia.
  - apply Byte.of_N_None_iff in E. lia.
Qed.

Lemma byte_val_inj (a b : byte) : byte_val a = byte_val b -> a = b.
Proof.
  intros H. rewrite <- (u8_byte_val a), <- (u8_byte_val b). now rewrite H.
Qed.

Lemma Buffer_from_array_vals (b : Buffer) : Buffer_from_array (byte_val <$> b) = b.
Proof.
  unfold Buffer_from_array. induction b as [|x b IH]; simpl; [reflexivity|].
  rewrite u8_byte_val. f_equal. exact IH.
Qed.

(** Induction over a string two characters at a time. *)
Lemma string_pair_ind (P : string -> Prop) :
  P EmptyString ->
  (∀ a, P (String a EmptyString)) ->
  (∀ a b s, P s -> P (String a (String b s))) ->
  ∀ s, P s.
Proof.
  intros H0 H1 H2 s.
  enough (P s ∧ ∀ a, P (String a s)) as [H _] by exact H.
  induction s as [|c s [IHs IHc]]; split; auto.
Qed.

Lemma Buffer_from_hex_app (p rest : string) :
  hex_pairs p = true ->
  Buffer_from_hex (p +:+ rest) = Buffer_from_hex p ++ Buffer_from_hex rest.
Proof.
  intros Hp. induction p as [|a|a b p IH] using string_pair_ind;
    simpl in *; try discriminate; [reflexivity|].
  destruct (unhex a), (unhex b); try discriminate.
  simpl. f_equal. apply IH. exact Hp.
Qed.

Lemma Buffer_from_hex_stops (s : string) : stops s = true -> Buffer_from_hex s = [].
Proof.
  destruct s as [|a [|b s']]; simpl; try reflexivity.
  destruct (unhex a), (unhex b); intros; try discriminate; reflexivity.
Qed.

Lemma Buffer_from_hex_length (p : string) :
  hex_pairs p = true -> (2 * length (Buffer_from_hex p) = String.length p)%nat.
Proof.
  intros Hp. induction p as [|a|a b p IH] using string_pair_ind;
    simpl in *; try discriminate; [reflexivity|].
  destruct (unhex a), (unhex b); try discriminate.
  simpl. specialize (IH Hp). lia.
Qed.

(** Every string splits into pairs of digits followed by a part at which
    decoding stops. *)
Lemma hex_split (s : string) :
  ∃ p rest, s = p +:+ rest ∧ hex_pairs p = true ∧ stops rest = true.
Proof.
  induction s as [|a|a b s' IH] using string_pair_ind.
  - exists EmptyString, EmptyString. auto.
  - exists EmptyString, (String a EmptyString). auto.
  - destruct (unhex a) as [h|] eqn:Ea; [destruct (unhex b) as [l|] eqn:Eb|].
    + destruct IH as (p & rest & -> & Hp & Hr).
      exists (String a (String b p)), rest. simpl. rewrite Ea, Eb. auto.
    + exists EmptyString, (String a (String b s')). simpl. rewrite Ea, Eb. auto.
    + exists EmptyString, (String a (String b s')). simpl. rewrite Ea. auto.
Qed.

(** ** C8: the standard of a card *)

Lemma byte_is_4f (b : byte) :
  negb (byte_val b =? 0) && (byte_val b =? 0x4f) = bool_decide (b = x4f).
Proof.
  destruct (decide (b = x4f)) as [->|Hne].
  - reflexivity.
  - rewrite bool_decide_eq_false_2 by exact Hne.
    apply andb_false_iff. right. apply Z.eqb_neq. intros H. apply Hne.
    apply byte_val_inj. exact H.
Qed.

(** C8. For every ATR of more than five bytes, [selectStandardByAtr]
    returns ISO 14443-3 exactly when the byte at index 5 is 0x4F, and
    ISO 14443-4 for every other value of that byte, 0x00 included. *)
Theorem selectStandardByAtr_byte5 (atr : Buffer) :
  (5 < length atr)%nat ->
  ∃ b, atr !! 5%nat = Some b
       ∧ (selectStandardByAtr atr = TAG_ISO_14443_3 ↔ b = x4f)
       ∧ (b ≠ x4f -> selectStandardByAtr atr = TAG_ISO_14443_4)
       ∧ (b = x00 -> selectStandardByAtr atr = TAG_ISO_14443_4).
Proof.
  intros Hlen.
  destruct (lookup_lt_is_Some_2 atr 5%nat Hlen) as [b Hb].
  exists b. split; [exact Hb|].
  unfold selectStandardByAtr. rewrite Hb, byte_is_4f.
  destruct (decide (b = x4f)) as [->|Hne].
  - repeat split; auto; intros; congruence.
  - rewrite bool_decide_eq_false_2 by exact Hne.
    repeat split; auto; intros; congruence.
Qed.

Lemma selectStandardByAtr_byte5_witness :
  (5 < length [x3b; x8f; x80; x01; x80; x4f; x0c])%nat
  ∧ selectStandardByAtr [x3b; x8f; x80; x01; x80; x4f; x0c] = TAG_ISO_14443_3.
Proof.
  split; [simpl; lia|].
  destruct (selectStandardByAtr_byte5 [x3b; x8f; x80; x01; x80; x4f; x0c]
              ltac:(simpl; lia)) as (b & Hb & Hiff & _).
  apply Hiff. simpl in Hb. congruence.
Defined.

(** ** C10: the setter of the AID *)

(** C10. The setter [aid] accepts every string without raising and stores
    its hexadecimal decoding: the decoded bytes are those of the leading
    pairs of digits, and everything from the first pair that is not two
    digits (or a last single character) is dropped, so a string that
    starts with such a pair gives the empty Buffer. A function and a
    Buffer are stored as they are, and only a value of another kind is
    rejected with an error. *)
Theorem set_aid_string_never_raises (r : Reader) :
  (∀ s, set_aid r (ArgString s)
        = inl (with_aid (Some (AidBuffer (Buffer_from_hex s))) r))
  ∧ (∀ s, ∃ p rest,
        s = p +:+ rest ∧ hex_pairs p = true ∧ stops rest = true
        ∧ Buffer_from_hex s = Buffer_from_hex p
        ∧ (2 * length (Buffer_from_hex s) = String.length p)%nat)
  ∧ (∀ s, stops s = true -> Buffer_from_hex s = [])
  ∧ (∀ v, (∃ e, set_aid r v = inr e) ↔ v = ArgOther).
Proof.
  split; [reflexivity|]. split; [|split].
  - intros s. destruct (hex_split s) as (p & rest & -> & Hp & Hr).
    exists p, rest. repeat split; auto.
    + rewrite Buffer_from_hex_app, (Buffer_from_hex_stops rest), app_nil_r; auto.
    + rewrite Buffer_from_hex_app, (Buffer_from_hex_stops rest), app_nil_r; auto.
      apply Buffer_from_hex_length. exact Hp.
  - apply Buffer_from_hex_stops.
  - intros v. split.
    + intros [e He]. destruct v; simpl in He; try discriminate. reflexivity.
    + intros ->. eexists. reflexivity.
Qed.

(** ** C9: the default branch of the tag dispatcher *)

(** A card inserted without an ATR gets no standard (lines 181-187). *)
Lemma on_status_inserted_without_atr (r : Reader) (st : Status) r' ev m p k :
  status_atr st = None ->
  on_status r st = StatusAwaitsConnect r' ev m p k ->
  ∃ c, card r' = Some c ∧ standard c = None.
Proof.
  intros Hatr. unfold on_status. rewrite Hatr.
  repeat match goal with
         | |- context [if ?b then _ else _] => destruct b
         | |- context [match ?x with _ => _ end] => destruct x
         end; intros H; inversion H; subst; simpl; eauto.
Qed.

(** C9. When a card is present and its standard is neither ISO 14443-3
    nor ISO 14443-4 (the field is unset), [handleTag] takes the default
    branch, which runs the ISO 14443-3 handler: with a connection it sends
    the Get UID command and goes on with the UID code, it emits no error. *)
Theorem handleTag_default_runs_14443_3 (r : Reader) (c : Card) :
  card r = Some c -> standard c = None ->
  handleTag r = HandlePromise (handle_Iso_14443_3_Tag r)
  ∧ (∀ conn, connection r = Some conn ->
       handle_Iso_14443_3_Tag r
       = TagAwaits [xff; xca; x00; x00; x00] 12 (protocol conn)
           handle_Iso_14443_3_Tag_response)
  ∧ (connection r = None -> handle_Iso_14443_3_Tag r = TagReturns (Some false) []).
Proof.
  intros Hc Hs. unfold handleTag, handle_Iso_14443_3_Tag, transmit.
  rewrite Hc, Hs. split; [reflexivity|]. split.
  - intros conn ->. reflexivity.
  - intros ->. reflexivity.
Qed.

Lemma handleTag_default_runs_14443_3_witness :
  let r := with_connection (Some {| conn_type := 2; protocol := 2 |})
             (with_card (Some empty_card)
                (new_Reader {| name := "reader"; state := 0;
                               SCARD_STATE_EMPTY := 16; SCARD_STATE_PRESENT := 32;
                               SCARD_SHARE_DIRECT := 3; SCARD_SHARE_SHARED := 2;
                               SCARD_LEAVE_CARD := 0 |})) in
  card r = Some empty_card ∧ standard empty_card = None
  ∧ handleTag r = HandlePromise (handle_Iso_14443_3_Tag r).
Proof.
  intros r. split; [reflexivity|]. split; [reflexivity|].
  exact (proj1 (handleTag_default_runs_14443_3 r empty_card eq_refl eq_refl)).
Defined.

(** ** C2: errors raised inside the status handler *)

(** The name under which [this.emit(err)] emits is never ['error']. *)
Lemma Error_toString_not_error (e : Error) : Error_toString e ≠ "error".
Proof.
  unfold Error_toString.
  destruct (Error_message e); destruct (error_class e); simpl; discriminate.
Qed.

Lemma emit_object_not_observed (e : Error) : observed "error" [emit_object e] = [].
Proof.
  unfold observed.
  rewrite filter_cons_False by (simpl; apply Error_toString_not_error).
  reflexivity.
Qed.

(** C2 at a failing input. A reader that saw no card receives the status
    of an insertion (the PRESENT bit rises) and the provider refuses the
    connection: the [ConnectError] is emitted under its own string form,
    the listeners of ['error'] receive nothing, and the handler ends
    without throwing. *)
Theorem on_status_connect_error_not_on_error_channel :
  let cr := {| name := "ACS ACR1252"; state := 0x10;
               SCARD_STATE_EMPTY := 0x10; SCARD_STATE_PRESENT := 0x20;
               SCARD_SHARE_DIRECT := 3; SCARD_SHARE_SHARED := 2;
               SCARD_LEAVE_CARD := 0 |} in
  let status := {| status_state := 0x20;
                   status_atr := Some [x3b; x8f; x80; x01; x80; x4f; x0c] |} in
  let refused := MkError ProviderError None (Some "SCardConnect error") None in
  ∃ r', on_status (new_Reader cr) status
        = StatusAwaitsConnect r' [] 2 None (on_status_connected 2)
    ∧ ∃ r'', on_status_connected 2 (inl refused) r'
             = (r'', [ {| event := "ConnectError: An error occurred while connecting.";
                          payload := NoPayload |} ], None)
      ∧ observed "error" [ {| event := "ConnectError: An error occurred while connecting.";
                              payload := NoPayload |} ] = [].
Proof.
  intros cr status refused. eexists. split; [reflexivity|].
  eexists. split; reflexivity.
Qed.

(** The same for every reader, every status with an insertion or a removal
    and every error of the provider: what the two [catch] blocks emit
    never reaches the listeners of ['error']. *)
Lemma on_status_catch_blocks_miss_error_channel (err : Error) (m : Z) (r : Reader) :
  observed "error" (snd (on_status_disconnected (Some err) r)) = []
  ∧ observed "error" (snd (fst (on_status_connected m (inl err) r))) = [].
Proof.
  split; simpl; apply emit_object_not_observed.
Qed.

(** ** C3: validation of the response to a read *)

Lemma split_last_two (b : Buffer) :
  2 <= blen b ->
  ∃ hi lo, b = take (length b - 2) b ++ [hi; lo].
Proof.
  unfold blen. intros Hlen.
  pose proof (take_drop (length b - 2) b) as Hsplit.
  remember (drop (length b - 2) b) as tl eqn:Htl.
  assert (length tl = 2%nat) as Hl by (subst tl; rewrite length_drop; lia).
  destruct tl as [|hi [|lo [|? ?]]]; simpl in Hl; try lia.
  exists hi, lo. symmetry. exact Hsplit.
Qed.

Lemma slice_status (payload : Buffer) (hi lo : byte) :
  Buffer_slice (payload ++ [hi; lo]) (-2) None = [hi; lo].
Proof.
  unfold Buffer_slice, slice_index, blen. rewrite length_app. simpl.
  replace (Z.max (Z.of_nat (length payload + 2) + -2) 0)
    with (Z.of_nat (length payload)) by lia.
  rewrite Nat2Z.id, drop_app_length.
  replace (Z.to_nat (Z.of_nat (length payload + 2) - Z.of_nat (length payload)))
    with 2%nat by lia.
  reflexivity.
Qed.

Lemma slice_payload (payload : Buffer) (hi lo : byte) :
  Buffer_slice (payload ++ [hi; lo]) 0 (Some (-2)) = payload.
Proof.
  unfold Buffer_slice, slice_index, blen. rewrite length_app. simpl.
  replace (Z.max (Z.of_nat (length payload + 2) + -2) 0)
    with (Z.of_nat (length payload)) by lia.
  replace (Z.min 0 (Z.of_nat (length payload + 2))) with 0 by lia.
  rewrite Z.sub_0_r, Nat2Z.id. simpl. apply take_app_length.
Qed.

Lemma blen_app_two (payload : Buffer) (hi lo : byte) :
  blen (payload ++ [hi; lo]) = blen payload + 2.
Proof. unfold blen. rewrite length_app. simpl. lia. Qed.

Lemma blen_nonneg (b : Buffer) : 0 <= blen b.
Proof. unfold blen. lia. Qed.

(** What the code after the await of [read] makes of a response. *)
Lemma read_response_short (response : Buffer) :
  blen response < 2 ->
  read_response (Fulfilled response)
  = Rejected (MkError ReadError (Some OPERATION_FAILED)
                (Some ("Read operation failed: Invalid response length "
                       +:+ pretty (blen response)
                       +:+ ". Expected minimal length is 2 bytes."))
                None).
Proof.
  intros H. unfold read_response.
  destruct (blen response <? 2) eqn:E; [reflexivity | lia].
Qed.

Lemma read_response_status (payload : Buffer) (hi lo : byte) :
  read_response (Fulfilled (payload ++ [hi; lo]))
  = if byte_val hi * 256 + byte_val lo =? 0x9000 then Fulfilled payload
    else Rejected (MkError ReadError (Some OPERATION_FAILED)
           (Some ("Read operation failed: Status code: 0x"
                  +:+ Number_toString16 (byte_val hi * 256 + byte_val lo))) None).
Proof.
  unfold read_response.
  rewrite blen_app_two, slice_status, slice_payload.
  pose proof (blen_nonneg payload).
  destruct (blen payload + 2 <? 2) eqn:E; [lia|].
  unfold readUInt16BE. simpl.
  destruct (byte_val hi * 256 + byte_val lo =? 36864); reflexivity.
Qed.

(** A read of at most one packet is one Read Binary command. *)
Lemma read_single (r : Reader) (c : Card) (conn : ReaderConnection)
      (blockNumber : jsnum) (length blockSize packetSize readClass : Z) (fuel : nat) :
  card r = Some c -> connection r = Some conn -> length <= packetSize ->
  read_ (S fuel) r blockNumber length blockSize packetSize readClass
  = Some (AwaitTransmit (read_packet blockNumber length readClass) (length + 2)
            (protocol conn) read_response).
Proof.
  intros Hc Hconn Hle. simpl. rewrite Hc.
  destruct (length >? packetSize) eqn:E; [lia|].
  unfold transmit. rewrite Hc, Hconn. reflexivity.
Qed.

(** C3, as the code has it. With a card and a connection, a read of at
    most one packet sends one command; a response shorter than two bytes
    makes it fail with a [ReadError] whose code is [OPERATION_FAILED]
    (not ['invalid_response']) and whose message names the length;
    otherwise the last two bytes are the status word, big-endian, and on
    0x9000 the result is the response without them, on any other status
    word a [ReadError] with the code [OPERATION_FAILED] and the status
    word in its message. *)
Theorem read_validates_response (r : Reader) (c : Card) (conn : ReaderConnection)
        (blockNumber : jsnum) (length blockSize packetSize readClass : Z) :
  card r = Some c -> connection r = Some conn -> length <= packetSize ->
  ∃ a, read r blockNumber length blockSize packetSize readClass = Some a
    ∧ issued a = [ {| tx_data := read_packet blockNumber length readClass;
                      tx_responseMaxLength := length + 2;
                      tx_protocol := protocol conn |} ]
    ∧ ∀ (answers : Provider) (first : nat) (response : Buffer),
        snd (answers first) = ReplyResponse response ->
        (blen response < 2 ->
           snd (settle a answers first)
           = Rejected (MkError ReadError (Some OPERATION_FAILED)
                         (Some ("Read operation failed: Invalid response length "
                                +:+ pretty (blen response)
                                +:+ ". Expected minimal length is 2 bytes."))
                         None))
        ∧ (2 <= blen response ->
           ∃ hi lo, response = take (List.length response - 2) response ++ [hi; lo])
        ∧ (∀ payload hi lo, response = payload ++ [hi; lo] ->
             (byte_val hi * 256 + byte_val lo = 0x9000 ->
                snd (settle a answers first) = Fulfilled payload)
             ∧ (byte_val hi * 256 + byte_val lo ≠ 0x9000 ->
                snd (settle a answers first)
                = Rejected (MkError ReadError (Some OPERATION_FAILED)
                              (Some ("Read operation failed: Status code: 0x"
                                     +:+ Number_toString16
                                           (byte_val hi * 256 + byte_val lo)))
                              None))).
Proof.
  intros Hc Hconn Hle. eexists. split.
  { unfold read. apply (read_single r c conn); assumption. }
  split; [reflexivity|].
  intros answers first response Hresp.
  cbn [settle snd]. rewrite Hresp. cbn [transmit_callback].
  split; [apply read_response_short|]. split; [apply split_last_two|].
  intros payload hi lo ->. rewrite read_response_status. split.
  - intros ->. reflexivity.
  - intros Hne. apply Z.eqb_neq in Hne. rewrite Hne. reflexivity.
Qed.

Lemma read_validates_response_witness :
  let r := with_connection (Some {| conn_type := 2; protocol := 2 |})
             (with_card (Some empty_card)
                (new_Reader {| name := "reader"; state := 0;
                               SCARD_STATE_EMPTY := 16; SCARD_STATE_PRESENT := 32;
                               SCARD_SHARE_DIRECT := 3; SCARD_SHARE_SHARED := 2;
                               SCARD_LEAVE_CARD := 0 |})) in
  ∃ a, read r (of_int 4) 16 4 16 0xff = Some a
       ∧ snd (settle a (λ _, (0%nat, ReplyResponse [x01; x02; x90; x00])) 0)
         = Fulfilled [x01; x02].
Proof.
  intros r.
  destruct (read_validates_response r empty_card {| conn_type := 2; protocol := 2 |}
              (of_int 4) 16 4 16 0xff eq_refl eq_refl ltac:(lia))
    as (a & Ha & _ & Hs).
  exists a. split; [exact Ha|].
  destruct (Hs (λ _, (0%nat, ReplyResponse [x01; x02; x90; x00])) 0%nat
              [x01; x02; x90; x00] eq_refl) as (_ & _ & H).
  apply (H [x01; x02] x90 x00 eq_refl). reflexivity.
Defined.

(** C3 as stated fails: a one-byte response makes [read] fail with the
    code ['operation_failed'], which is not ['invalid_response']. *)
Lemma read_short_response_is_operation_failed :
  let r := with_connection (Some {| conn_type := 2; protocol := 2 |})
             (with_card (Some empty_card)
                (new_Reader {| name := "reader"; state := 0;
                               SCARD_STATE_EMPTY := 16; SCARD_STATE_PRESENT := 32;
                               SCARD_SHARE_DIRECT := 3; SCARD_SHARE_SHARED := 2;
                               SCARD_LEAVE_CARD := 0 |})) in
  ∃ a e, read r (of_int 4) 16 4 16 0xff = Some a
         ∧ snd (settle a (λ _, (0%nat, ReplyResponse [x90])) 0) = Rejected e
         ∧ error_class e = ReadError
         ∧ error_code e = Some "operation_failed"
         ∧ error_code e ≠ Some "invalid_response".
Proof.
  intros r. eexists. eexists. split; [reflexivity|]. split; [reflexivity|].
  split; [reflexivity|]. split; [reflexivity|]. discriminate.
Qed.

(** ** C4: a read of more than one packet *)

Lemma settle_AwaitAll {A : Type} (cs : list (Async A)) (k : list A -> Settled A)
      (answers : Provider) (first : nat) :
  settle (AwaitAll cs k) answers first = Promise_all (settle_all cs answers first) k.
Proof.
  cbn [settle]. f_equal. revert first.
  induction cs as [|c cs IH]; intros first; [reflexivity|].
  cbn [settle_all]. f_equal. apply IH.
Qed.

(** The promises of a list of single commands settle one per answer. *)
Lemma settle_all_transmit {A B : Type} (k : Settled Buffer -> Settled A)
      (d : B -> Buffer) (l pr : B -> Z) (xs : list B) (answers : Provider) (first : nat) :
  settle_all ((λ x, AwaitTransmit (d x) (l x) (pr x) k) <$> xs) answers first
  = (λ j, (fst (answers (first + j)%nat),
           k (transmit_callback (snd (answers (first + j)%nat)))))
      <$> seq 0 (length xs).
Proof.
  revert first. induction xs as [|x xs IH]; intros first; [reflexivity|].
  cbn [fmap list_fmap settle_all settle issued length seq].
  rewrite Nat.add_0_r. f_equal.
  rewrite IH. rewrite <- fmap_S_seq, <- list_fmap_compose.
  apply list_fmap_ext. intros _ j _. simpl.
  replace (first + 1 + j)%nat with (first + S j)%nat by lia. reflexivity.
Qed.

Lemma issued_all_transmit {A B : Type} (k : Settled Buffer -> Settled A)
      (d : B -> Buffer) (l pr : B -> Z) (xs : list B) (k' : list A -> Settled A) :
  issued (AwaitAll ((λ x, AwaitTransmit (d x) (l x) (pr x) k) <$> xs) k')
  = (λ x, {| tx_data := d x; tx_responseMaxLength := l x; tx_protocol := pr x |}) <$> xs.
Proof.
  cbn [issued]. induction xs as [|x xs IH]; [reflexivity|].
  simpl. f_equal. exact IH.
Qed.

(** [Promise.all] of promises that are all fulfilled. *)
Lemma Promise_all_fulfilled {A B : Type} (t : B -> nat) (v : B -> A) (xs : list B)
      (k : list A -> Settled A) :
  snd (Promise_all ((λ x, (t x, Fulfilled (v x))) <$> xs) k) = k (v <$> xs).
Proof.
  unfold Promise_all.
  assert (first_rejection ((λ x, (t x, Fulfilled (v x))) <$> xs) = None) as ->.
  { induction xs as [|x xs IH]; [reflexivity | exact IH]. }
  simpl. f_equal. induction xs as [|x xs IH]; [reflexivity|].
  simpl. f_equal. exact IH.
Qed.


(** [Math.ceil(a / b)] for a positive [b] is the least [p] with [a <= p * b]. *)
Lemma Math_ceil_div_spec (a b : Z) :
  0 < b ->
  ∃ p, Math_ceil_div a b = Some p ∧ (p - 1) * b < a <= p * b
       ∧ p = (a + b - 1) / b.
Proof.
  intros Hb. unfold Math_ceil_div.
  destruct (b =? 0) eqn:E; [lia|].
  exists (- (- a / b)). split; [reflexivity|].
  pose proof (Z.div_mod (- a) b ltac:(lia)) as Hdm.
  pose proof (Z.mod_pos_bound (- a) b Hb) as Hm.
  split; [nia|].
  apply Z.div_unique with (r := b - 1 - (- a) mod b); lia.
Qed.

(** The size of a part, as the source computes it, is the smaller of the
    packet size and what is left; it never exceeds the packet size. *)
Lemma part_size_min (i packetSize length : Z) :
  (if (i + 1) * packetSize <? length then packetSize else length - i * packetSize)
  = Z.min packetSize (length - i * packetSize).
Proof.
  destruct ((i + 1) * packetSize <? length) eqn:E; lia.
Qed.

(** One nested call is the most there is: with more fuel the result is
    the same, for every input. *)
Lemma read_fuel (fuel : nat) (r : Reader) (blockNumber : jsnum)
      (length blockSize packetSize readClass : Z) :
  read_ (2 + fuel) r blockNumber length blockSize packetSize readClass
  = read r blockNumber length blockSize packetSize readClass.
Proof.
  unfold read.
  assert (∀ f b size, size <= packetSize ->
            read_ (S f) r b size blockSize packetSize readClass
            = read_ 1 r b size blockSize packetSize readClass) as Hsingle.
  { intros f b size Hsize. simpl. destruct (card r); [|reflexivity].
    destruct (size >? packetSize) eqn:E; [lia | reflexivity]. }
  change (2 + fuel)%nat with (S (S fuel)).
  remember (S fuel) as f1 eqn:Hf1. remember 1%nat as f2 eqn:Hf2.
  cbn [read_]. destruct (card r); [|reflexivity].
  destruct (length >? packetSize); [|reflexivity].
  destruct (Math_ceil_div length packetSize) as [p|]; [|reflexivity].
  cbn [mbind option_bind]. f_equal.
  generalize (seq 0 (Z.to_nat p)). intros l.
  induction l as [|n l IH]; [reflexivity|].
  cbn [mapM]. rewrite IH. f_equal.
  rewrite part_size_min. subst f1 f2. apply Hsingle. lia.
Qed.

Lemma mapM_total {A B : Type} (f : A -> option B) (g : A -> B) (l : list A) :
  (∀ x, x ∈ l -> f x = Some (g x)) -> mapM f l = Some (g <$> l).
Proof.
  induction l as [|x l IH]; intros H; [reflexivity|].
  cbn [mapM]. rewrite (H x) by apply list_elem_of_here.
  rewrite IH by (intros y Hy; apply H; apply list_elem_of_further, Hy).
  reflexivity.
Qed.

(** A call for one part, whatever the state of the connection. *)
Lemma read_part (r : Reader) (c : Card) (b : jsnum)
      (size blockSize packetSize readClass : Z) (fuel : nat) :
  card r = Some c -> size <= packetSize ->
  read_ (S fuel) r b size blockSize packetSize readClass
  = Some match transmit r (read_packet b size readClass) (size + 2) with
         | TransmitThrows err | TransmitRejects err =>
             Soon (Rejected (MkError ReadError None None (Some err)))
         | TransmitIssued d l pr => AwaitTransmit d l pr read_response
         end.
Proof.
  intros Hc Hle. cbn [read_]. rewrite Hc.
  destruct (size >? packetSize) eqn:E; [lia|].
  destruct (transmit r (read_packet b size readClass) (size + 2)); reflexivity.
Qed.

(** A call for more than one packet, one level unfolded. *)
Lemma read_split (r : Reader) (c : Card) (blockNumber : jsnum)
      (length blockSize packetSize readClass : Z) (fuel : nat) :
  card r = Some c -> packetSize < length ->
  read_ (S fuel) r blockNumber length blockSize packetSize readClass
  = match Math_ceil_div length packetSize with
    | None => None
    | Some p =>
        commands ← mapM (λ n : nat,
            read_ fuel r
              (js_add blockNumber (js_div (Z.of_nat n * packetSize) blockSize))
              (if (Z.of_nat n + 1) * packetSize <? length
               then packetSize else length - Z.of_nat n * packetSize)
              blockSize packetSize readClass)
          (seq 0 (Z.to_nat p));
        Some (AwaitAll commands (λ values,
                match Buffer_concat values length with
                | Some b => Fulfilled b
                | None => Rejected (MkError RangeError None None None)
                end))
    end.
Proof.
  intros Hc Hlt. cbn [read_]. rewrite Hc.
  destruct (length >? packetSize) eqn:E; [reflexivity | lia].
Qed.

Lemma round_div_exact (k b : Z) : 0 < b -> round_div (k * b) b = k.
Proof.
  intros Hb. unfold round_div. rewrite Z.div_mul, Z.mod_mul by lia.
  destruct (2 * 0 <? b) eqn:E; [reflexivity | lia].
Qed.

Lemma exponent_integer (z d : Z) :
  0 < z -> 0 < d -> exponent (z * d) d <= Z.log2 z.
Proof.
  intros Hz Hd. unfold exponent.
  assert (0 <= Z.log2 (z * d) - Z.log2 d) as HE
    by (pose proof (Z.log2_le_mono d (z * d)); nia).
  destruct (0 <=? Z.log2 (z * d) - Z.log2 d) eqn:E0; [|lia].
  destruct (d * 2 ^ (Z.log2 (z * d) - Z.log2 d) <=? z * d) eqn:E1.
  - apply Z.log2_le_pow2; [lia|]. apply Z.leb_le in E1.
    pose proof (Z.pow_pos_nonneg 2 (Z.log2 (z * d) - Z.log2 d)). nia.
  - pose proof (Z.log2_mul_above z d). lia.
Qed.

(** An integer of magnitude up to 2^53 is a double: rounding leaves it
    as it is. *)
Lemma to_double_integer (q : Q) (z : Z) :
  (q == inject_Z z)%Q -> Z.abs z <= 2 ^ 53 ->
  ∃ q', to_double q = Fin q' ∧ (q' == inject_Z z)%Q.
Proof.
  intros Hq Hz. unfold Qeq in Hq. cbn [Qnum Qden inject_Z] in Hq.
  assert (Qnum q = z * Zpos (Qden q)) as Hn by lia. clear Hq.
  unfold to_double. rewrite Hn.
  set (d := Zpos (Qden q)) in *. assert (0 < d) as Hd by (unfold d; lia).
  destruct (Z.abs (z * d) =? 0) eqn:E0.
  { exists 0%Q. split; [reflexivity|]. assert (z = 0) as -> by nia. reflexivity. }
  assert (z ≠ 0) as Hz0 by (intros ->; simpl in E0; discriminate).
  assert (Z.abs (z * d) = Z.abs z * d) as Habs by (rewrite Z.abs_mul; lia).
  assert (Z.sgn (z * d) = Z.sgn z) as Hsgn by (rewrite Z.sgn_mul; lia).
  rewrite Habs, Hsgn.
  pose proof (exponent_integer (Z.abs z) d ltac:(lia) Hd) as Hexp.
  assert (Z.log2 (Z.abs z) <= 53) as Hl2.
  { change 53 with (Z.log2 (2 ^ 53)). apply Z.log2_le_mono. exact Hz. }
  remember (Z.max (exponent (Z.abs z * d) d - 52) (-1074)) as e eqn:Hedef.
  assert (-1074 <= e <= 1) as He by lia.
  assert (((971 <? e) || ((e =? 971) && ((if 0 <=? e
             then round_div (Z.abs z * d) (d * 2 ^ e)
             else round_div (Z.abs z * d * 2 ^ (- e)) d) =? 2 ^ 53))) = false) as ->.
  { apply orb_false_iff. split; [apply Z.ltb_ge; lia|].
    apply andb_false_iff. left. apply Z.eqb_neq. lia. }
  eexists. split; [reflexivity|].
  destruct (0 <=? e) eqn:Ee.
  - assert (∃ k, Z.abs z = k * 2 ^ e) as [k Hk].
    { assert (e = 0 ∨ e = 1) as [-> | ->] by lia.
      - exists (Z.abs z). lia.
      - assert (Z.log2 (Z.abs z) = 53) as H53 by lia.
        pose proof (Z.log2_spec (Z.abs z) ltac:(lia)) as [Hlo _].
        rewrite H53 in Hlo. exists (2 ^ 52). lia. }
    rewrite Hk. replace (k * 2 ^ e * d) with (k * (d * 2 ^ e)) by lia.
    rewrite round_div_exact by (pose proof (Z.pow_pos_nonneg 2 e); nia).
    unfold Qeq. cbn [Qnum Qden inject_Z].
    pose proof (Z.sgn_abs z). nia.
  - replace (Z.abs z * d * 2 ^ (- e)) with (Z.abs z * 2 ^ (- e) * d) by lia.
    rewrite round_div_exact by exact Hd.
    unfold Qeq. cbn [Qnum Qden inject_Z].
    rewrite Z2Pos.id by (apply Z.pow_pos_nonneg; lia).
    pose proof (Z.sgn_abs z). nia.
Qed.

Lemma to_integer_Qeq (q : Q) (z : Z) :
  (q == inject_Z z)%Q -> to_integer (Fin q) = z.
Proof.
  intros Hq. unfold Qeq in Hq. cbn [Qnum Qden inject_Z] in Hq.
  unfold to_integer. replace (Qnum q) with (z * Zpos (Qden q)) by lia.
  apply Z.quot_mul. lia.
Qed.

(** The sum of two integers is exact while it stays within 2^53. *)
Lemma js_add_int_exact (a b : Z) :
  Z.abs (a + b) <= 2 ^ 53 -> js_add_int a b = a + b.
Proof.
  intros H. unfold js_add_int, js_add, of_int.
  destruct (to_double_integer (inject_Z a + inject_Z b) (a + b)) as (q & -> & Hq);
    [rewrite inject_Z_plus; reflexivity | exact H |].
  apply to_integer_Qeq. exact Hq.
Qed.







(** The scenario S6 of the spec: [read(0, 32, 4, 16)] sends two
    commands, for 16 bytes at block 0 and 16 bytes at block 4, and returns
    the two payloads in the order of the requests, here with the second
    answer arriving first. *)
Example read_0_32_4_16 :
  let r := with_connection (Some {| conn_type := 2; protocol := 2 |})
             (with_card (Some empty_card)
                (new_Reader {| name := "reader"; state := 0;
                               SCARD_STATE_EMPTY := 16; SCARD_STATE_PRESENT := 32;
                               SCARD_SHARE_DIRECT := 3; SCARD_SHARE_SHARED := 2;
                               SCARD_LEAVE_CARD := 0 |})) in
  let answers : Provider := λ n,
    ((1 - n)%nat, ReplyResponse (replicate 16 (u8 (Z.of_nat n + 1)) ++ [x90; x00])) in
  (issued <$> read r (of_int 0) 32 4 16 0xff)
  = Some [ {| tx_data := [xff; xb0; x00; x00; x10]; tx_responseMaxLength := 18;
              tx_protocol := 2 |};
           {| tx_data := [xff; xb0; x00; x04; x10]; tx_responseMaxLength := 18;
              tx_protocol := 2 |} ]
  ∧ ((λ a, snd (settle a answers 0)) <$> read r (of_int 0) 32 4 16 0xff)
    = Some (Fulfilled (replicate 16 x01 ++ replicate 16 x02)).
Proof. split; reflexivity. Qed.

(** ** C5: write *)

Lemma write_response_ok (body : Buffer) :
  write_response (Fulfilled (body ++ [x90; x00])) = Fulfilled true.
Proof.
  unfold write_response.
  rewrite blen_app_two, slice_status.
  pose proof (blen_nonneg body).
  destruct (blen body + 2 <? 2) eqn:E; [lia | reflexivity].
Qed.

Lemma rem_not_zero_spec (a b : Z) :
  rem_not_zero a b = false ↔ b ≠ 0 ∧ a mod b = 0.
Proof.
  unfold rem_not_zero, js_rem. destruct (b =? 0) eqn:E.
  - split; [discriminate | lia].
  - assert (b ≠ 0) as Hb by lia. split.
    + intros H. split; [exact Hb|].
      destruct (Z.rem a b) eqn:Er; try discriminate.
      apply Z.mod_divide; [exact Hb|]. apply Z.rem_divide; assumption.
    + intros [_ H]. apply Z.mod_divide in H; [|exact Hb].
      apply Z.rem_divide in H; [|exact Hb]. rewrite H. reflexivity.
Qed.

(** The slice of the [n]-th block. *)
Lemma slice_block (data : Buffer) (blockSize : Z) (n : nat) :
  0 < blockSize -> (Z.of_nat n + 1) * blockSize <= blen data ->
  Buffer_slice data (Z.of_nat n * blockSize) (Some ((Z.of_nat n + 1) * blockSize))
  = take (Z.to_nat blockSize) (drop (n * Z.to_nat blockSize) data).
Proof.
  intros Hbs Hle. unfold Buffer_slice, slice_index.
  destruct (Z.of_nat n * blockSize <? 0) eqn:E1; [nia|].
  destruct ((Z.of_nat n + 1) * blockSize <? 0) eqn:E2; [nia|].
  rewrite !Z.min_l by nia. f_equal; [lia|]. f_equal. nia.
Qed.

Lemma block_length (data : Buffer) (blockSize : Z) (n : nat) :
  0 < blockSize -> (Z.of_nat n + 1) * blockSize <= blen data ->
  blen (take (Z.to_nat blockSize) (drop (n * Z.to_nat blockSize) data)) = blockSize.
Proof.
  unfold blen. intros Hbs Hle. rewrite length_take, length_drop. nia.
Qed.

Lemma blocks_concat (b p : nat) (data : Buffer) :
  length data = (p * b)%nat ->
  concat ((λ n, take b (drop (n * b) data)) <$> seq 0 p) = data.
Proof.
  revert data. induction p as [|p IH]; intros data Hlen.
  - destruct data; [reflexivity | discriminate].
  - cbn [seq fmap list_fmap concat]. rewrite <- fmap_S_seq, <- list_fmap_compose.
    transitivity (take b data ++ drop b data); [|apply take_drop].
    f_equal.
    rewrite <- (IH (drop b data)) by (rewrite length_drop; lia).
    f_equal. apply list_fmap_ext. intros _ n _. simpl.
    rewrite drop_drop. reflexivity.
Qed.

(** A call for one block, whatever the state of the connection. *)
Lemma write_block (r : Reader) (c : Card) (blockNumber : Z) (data : Buffer)
      (blockSize : Z) (fuel : nat) :
  card r = Some c -> 0 < blockSize -> blen data = blockSize ->
  write_ (S fuel) r blockNumber data blockSize
  = Some match transmit r (write_packet blockNumber blockSize data) 2 with
         | TransmitThrows err | TransmitRejects err =>
             Soon (Rejected (MkError WriteError None None (Some err)))
         | TransmitIssued d l pr => AwaitTransmit d l pr write_response
         end.
Proof.
  intros Hc Hbs Hlen. cbn [write_]. rewrite Hc, Hlen.
  destruct (blockSize <? blockSize) eqn:E1; [lia|].
  assert (rem_not_zero blockSize blockSize = false) as ->.
  { apply rem_not_zero_spec. split; [lia | apply Z_mod_same_full]. }
  cbn [orb]. destruct (blockSize >? blockSize) eqn:E2; [lia|].
  destruct (transmit r (write_packet blockNumber blockSize data) 2); reflexivity.
Qed.

(** A call for several blocks, one level unfolded. *)
Lemma write_split (r : Reader) (c : Card) (blockNumber : Z) (data : Buffer)
      (blockSize : Z) (fuel : nat) :
  card r = Some c -> blockSize < blen data -> blockSize ≠ 0 ->
  blen data mod blockSize = 0 ->
  write_ (S fuel) r blockNumber data blockSize
  = (commands ← mapM (λ n : nat,
         write_ fuel r (js_add_int blockNumber (Z.of_nat n))
           (Buffer_slice data (Z.of_nat n * blockSize)
              (Some ((Z.of_nat n + 1) * blockSize)))
           blockSize)
       (seq 0 (Z.to_nat (blen data / blockSize)));
     Some (AwaitAll commands (λ _, Fulfilled true))).
Proof.
  intros Hc Hlt Hbs Hmod. cbn [write_]. rewrite Hc.
  destruct (blen data <? blockSize) eqn:E1; [lia|].
  assert (rem_not_zero (blen data) blockSize = false) as ->
    by (apply rem_not_zero_spec; auto).
  cbn [orb]. destruct (blen data >? blockSize) eqn:E2; [reflexivity | lia].
Qed.

(** One nested call is the most there is in [write] as well. *)
Lemma write_fuel (fuel : nat) (r : Reader) (blockNumber : Z) (data : Buffer)
      (blockSize : Z) :
  write_ (2 + fuel) r blockNumber data blockSize = write r blockNumber data blockSize.
Proof.
  unfold write. change (2 + fuel)%nat with (S (S fuel)).
  destruct (card r) as [c|] eqn:Hc; [|cbn [write_]; rewrite Hc; reflexivity].
  destruct ((blen data <? blockSize) || rem_not_zero (blen data) blockSize) eqn:Hchk.
  { cbn [write_]. rewrite Hc, Hchk. reflexivity. }
  apply orb_false_iff in Hchk as [Hlt Hrem].
  apply rem_not_zero_spec in Hrem as [Hbs Hmod].
  destruct (decide (blockSize < blen data)) as [Hgt|Hle].
  - rewrite !(write_split r c) by assumption. f_equal.
    assert (0 < blockSize ∨ blockSize < 0) as [Hpos|Hneg] by lia.
    + assert (blen data = blockSize * (blen data / blockSize)) as Hd
        by (apply Z.div_exact; assumption).
      set (g := λ n : nat,
             match transmit r
                     (write_packet (js_add_int blockNumber (Z.of_nat n)) blockSize
                        (take (Z.to_nat blockSize) (drop (n * Z.to_nat blockSize) data))) 2
             with
             | TransmitThrows err | TransmitRejects err =>
                 Soon (Rejected (MkError WriteError None None (Some err)))
             | TransmitIssued d l pr => AwaitTransmit d l pr write_response
             end).
      rewrite !(mapM_total _ g); [reflexivity| |];
        intros n Hn; apply elem_of_seq in Hn as [_ Hn];
        assert ((Z.of_nat n + 1) * blockSize <= blen data) by nia;
        rewrite slice_block by assumption;
        apply (write_block r c); auto using block_length.
    + assert (blen data / blockSize <= 0) as Hp.
      { pose proof (blen_nonneg data).
        assert (blen data = blockSize * (blen data / blockSize)) as Hd
          by (apply Z.div_exact; assumption).
        nia. }
      replace (Z.to_nat (blen data / blockSize)) with 0%nat by lia. reflexivity.
  - cbn [write_]. rewrite Hc, Hlt.
    assert (rem_not_zero (blen data) blockSize = false) as ->
      by (apply rem_not_zero_spec; auto).
    cbn [orb]. destruct (blen data >? blockSize) eqn:E; [lia | reflexivity].
Qed.

(** C5, as the code has it. With a card present, a write whose data is
    shorter than a block or not a whole number of blocks fails with
    [WriteError] and the code ['invalid_data_length'] before anything is
    sent. For a positive block size, data of more than one block makes
    data.length/blockSize calls of [write]; call i is at the block
    blockNumber + i of the language, which is that integer, and the
    blocks consecutive, while the numbers stay within 2^53; each call
    has its slice of blockSize bytes and is a single Update Binary
    command, sent in this order; when all of them succeed the result is
    [true]. *)
Theorem write_checks_length_then_writes_blocks (r : Reader) (c : Card)
        (blockNumber : Z) (data : Buffer) (blockSize : Z) :
  card r = Some c ->
  ((blen data < blockSize ∨ blen data mod blockSize ≠ 0) ->
     ∃ a, write r blockNumber data blockSize = Some a
       ∧ a = Soon (Rejected (MkError WriteError (Some "invalid_data_length")
                               (Some "Invalid data length. You can only update the entire data block(s).")
                               None))
       ∧ issued a = [])
  ∧ (0 < blockSize -> blockSize < blen data -> blen data mod blockSize = 0 ->
     let part (n : nat) :=
       take (Z.to_nat blockSize) (drop (n * Z.to_nat blockSize) data) in
     ∃ (p : nat) commands k,
       write r blockNumber data blockSize = Some (AwaitAll commands k)
       ∧ List.length commands = p
       ∧ Z.of_nat p = blen data / blockSize
       ∧ (∀ n, (n < p)%nat ->
            commands !! n = write r (js_add_int blockNumber (Z.of_nat n)) (part n) blockSize
            ∧ blen (part n) = blockSize)
       ∧ (∀ n, Z.abs (blockNumber + Z.of_nat n) <= 2 ^ 53 ->
            js_add_int blockNumber (Z.of_nat n) = blockNumber + Z.of_nat n)
       ∧ concat (part <$> seq 0 p) = data
       ∧ (∀ conn, connection r = Some conn ->
            issued (AwaitAll commands k)
            = (λ n, {| tx_data := write_packet (js_add_int blockNumber (Z.of_nat n)) blockSize (part n);
                       tx_responseMaxLength := 2;
                       tx_protocol := protocol conn |}) <$> seq 0 p
            ∧ ∀ (answers : Provider) (first : nat),
                (∀ n, (n < p)%nat ->
                   ∃ body, snd (answers (first + n)%nat)
                           = ReplyResponse (body ++ [x90; x00])) ->
                snd (settle (AwaitAll commands k) answers first) = Fulfilled true)).
Proof.
  intros Hc. split.
  { intros Hbad. unfold write. cbn [write_]. rewrite Hc.
    assert ((blen data <? blockSize) || rem_not_zero (blen data) blockSize = true) as ->.
    { destruct Hbad as [Hlt|Hmod].
      - apply orb_true_iff. left. lia.
      - apply orb_true_iff. right.
        destruct (rem_not_zero (blen data) blockSize) eqn:E; [reflexivity|].
        apply rem_not_zero_spec in E as [_ E]. contradiction. }
    eexists. split; [reflexivity|]. split; reflexivity. }
  intros Hbs Hlt Hmod part.
  assert (blen data = blockSize * (blen data / blockSize)) as Hd
    by (apply Z.div_exact; lia).
  set (pz := blen data / blockSize) in *.
  assert (0 < pz) as Hpz by nia.
  set (g := λ n : nat,
         match transmit r (write_packet (js_add_int blockNumber (Z.of_nat n)) blockSize (part n)) 2 with
         | TransmitThrows err | TransmitRejects err =>
             Soon (Rejected (MkError WriteError None None (Some err)))
         | TransmitIssued d l pr => AwaitTransmit d l pr write_response
         end).
  assert (∀ n, (n < Z.to_nat pz)%nat -> (Z.of_nat n + 1) * blockSize <= blen data)
    as Hin by (intros n Hn; nia).
  assert (∀ n fuel, (n < Z.to_nat pz)%nat ->
            write_ (S fuel) r (js_add_int blockNumber (Z.of_nat n)) (part n) blockSize = Some (g n))
    as Hpart.
  { intros n fuel Hn.
    apply (write_block r c); [exact Hc | exact Hbs | apply block_length; auto]. }
  exists (Z.to_nat pz), (g <$> seq 0 (Z.to_nat pz)). eexists.
  split.
  { unfold write. rewrite (write_split r c) by (auto; lia).
    fold pz. rewrite (mapM_total _ g); [reflexivity|].
    intros n Hn. apply elem_of_seq in Hn as [_ Hn]. simpl in Hn.
    rewrite slice_block by auto. apply Hpart. exact Hn. }
  split; [rewrite length_fmap, length_seq; reflexivity|].
  split; [lia|]. split.
  { intros n Hn. split.
    - rewrite list_lookup_fmap, lookup_seq_lt by exact Hn. simpl.
      unfold write. symmetry. apply Hpart. exact Hn.
    - apply block_length; auto. }
  split; [intros n Hn; apply js_add_int_exact; exact Hn|].
  split.
  { apply blocks_concat. unfold blen in Hd. nia. }
  intros conn Hconn.
  assert (g = λ n, AwaitTransmit
                     (write_packet (js_add_int blockNumber (Z.of_nat n)) blockSize (part n))
                     2 (protocol conn) write_response) as ->.
  { unfold g, transmit. rewrite Hc, Hconn. reflexivity. }
  split.
  { apply (issued_all_transmit write_response
             (λ n, write_packet (js_add_int blockNumber (Z.of_nat n)) blockSize (part n))
             (λ _, 2) (λ _, protocol conn)). }
  intros answers first Hans.
  rewrite settle_AwaitAll.
  rewrite (settle_all_transmit write_response
             (λ n, write_packet (js_add_int blockNumber (Z.of_nat n)) blockSize (part n))
             (λ _, 2) (λ _, protocol conn)).
  rewrite length_seq.
  assert ((λ j : nat, (fst (answers (first + j)%nat),
             write_response (transmit_callback (snd (answers (first + j)%nat)))))
            <$> seq 0 (Z.to_nat pz)
          = (λ j : nat, (fst (answers (first + j)%nat), Fulfilled true))
              <$> seq 0 (Z.to_nat pz)) as ->.
  { apply list_fmap_ext. intros i j Hj. f_equal.
    apply lookup_seq in Hj as [-> Hj].
    destruct (Hans i Hj) as [body Hb]. simpl. rewrite Hb.
    cbn [transmit_callback]. apply write_response_ok. }
  rewrite (Promise_all_fulfilled (λ j, fst (answers (first + j)%nat)) (λ _, true)).
  reflexivity.
Qed.

Lemma write_checks_length_then_writes_blocks_witness :
  let r := with_connection (Some {| conn_type := 2; protocol := 2 |})
             (with_card (Some empty_card)
                (new_Reader {| name := "reader"; state := 0;
                               SCARD_STATE_EMPTY := 16; SCARD_STATE_PRESENT := 32;
                               SCARD_SHARE_DIRECT := 3; SCARD_SHARE_SHARED := 2;
                               SCARD_LEAVE_CARD := 0 |})) in
  let data := [x01; x02; x03; x04; x05; x06; x07; x08] in
  ∃ (p : nat) commands k,
    write r 0 data 4 = Some (AwaitAll commands k)
    ∧ List.length commands = p
    ∧ Z.of_nat p = blen data / 4.
Proof.
  intros r data.
  destruct (proj2 (write_checks_length_then_writes_blocks r empty_card 0 data 4 eq_refl)
              ltac:(lia) ltac:(unfold blen; simpl; lia) eq_refl)
    as (p & commands & k & H1 & H2 & H3 & _).
  exists p, commands, k. auto.
Defined.

(** C5 as stated fails, at two inputs. With the block size -4 and eight
    bytes of data, [write(4, data, -4)] passes the check of the length
    (8 is not below -4, and 8 % -4 is 0), has data.length / blockSize =
    -2, makes no call, sends nothing and returns [true]. At block 2^53,
    [write(2^53, data, 4)] gives its second part the block 2^53 again,
    because 2^53 + 1 is no number of the language: both commands carry
    the block byte 00. *)
Lemma write_split_departs_from_claim :
  let r := with_connection (Some {| conn_type := 2; protocol := 2 |})
             (with_card (Some empty_card)
                (new_Reader {| name := "reader"; state := 0;
                               SCARD_STATE_EMPTY := 16; SCARD_STATE_PRESENT := 32;
                               SCARD_SHARE_DIRECT := 3; SCARD_SHARE_SHARED := 2;
                               SCARD_LEAVE_CARD := 0 |})) in
  let data := [x01; x02; x03; x04; x05; x06; x07; x08] in
  let answers : Provider := λ n, (n, ReplyResponse [x90; x00]) in
  (blen data / (-4) = -2
   ∧ (issued <$> write r 4 data (-4)) = Some []
   ∧ ((λ a, snd (settle a answers 0)) <$> write r 4 data (-4)) = Some (Fulfilled true))
  ∧ js_add_int (2 ^ 53) 1 = 2 ^ 53
  ∧ (tx_data <$> default [] (issued <$> write r (2 ^ 53) data 4))
    = [ [xff; xd6; x00; x00; x04; x01; x02; x03; x04];
        [xff; xd6; x00; x00; x04; x05; x06; x07; x08] ].
Proof.
  cbv zeta.
  split; [split; [reflexivity|split; vm_compute; reflexivity]|].
  split; vm_compute; reflexivity.
Qed.

(** The scenario S7 of the spec: [write(0, data, 4)] with eight bytes
    sends two Update Binary commands, at blocks 0 and 1, with four bytes
    each, and returns [true]. *)
Example write_0_8_4 :
  let r := with_connection (Some {| conn_type := 2; protocol := 2 |})
             (with_card (Some empty_card)
                (new_Reader {| name := "reader"; state := 0;
                               SCARD_STATE_EMPTY := 16; SCARD_STATE_PRESENT := 32;
                               SCARD_SHARE_DIRECT := 3; SCARD_SHARE_SHARED := 2;
                               SCARD_LEAVE_CARD := 0 |})) in
  let data := [x01; x02; x03; x04; x05; x06; x07; x08] in
  (issued <$> write r 0 data 4)
  = Some [ {| tx_data := [xff; xd6; x00; x00; x04; x01; x02; x03; x04];
              tx_responseMaxLength := 2; tx_protocol := 2 |};
           {| tx_data := [xff; xd6; x00; x01; x04; x05; x06; x07; x08];
              tx_responseMaxLength := 2; tx_protocol := 2 |} ]
  ∧ ((λ a, snd (settle a (λ n, (n, ReplyResponse [x90; x00])) 0)) <$> write r 0 data 4)
    = Some (Fulfilled true).
Proof. split; reflexivity. Qed.

(** ** Termination of the block engine *)

(** X1. [read] returns for every input but one kind: with a card present, a
    packet size of 0 and a positive length, the loop of line 552 runs
    without end. *)
Theorem read_returns (r : Reader) (blockNumber : jsnum)
        (length blockSize packetSize readClass : Z) :
  read r blockNumber length blockSize packetSize readClass = None
  ↔ card r ≠ None ∧ packetSize = 0 ∧ 0 < length.
Proof.
  unfold read. destruct (card r) as [c|] eqn:Hc.
  2:{ cbn [read_]. rewrite Hc. split; [discriminate | intros [H _]; congruence]. }
  destruct (decide (packetSize < length)) as [Hlt|Hge].
  - rewrite (read_split r c) by assumption. unfold Math_ceil_div.
    destruct (packetSize =? 0) eqn:E.
    + split; [intros _; repeat split; [congruence | lia | lia] | reflexivity].
    + rewrite (mapM_total _ (λ n : nat,
          match transmit r
                  (read_packet
                     (js_add blockNumber (js_div (Z.of_nat n * packetSize) blockSize))
                     (Z.min packetSize (length - Z.of_nat n * packetSize)) readClass)
                  (Z.min packetSize (length - Z.of_nat n * packetSize) + 2)
          with
          | TransmitThrows err | TransmitRejects err =>
              Soon (Rejected (MkError ReadError None None (Some err)))
          | TransmitIssued d l pr => AwaitTransmit d l pr read_response
          end)).
      * split; [discriminate | lia].
      * intros n _. cbn beta zeta. rewrite part_size_min.
        apply (read_part r c); [exact Hc | lia].
  - rewrite (read_part r c) by (auto; lia). split; [discriminate | lia].
Qed.

(** X2. [write] returns for every input. *)
Theorem write_returns (r : Reader) (blockNumber : Z) (data : Buffer) (blockSize : Z) :
  write r blockNumber data blockSize ≠ None.
Proof.
  unfold write. destruct (card r) as [c|] eqn:Hc;
    [|cbn [write_]; rewrite Hc; discriminate].
  destruct ((blen data <? blockSize) || rem_not_zero (blen data) blockSize) eqn:Hchk.
  { cbn [write_]. rewrite Hc, Hchk. discriminate. }
  apply orb_false_iff in Hchk as [Hlt Hrem].
  pose proof Hrem as Hrem'.
  apply rem_not_zero_spec in Hrem as [Hbs Hmod].
  destruct (decide (blockSize < blen data)) as [Hgt|Hle].
  - rewrite (write_split r c) by assumption.
    assert (blen data = blockSize * (blen data / blockSize)) as Hd
      by (apply Z.div_exact; assumption).
    assert (0 < blockSize ∨ blockSize < 0) as [Hpos|Hneg] by lia.
    + rewrite (mapM_total _ (λ n : nat,
          match transmit r
                  (write_packet (js_add_int blockNumber (Z.of_nat n)) blockSize
                     (take (Z.to_nat blockSize) (drop (n * Z.to_nat blockSize) data))) 2
          with
          | TransmitThrows err | TransmitRejects err =>
              Soon (Rejected (MkError WriteError None None (Some err)))
          | TransmitIssued d l pr => AwaitTransmit d l pr write_response
          end)); [discriminate|].
      intros n Hn. apply elem_of_seq in Hn as [_ Hn].
      assert ((Z.of_nat n + 1) * blockSize <= blen data) by nia.
      rewrite slice_block by assumption.
      apply (write_block r c); auto using block_length.
    + pose proof (blen_nonneg data).
      replace (Z.to_nat (blen data / blockSize)) with 0%nat by nia. discriminate.
  - cbn [write_]. rewrite Hc, Hlt, Hrem'. cbn [orb].
    destruct (blen data >? blockSize) eqn:E; [lia|].
    destruct (transmit r (write_packet blockNumber blockSize data) 2); discriminate.
Qed.

(** ** The event loop: what each operation leaves alone *)

Lemma status_of_lt (m : Loop) (t : TaskId) (st : TaskState) :
  status_of m t = Some st -> (t < length (tasks m))%nat.
Proof.
  unfold status_of. intros H.
  destruct (tasks m !! t) as [x|] eqn:E; [|discriminate].
  eapply lookup_lt_Some. exact E.
Qed.

Lemma status_of_set_status_ne (m : Loop) (t t' : TaskId) (st : TaskState) :
  t ≠ t' -> status_of (set_status t st m) t' = status_of m t'.
Proof.
  intros Hne. unfold status_of, set_status. simpl.
  rewrite list_lookup_alter_ne by exact Hne. reflexivity.
Qed.

Lemma status_of_set_status_eq (m : Loop) (t : TaskId) (st : TaskState) :
  (t < length (tasks m))%nat -> status_of (set_status t st m) t = Some st.
Proof.
  intros Hlt. unfold status_of, set_status. simpl.
  rewrite list_lookup_alter_eq.
  destruct (lookup_lt_is_Some_2 _ _ Hlt) as [x ->]. reflexivity.
Qed.

Lemma status_of_finish_ne (m : Loop) (t t' : TaskId) (s : Settled Value) :
  t ≠ t' -> status_of (finish t s m) t' = status_of m t'.
Proof.
  intros Hne. unfold finish. exact (status_of_set_status_ne m t t' _ Hne).
Qed.

Lemma status_of_finish_eq (m : Loop) (t : TaskId) (s : Settled Value) :
  (t < length (tasks m))%nat -> status_of (finish t s m) t = Some (Done s).
Proof.
  intros Hlt. unfold finish. exact (status_of_set_status_eq m t _ Hlt).
Qed.

Lemma this_finish (m : Loop) (t : TaskId) (s : Settled Value) :
  this (finish t s m) = this m.
Proof. reflexivity. Qed.

Lemma status_of_await_transmit_ne (m : Loop) (t t' : TaskId) (f : Frame)
      (call : TransmitCall) (wrap : Error -> Error) :
  t ≠ t' -> status_of (await_transmit t f call wrap m) t' = status_of m t'.
Proof.
  intros Hne. destruct call; simpl.
  - apply status_of_finish_ne. exact Hne.
  - exact (status_of_set_status_ne m t t' _ Hne).
  - exact (status_of_set_status_ne m t t' _ Hne).
Qed.

Lemma this_await_transmit (m : Loop) (t : TaskId) (f : Frame)
      (call : TransmitCall) (wrap : Error -> Error) :
  this (await_transmit t f call wrap m) = this m.
Proof. destruct call; reflexivity. Qed.

Lemma lookup_alter_status (f : Task -> Task) (l : list Task) (t t' : TaskId) :
  (∀ x, status (f x) = status x) ->
  status <$> (alter f t l !! t') = status <$> (l !! t').
Proof.
  intros Hf. rewrite <- !list_lookup_fmap. f_equal.
  revert t. induction l as [|x l IH]; intros [|t]; simpl; try reflexivity.
  - f_equal. apply Hf.
  - f_equal. apply IH.
Qed.

Lemma status_of_await_promise_ne (m : Loop) (t t' p : TaskId) (f : Frame) :
  t ≠ t' -> status_of (await_promise t f p m) t' = status_of m t'.
Proof.
  intros Hne. unfold await_promise.
  destruct (status <$> tasks (set_status t (Suspended f) m) !! p) as [[| |s]|];
    try exact (status_of_set_status_ne m t t' _ Hne).
  all: unfold status_of; cbn [tasks set_tasks];
    rewrite lookup_alter_status by reflexivity;
    exact (status_of_set_status_ne m t t' _ Hne).
Qed.

Lemma status_of_await_promise_eq (m : Loop) (t p : TaskId) (f : Frame) :
  (t < length (tasks m))%nat ->
  status_of (await_promise t f p m) t = Some (Suspended f).
Proof.
  intros Hlt. unfold await_promise.
  destruct (status <$> tasks (set_status t (Suspended f) m) !! p) as [[| |s]|];
    try exact (status_of_set_status_eq m t _ Hlt).
  all: unfold status_of; cbn [tasks set_tasks];
    rewrite lookup_alter_status by reflexivity;
    exact (status_of_set_status_eq m t _ Hlt).
Qed.

Lemma this_await_promise (m : Loop) (t p : TaskId) (f : Frame) :
  this (await_promise t f p m) = this m.
Proof.
  unfold await_promise.
  destruct (status <$> tasks (set_status t (Suspended f) m) !! p) as [[| |s]|];
    reflexivity.
Qed.

(** [await] of a value that is no promise. *)
Lemma status_of_await_value_ne (m : Loop) (t t' : TaskId) (f : Frame) (v : Value) :
  t ≠ t' -> status_of (await_value t f v m) t' = status_of m t'.
Proof. intros Hne. apply (status_of_set_status_ne m t t' (Suspended f) Hne). Qed.

Lemma status_of_await_value_eq (m : Loop) (t : TaskId) (f : Frame) (v : Value) :
  (t < length (tasks m))%nat ->
  status_of (await_value t f v m) t = Some (Suspended f).
Proof. intros Hlt. apply (status_of_set_status_eq m t (Suspended f) Hlt). Qed.

Lemma this_await_value (m : Loop) (t : TaskId) (f : Frame) (v : Value) :
  this (await_value t f v m) = this m.
Proof. reflexivity. Qed.

(** The three answers of the read of the table. *)
Lemma get_pending_cases (r : Reader) (key : string) :
  (get_pending r key = Undefined
   ↔ pendingLoadAuthenticationKey r !! key = None ∧ key ∉ Object_prototype_names)
  ∧ (get_pending r key = Inherited
     ↔ pendingLoadAuthenticationKey r !! key = None ∧ key ∈ Object_prototype_names)
  ∧ (∀ p, get_pending r key = OwnValue p
          ↔ pendingLoadAuthenticationKey r !! key = Some p).
Proof.
  unfold get_pending.
  destruct (pendingLoadAuthenticationKey r !! key) as [p|].
  - split; [|split].
    + split; [discriminate | intros [H _]; discriminate].
    + split; [discriminate | intros [H _]; discriminate].
    + intros p'. split; congruence.
  - destruct (bool_decide (key ∈ Object_prototype_names)) eqn:E.
    + apply bool_decide_eq_true in E. split; [|split].
      * split; [discriminate | intros [_ H]; contradiction].
      * split; auto.
      * intros p'. split; discriminate.
    + apply bool_decide_eq_false in E. split; [|split].
      * split; auto.
      * split; [discriminate | intros [_ H]; contradiction].
      * intros p'. split; discriminate.
Qed.

Lemma status_of_alloc (m : Loop) (i : Invocation) (c : option TaskId)
      (t' : TaskId) (st : TaskState) :
  status_of m t' = Some st -> status_of (snd (alloc i c m)) t' = Some st.
Proof.
  intros H. pose proof (status_of_lt _ _ _ H) as Hlt.
  unfold status_of, alloc in *. simpl. rewrite lookup_app_l by exact Hlt. exact H.
Qed.

Lemma length_tasks_alloc (m : Loop) (i : Invocation) (c : option TaskId) :
  length (tasks (snd (alloc i c m))) = S (length (tasks m)).
Proof. unfold alloc. simpl. rewrite length_app. simpl. lia. Qed.

(** A call of [loadAuthenticationKey] leaves the fields of the reader and
    the tasks that exist alone. *)
Lemma this_loadAuthenticationKey (m : Loop) (c : option TaskId) (k : Z) (key : KeyArg) :
  this (snd (loadAuthenticationKey c k key m)) = this m.
Proof.
  unfold loadAuthenticationKey. simpl.
  repeat match goal with
         | |- context [if ?b then _ else _] => destruct b
         | |- context [match normalize_key ?x with _ => _ end] => destruct (normalize_key x)
         end;
    rewrite ?this_finish, ?this_await_transmit; reflexivity.
Qed.

Lemma status_of_loadAuthenticationKey (m : Loop) (c : option TaskId) (k : Z)
      (key : KeyArg) (t' : TaskId) (st : TaskState) :
  status_of m t' = Some st ->
  status_of (snd (loadAuthenticationKey c k key m)) t' = Some st.
Proof.
  intros H. pose proof (status_of_lt _ _ _ H) as Hlt.
  apply (status_of_alloc m (LoadAuthenticationKey k key) c) in H.
  unfold loadAuthenticationKey.
  destruct (alloc (LoadAuthenticationKey k key) c m) as [t m1] eqn:Ha.
  assert (t = length (tasks m)) as -> by (unfold alloc in Ha; congruence).
  simpl in H |- *.
  repeat match goal with
         | |- context [if ?b then _ else _] => destruct b
         | |- context [match normalize_key ?x with _ => _ end] => destruct (normalize_key x)
         end;
    rewrite ?status_of_finish_ne, ?status_of_await_transmit_ne by lia; exact H.
Qed.

Lemma length_tasks_set_status (m : Loop) (t : TaskId) (st : TaskState) :
  length (tasks (set_status t st m)) = length (tasks m).
Proof. unfold set_status. simpl. apply length_alter. Qed.

Lemma length_tasks_finish (m : Loop) (t : TaskId) (s : Settled Value) :
  length (tasks (finish t s m)) = length (tasks m).
Proof. unfold finish. simpl. apply length_alter. Qed.

Lemma length_tasks_await_transmit (m : Loop) (t : TaskId) (f : Frame)
      (call : TransmitCall) (wrap : Error -> Error) :
  length (tasks (await_transmit t f call wrap m)) = length (tasks m).
Proof. destruct call; simpl; apply length_alter. Qed.

Lemma length_tasks_loadAuthenticationKey (m : Loop) (c : option TaskId) (k : Z)
      (key : KeyArg) :
  fst (loadAuthenticationKey c k key m) = length (tasks m)
  ∧ length (tasks (snd (loadAuthenticationKey c k key m))) = S (length (tasks m)).
Proof.
  unfold loadAuthenticationKey. simpl. split; [reflexivity|].
  repeat match goal with
         | |- context [if ?b then _ else _] => destruct b
         | |- context [match normalize_key ?x with _ => _ end] => destruct (normalize_key x)
         end;
    rewrite ?length_tasks_finish, ?length_tasks_await_transmit;
    simpl; rewrite length_app; simpl; lia.
Qed.

(** The job of a task that waited for a load: the entry is gone. *)
Lemma resume_deletes_entry (m : Loop) (t : TaskId) (b kt : Z) (key : string)
      (o : bool) (s : Settled Value) :
  status_of m t = Some (Suspended (AuthenticateAwaitsLoad b kt key o)) ->
  pendingLoadAuthenticationKey (this (resume t (FromPromise s) m))
  = delete key (pendingLoadAuthenticationKey (this m)).
Proof.
  intros Hst. unfold resume. fold (status_of m t). rewrite Hst.
  unfold authenticate_after_load, authenticate_transmit.
  destruct s; rewrite ?this_finish, ?this_await_transmit; reflexivity.
Qed.

(** ** C1: the table of loads in flight *)

Lemma fmap_alter_same {B : Type} (g : Task -> B) (f : Task -> Task)
      (t : TaskId) (l : list Task) :
  (∀ x, g (f x) = g x) -> g <$> alter f t l = g <$> l.
Proof.
  intros Hf. revert t. induction l as [|x l IH]; intros [|t]; simpl; try reflexivity.
  - f_equal. apply Hf.
  - f_equal. apply IH.
Qed.

Lemma calls_finish (m : Loop) (t : TaskId) (s : Settled Value) :
  call_of <$> tasks (finish t s m) = call_of <$> tasks m.
Proof. unfold finish. simpl. apply fmap_alter_same. reflexivity. Qed.

Lemma calls_await_transmit (m : Loop) (t : TaskId) (f : Frame)
      (call : TransmitCall) (wrap : Error -> Error) :
  call_of <$> tasks (await_transmit t f call wrap m) = call_of <$> tasks m.
Proof. destruct call; simpl; apply fmap_alter_same; reflexivity. Qed.

Lemma calls_await_promise (m : Loop) (t p : TaskId) (f : Frame) :
  call_of <$> tasks (await_promise t f p m) = call_of <$> tasks m.
Proof.
  unfold await_promise.
  destruct (status <$> tasks (set_status t (Suspended f) m) !! p) as [[| |s]|];
    simpl; rewrite ?fmap_alter_same by reflexivity; reflexivity.
Qed.

Lemma calls_loadAuthenticationKey (m : Loop) (c : option TaskId) (k : Z) (key : KeyArg) :
  call_of <$> tasks (snd (loadAuthenticationKey c k key m))
  = (call_of <$> tasks m) ++ [(LoadAuthenticationKey k key, c)].
Proof.
  unfold loadAuthenticationKey. simpl.
  repeat match goal with
         | |- context [if ?b then _ else _] => destruct b
         | |- context [match normalize_key ?x with _ => _ end] => destruct (normalize_key x)
         end;
    rewrite ?calls_finish, ?calls_await_transmit; simpl; rewrite fmap_app; reflexivity.
Qed.

Lemma sent_await_promise (m : Loop) (t p : TaskId) (f : Frame) :
  sent (await_promise t f p m) = sent m.
Proof.
  unfold await_promise.
  destruct (status <$> tasks (set_status t (Suspended f) m) !! p) as [[| |s]|];
    reflexivity.
Qed.



(** A call of [authenticate] for a key that is in no slot and has no
    entry: the call starts the load, records its promise under the key,
    and waits for it. *)
Lemma authenticate_initiates (m : Loop) (b kt : Z) (key : string) (o : bool) :
  findKeyNumber (this m) (Some key) = None ->
  get_pending (this m) key = Undefined ->
  let t := length (tasks m) in
  let m' := snd (authenticate b kt key o m) in
  fst (authenticate b kt key o m) = t
  ∧ pendingLoadAuthenticationKey (this m')
    = <[key := S t]> (pendingLoadAuthenticationKey (this m))
  ∧ call_of <$> tasks m'
    = (call_of <$> tasks m)
        ++ [ (Authenticate b kt key o, None);
             (LoadAuthenticationKey (target_keyNumber (this m)) (KeyString key), Some t) ]
  ∧ status_of m' t = Some (Suspended (AuthenticateAwaitsLoad b kt key o))
  ∧ sent m'
    = sent (snd (loadAuthenticationKey (Some t) (target_keyNumber (this m))
                   (KeyString key) (snd (alloc (Authenticate b kt key o) None m)))).
Proof.
  intros Hfind Hpend t m'. subst t m'. unfold authenticate.
  destruct (alloc (Authenticate b kt key o) None m) as [t m1] eqn:Ha.
  assert (t = length (tasks m) ∧ this m1 = this m
          ∧ tasks m1 = tasks m ++ [{| invoked := Authenticate b kt key o;
                                      caller := None; status := Running;
                                      reactions := [] |}]) as (-> & Hthis & Htasks).
  { unfold alloc in Ha. inversion Ha; subst. auto. }
  cbn [fst snd]. rewrite Hthis, Hfind, Hpend.
  pose proof (this_loadAuthenticationKey m1 (Some (length (tasks m)))
                (target_keyNumber (this m)) (KeyString key)) as Hthis2.
  pose proof (length_tasks_loadAuthenticationKey m1 (Some (length (tasks m)))
                (target_keyNumber (this m)) (KeyString key)) as [Hp Hlen2].
  pose proof (calls_loadAuthenticationKey m1 (Some (length (tasks m)))
                (target_keyNumber (this m)) (KeyString key)) as Hcalls.
  destruct (loadAuthenticationKey (Some (length (tasks m)))
              (target_keyNumber (this m)) (KeyString key) m1) as [p m2] eqn:Hl.
  cbn [fst snd] in Hthis2, Hlen2, Hp, Hcalls. cbv beta iota zeta.
  assert (length (tasks m1) = S (length (tasks m))) as Hlen1
    by (rewrite Htasks, length_app; simpl; lia).
  split; [reflexivity|]. split; [|split; [|split]].
  - rewrite this_await_promise. cbn [this set_pending set_this
      pendingLoadAuthenticationKey with_pending].
    rewrite Hthis2, Hthis, Hp, Hlen1. reflexivity.
  - rewrite calls_await_promise. cbn [tasks set_pending set_this].
    rewrite Hcalls, Htasks, fmap_app, <- app_assoc. reflexivity.
  - apply status_of_await_promise_eq. cbn [tasks set_pending set_this]. lia.
  - rewrite sent_await_promise. reflexivity.
Qed.

(** The scenario S5 of the spec: two calls of [authenticate] for one key,
    made in the same turn on a reader with a card and a connection, share
    one load. The provider is handed exactly one Load Authentication Keys
    packet, then one Authenticate packet per call; both calls return
    [true] and the table of loads is empty at the end. *)
Example authenticate_shares_one_load :
  ∃ m,
    exec [ ReaderChanges (Some empty_card) (Some {| conn_type := 2; protocol := 2 |});
           Macrotask [ CallAuthenticate 4 KEY_TYPE_A "FFFFFFFFFFFF" false;
                       CallAuthenticate 5 KEY_TYPE_A "FFFFFFFFFFFF" false ];
           ProviderAnswers 0 (ReplyResponse [x90; x00]);
           Microtask; Microtask; Microtask;
           ProviderAnswers 1 (ReplyResponse [x90; x00]); Microtask;
           ProviderAnswers 2 (ReplyResponse [x90; x00]); Microtask ]
         (boot (new_Reader acr1252))
    = Some m
    ∧ tx_data <$> (packet <$> sent m)
      = [ [xff; x82; x00; x00; x06; xff; xff; xff; xff; xff; xff];
          [xff; x86; x00; x00; x05; x01; x00; x04; x60; x00];
          [xff; x86; x00; x00; x05; x01; x00; x05; x60; x00] ]
    ∧ call_of <$> tasks m
      = [ (Authenticate 4 KEY_TYPE_A "FFFFFFFFFFFF" false, None);
          (LoadAuthenticationKey 0 (KeyString "FFFFFFFFFFFF"), Some 0%nat);
          (Authenticate 5 KEY_TYPE_A "FFFFFFFFFFFF" false, None) ]
    ∧ status <$> tasks m
      = [ Done (Fulfilled (VBoolean true)); Done (Fulfilled (VNumber 0));
          Done (Fulfilled (VBoolean true)) ]
    ∧ pendingLoadAuthenticationKey (this m) = ∅
    ∧ jobs m = [].
Proof.
  eexists. split; [vm_compute; reflexivity|].
  repeat split; reflexivity.
Qed.

(** After the run [three_calls], the job at the head of the queue is that
    of call B (task 2), which waited for the first load (task 1). The
    entry of the key is the second load (task 4), started by call D
    (task 3) and still in flight. The job of B deletes it. *)
Lemma awaiter_deletes_entry_of_a_load_in_flight :
  ∃ m input q,
    exec three_calls (boot (new_Reader acr1252)) = Some m
    ∧ jobs m = Resume 2 input :: q
    ∧ initiator m 1 = Some 0%nat
    ∧ pendingLoadAuthenticationKey (this m) !! "FFFFFFFFFFFF" = Some 4%nat
    ∧ initiator m 4 = Some 3%nat
    ∧ (∃ k kv, status_of m 4 = Some (Suspended (LoadAwaitsTransmit k kv)))
    ∧ pendingLoadAuthenticationKey
        (this (run_job (Resume 2 input) (set_jobs q m))) !! "FFFFFFFFFFFF" = None.
Proof.
  eexists. eexists. eexists.
  split; [vm_compute; reflexivity|].
  split; [reflexivity|].
  split; [reflexivity|].
  split; [vm_compute; reflexivity|].
  split; [reflexivity|].
  split; [eexists; eexists; reflexivity|].
  vm_compute. reflexivity.
Qed.

(** So it is not only the call that started a load that removes its
    entry. *)
Lemma removal_not_only_by_initiator : ¬ removed_only_by_initiator acr1252.
Proof.
  intros Hclaim.
  destruct awaiter_deletes_entry_of_a_load_in_flight
    as (m & input & q & Hexec & Hjobs & _ & Hp & Hinit & _ & Hgone).
  pose proof (Hclaim m 2%nat input q "FFFFFFFFFFFF" 4%nat
                (ex_intro _ three_calls Hexec) Hjobs Hp Hgone) as H.
  rewrite Hinit in H. discriminate.
Qed.

(** C1. The [finally] block of [authenticate] (lines 480-484) runs in
    every call that waited for a load, and deletes whatever entry the
    key has by then; its comment takes that entry to be the promise the
    call waited for, "already resolved or rejected at this point". In
    the run [three_calls] it is not. Call B (task 2) waited for the
    first load (task 1, started by call A). When the job of B runs, the
    entry of the key is the second load (task 4), started by call D
    (task 3) and still waiting for [transmit]. The job of B deletes that
    entry, and the second load goes on waiting. A further call of
    [authenticate] for the key then finds no entry and starts a third
    load (task 6) beside the second. So an entry is removed by a call
    that did not start its load, and two loads of one key are in flight
    at once. *)
Theorem finally_deletes_entry_of_load_in_flight :
  ∃ m input q,
    exec three_calls (boot (new_Reader acr1252)) = Some m
    ∧ jobs m = Resume 2 input :: q
    ∧ call_of <$> tasks m
      = [ (Authenticate 4 KEY_TYPE_A "FFFFFFFFFFFF" false, None);
          (LoadAuthenticationKey 0 (KeyString "FFFFFFFFFFFF"), Some 0%nat);
          (Authenticate 5 KEY_TYPE_A "FFFFFFFFFFFF" false, None);
          (Authenticate 6 KEY_TYPE_A "FFFFFFFFFFFF" false, None);
          (LoadAuthenticationKey 0 (KeyString "FFFFFFFFFFFF"), Some 3%nat) ]
    ∧ status_of m 2 = Some (Suspended (AuthenticateAwaitsLoad 5 KEY_TYPE_A "FFFFFFFFFFFF" false))
    ∧ pendingLoadAuthenticationKey (this m) !! "FFFFFFFFFFFF" = Some 4%nat
    ∧ (∃ k kv, status_of m 4 = Some (Suspended (LoadAwaitsTransmit k kv)))
    ∧ (let m' := run_job (Resume 2 input) (set_jobs q m) in
       pendingLoadAuthenticationKey (this m') !! "FFFFFFFFFFFF" = None
       ∧ (∃ k kv, status_of m' 4 = Some (Suspended (LoadAwaitsTransmit k kv)))
       ∧ call_of <$> tasks (snd (authenticate 7 KEY_TYPE_A "FFFFFFFFFFFF" false m'))
         = (call_of <$> tasks m')
           ++ [ (Authenticate 7 KEY_TYPE_A "FFFFFFFFFFFF" false, None);
                (LoadAuthenticationKey 0 (KeyString "FFFFFFFFFFFF"), Some 5%nat) ])
    ∧ ¬ removed_only_by_initiator acr1252.
Proof.
  eexists. eexists. eexists.
  split; [vm_compute; reflexivity|].
  split; [reflexivity|].
  split; [reflexivity|].
  split; [reflexivity|].
  split; [vm_compute; reflexivity|].
  split; [eexists; eexists; reflexivity|].
  split; [|exact removal_not_only_by_initiator].
  cbv zeta.
  split; [vm_compute; reflexivity|].
  split; [eexists; eexists; vm_compute; reflexivity|].
  vm_compute. reflexivity.
Qed.

(** ** C6: the slot a missing key is loaded into *)

Lemma target_keyNumber_cases (r : Reader) :
  target_keyNumber r
  = match key0 (keyStorage r), key1 (keyStorage r) with
    | None, _ => 0
    | Some _, None => 1
    | Some _, Some _ => 0
    end.
Proof.
  unfold target_keyNumber, findKeyNumber, Object_keys, get_key.
  destruct (key0 (keyStorage r)), (key1 (keyStorage r)); reflexivity.
Qed.

Lemma get_set_key (ks : KeyStorage) (k : Z) (kv : KeyVal) :
  k = 0 ∨ k = 1 -> get_key (set_key ks k kv) k = Some kv.
Proof. intros [->| ->]; reflexivity. Qed.




(** ** C7: load a key, then authenticate with it *)

(** C7. On a reader with a card and a connection,
    [loadAuthenticationKey(0, "FFFFFFFFFFFF")] hands the provider exactly
    FF 82 00 00 06 FF FF FF FF FF FF; when the answer is 90 00 the key is
    stored in slot 0 and the call returns 0. Then
    [authenticate(4, 0x60, "FFFFFFFFFFFF")] (obsolete = false) hands the
    provider exactly FF 86 00 00 05 01 00 04 60 00 and nothing else; when
    the answer is 90 00 the call returns [true]. *)
Theorem load_key_then_authenticate (r : Reader) (c : Card) (conn : ReaderConnection) :
  card r = Some c -> connection r = Some conn ->
  ∃ m1 m2 m3 m4,
    exec [Macrotask [CallLoadAuthenticationKey 0 (KeyString "FFFFFFFFFFFF")]] (boot r)
    = Some m1
    ∧ sent m1
      = [ {| packet := {| tx_data := [xff; x82; x00; x00; x06;
                                      xff; xff; xff; xff; xff; xff];
                          tx_responseMaxLength := 2;
                          tx_protocol := protocol conn |};
             awaiter := 0%nat; answered := false |} ]
    ∧ exec [ProviderAnswers 0 (ReplyResponse [x90; x00]); Microtask] m1 = Some m2
    ∧ status_of m2 0%nat = Some (Done (Fulfilled (VNumber 0)))
    ∧ get_key (keyStorage (this m2)) 0
      = Some (StoredBuffer [xff; xff; xff; xff; xff; xff])
    ∧ jobs m2 = []
    ∧ exec [Macrotask [CallAuthenticate 4 0x60 "FFFFFFFFFFFF" false]] m2 = Some m3
    ∧ packet <$> sent m3
      = [ {| tx_data := [xff; x82; x00; x00; x06; xff; xff; xff; xff; xff; xff];
             tx_responseMaxLength := 2; tx_protocol := protocol conn |};
          {| tx_data := [xff; x86; x00; x00; x05; x01; x00; x04; x60; x00];
             tx_responseMaxLength := 2; tx_protocol := protocol conn |} ]
    ∧ exec [ProviderAnswers 1 (ReplyResponse [x90; x00]); Microtask] m3 = Some m4
    ∧ status_of m4 1%nat = Some (Done (Fulfilled (VBoolean true)))
    ∧ jobs m4 = []
    ∧ length (sent m4) = 2%nat.
Proof.
  intros Hc Hconn.
  destruct r as [cr conn' card' ap aid ks pend]. simpl in Hc, Hconn. subst.
  eexists. eexists. eexists. eexists.
  split; [vm_compute; reflexivity|].
  split; [reflexivity|].
  split; [vm_compute; reflexivity|].
  split; [reflexivity|].
  split; [reflexivity|].
  split; [reflexivity|].
  split; [vm_compute; reflexivity|].
  split; [reflexivity|].
  split; [vm_compute; reflexivity|].
  split; [reflexivity|].
  split; reflexivity.
Qed.

Lemma load_key_then_authenticate_witness :
  let r := with_connection (Some {| conn_type := 2; protocol := 2 |})
             (with_card (Some empty_card) (new_Reader acr1252)) in
  ∃ m,
    exec [ Macrotask [CallLoadAuthenticationKey 0 (KeyString "FFFFFFFFFFFF")];
           ProviderAnswers 0 (ReplyResponse [x90; x00]); Microtask;
           Macrotask [CallAuthenticate 4 0x60 "FFFFFFFFFFFF" false];
           ProviderAnswers 1 (ReplyResponse [x90; x00]); Microtask ] (boot r)
    = Some m
    ∧ status_of m 1%nat = Some (Done (Fulfilled (VBoolean true))).
Proof.
  intros r.
  destruct (load_key_then_authenticate r empty_card {| conn_type := 2; protocol := 2 |}
              eq_refl eq_refl)
    as (m1 & m2 & m3 & m4 & H1 & _ & H2 & _ & _ & _ & H3 & _ & H4 & H5 & _).
  exists m4. split; [|exact H5].
  cbn [exec] in *.
  destruct (step (Macrotask [CallLoadAuthenticationKey 0 (KeyString "FFFFFFFFFFFF")]) (boot r))
    as [a1|]; [|discriminate].
  injection H1 as ->.
  destruct (step (ProviderAnswers 0 (ReplyResponse [x90; x00])) m1) as [a2|]; [|discriminate].
  destruct (step Microtask a2) as [a3|]; [|discriminate].
  injection H2 as ->.
  destruct (step (Macrotask [CallAuthenticate 4 96 "FFFFFFFFFFFF" false]) m2)
    as [a4|]; [|discriminate].
  injection H3 as ->.
  exact H4.
Defined.

(** ** Further properties of the sources *)

(** *** reverseBuffer *)

Lemma reverseBuffer_loop_spec (src : Buffer) (fuel k : nat) (buffer : Buffer) :
  length buffer = length src ->
  (length src <= fuel + k)%nat ->
  (∀ idx, (idx < k ∨ length src - k <= idx)%nat ->
          buffer !! idx = reverse src !! idx) ->
  reverseBuffer_loop fuel src buffer (Z.of_nat k) (blen src - 1 - Z.of_nat k)
  = reverse src.
Proof.
  revert k buffer. induction fuel as [|fuel IH]; intros k buffer Hlen Hfuel Hinv.
  - cbn [reverseBuffer_loop]. apply list_eq. intros idx.
    destruct (decide (idx < length src)%nat) as [Hi|Hi].
    + apply Hinv. lia.
    + rewrite !lookup_ge_None_2; [reflexivity | rewrite length_reverse; lia | lia].
  - cbn [reverseBuffer_loop]. unfold blen.
    destruct (Z.of_nat k <=? Z.of_nat (length src) - 1 - Z.of_nat k) eqn:E.
    + apply Z.leb_le in E.
      replace (Z.of_nat k + 1) with (Z.of_nat (S k)) by lia.
      replace (Z.of_nat (length src) - 1 - Z.of_nat k - 1)
        with (blen src - 1 - Z.of_nat (S k)) by (unfold blen; lia).
      replace (Z.to_nat (Z.of_nat (length src) - 1 - Z.of_nat k))
        with (length src - S k)%nat by lia.
      rewrite Nat2Z.id.
      apply IH; [rewrite !length_insert; exact Hlen | lia |].
      intros idx Hidx.
      assert ((idx < length src)%nat -> reverse src !! idx = src !! (length src - S idx)%nat)
        as Hrev by (intros; apply reverse_lookup; lia).
      destruct (decide (idx = length src - S k)%nat) as [->|Hj].
      * rewrite list_lookup_insert_eq by (rewrite length_insert; lia).
        rewrite Hrev by lia.
        replace (length src - S (length src - S k))%nat with k by lia.
        destruct (lookup_lt_is_Some_2 src k ltac:(lia)) as [x ->]. reflexivity.
      * rewrite list_lookup_insert_ne by congruence.
        destruct (decide (idx = k)) as [->|Hk].
        -- rewrite list_lookup_insert_eq by lia. rewrite Hrev by lia.
           destruct (lookup_lt_is_Some_2 src (length src - S k) ltac:(lia)) as [x ->].
           reflexivity.
        -- rewrite list_lookup_insert_ne by congruence. apply Hinv. lia.
    + apply Z.leb_gt in E. apply list_eq. intros idx.
      destruct (decide (idx < length src)%nat) as [Hi|Hi].
      * apply Hinv. lia.
      * rewrite !lookup_ge_None_2; [reflexivity | rewrite length_reverse; lia | lia].
Qed.

(** X6. [reverseBuffer] returns the bytes of its argument in reverse
    order, whatever the freshly allocated buffer held: every byte of it
    is overwritten. Applied twice it gives the argument back. *)
Theorem reverseBuffer_reverses (alloc alloc' src : Buffer) :
  length alloc = length src -> length alloc' = length src ->
  reverseBuffer alloc src = reverse src
  ∧ length (reverseBuffer alloc src) = length src
  ∧ reverseBuffer alloc' (reverseBuffer alloc src) = src.
Proof.
  intros Ha Ha'.
  assert (∀ a s : Buffer, length a = length s -> reverseBuffer a s = reverse s) as Hrev.
  { intros a s Hl. unfold reverseBuffer.
    pose proof (reverseBuffer_loop_spec s (length s) 0 a Hl) as H.
    cbn [Z.of_nat] in H. rewrite Z.sub_0_r in H.
    apply H; [lia|]. intros idx [Hidx|Hidx]; [lia|].
    rewrite !lookup_ge_None_2; [reflexivity | rewrite length_reverse; lia | lia]. }
  rewrite (Hrev alloc src Ha). split; [reflexivity|].
  split; [apply length_reverse|].
  rewrite Hrev by (rewrite length_reverse; exact Ha').
  apply reverse_involutive.
Qed.

Lemma reverseBuffer_reverses_witness :
  reverseBuffer [xaa; xbb; xcc] [x01; x02; x03] = [x03; x02; x01].
Proof.
  exact (proj1 (reverseBuffer_reverses [xaa; xbb; xcc] [xaa; xbb; xcc] [x01; x02; x03]
                  eq_refl eq_refl)).
Defined.

(** *** The packets of read and write *)

Lemma u8_mod (z : Z) : u8 (z mod 256) = u8 z.
Proof. unfold u8. rewrite Z.mod_mod by lia. reflexivity. Qed.

Lemma u8_eq_mod (a b : Z) : a mod 256 = b mod 256 -> u8 a = u8 b.
Proof. intros H. unfold u8. rewrite H. reflexivity. Qed.

Lemma to_integer_of_int (z : Z) : to_integer (of_int z) = z.
Proof. unfold to_integer, of_int. simpl. apply Z.quot_1_r. Qed.

Lemma read_packet_bytes (b length readClass : Z) :
  read_packet (of_int b) length readClass
  = [u8 readClass; xb0; u8 (b / 256); u8 b; u8 length].
Proof.
  unfold read_packet, Buffer_from_array. rewrite to_integer_of_int.
  cbn [map]. change 255 with (Z.ones 8).
  rewrite !Z.land_ones, Z.shiftr_div_pow2 by lia.
  change (2 ^ 8) with 256. rewrite !u8_mod. reflexivity.
Qed.

(** X7. The Read Binary packet carries the block number in two bytes,
    high byte first, and the length in one: a block number below 65536 is
    read back from the packet, and block numbers that differ by 65536, or
    lengths that differ by 256, give the same packet. The Update Binary
    packet has one byte for the block number: block numbers that differ
    by 256 give the same packet, so a write to block 256 is a write to
    block 0. *)
Theorem block_numbers_wrap (b length readClass blockSize : Z) (data : Buffer) :
  read_packet (of_int b) length readClass
  = [u8 readClass; xb0; u8 (b / 256); u8 b; u8 length]
  ∧ (0 <= b < 65536 ->
       byte_val (u8 (b / 256)) * 256 + byte_val (u8 b) = b)
  ∧ read_packet (of_int (b + 65536)) length readClass
    = read_packet (of_int b) length readClass
  ∧ read_packet (of_int b) (length + 256) readClass
    = read_packet (of_int b) length readClass
  ∧ write_packet b blockSize data
    = [xff; xd6; x00; u8 b; u8 blockSize] ++ data
  ∧ write_packet (b + 256) blockSize data = write_packet b blockSize data.
Proof.
  assert (∀ z, u8 (z + 256) = u8 z) as Hwrap.
  { intros z. apply u8_eq_mod. replace (z + 256) with (z + 1 * 256) by lia.
    apply Z.mod_add. lia. }
  split; [apply read_packet_bytes|]. split.
  { intros Hb. rewrite !byte_val_u8.
    rewrite (Z.mod_small (b / 256)) by (split; [apply Z.div_pos; lia |
      apply Z.div_lt_upper_bound; lia]).
    pose proof (Z.div_mod b 256 ltac:(lia)). lia. }
  split.
  { rewrite !read_packet_bytes.
    replace (b + 65536) with (b + 256 * 256) by lia.
    rewrite Z.div_add by lia. rewrite Hwrap.
    rewrite (u8_eq_mod (b + 256 * 256) b) by (apply Z.mod_add; lia).
    reflexivity. }
  split.
  { rewrite !read_packet_bytes, Hwrap. reflexivity. }
  split; [reflexivity|].
  unfold write_packet, Buffer_from_array. cbn [map]. rewrite Hwrap. reflexivity.
Qed.

(** *** Failures of read and write *)

Lemma first_rejection_some {A : Type} (rs : list (nat * Settled A)) :
  (∃ i t e, rs !! i = Some (t, Rejected e)) ->
  ∃ i t e, rs !! i = Some (t, Rejected e) ∧ first_rejection rs = Some (t, e).
Proof.
  induction rs as [|[t s] rs IH]; intros (i & t0 & e0 & Hi).
  - rewrite lookup_nil in Hi. discriminate.
  - destruct s as [a|e]; cbn [first_rejection].
    + destruct i as [|i]; [simpl in Hi; congruence|].
      destruct IH as (j & t1 & e1 & Hj & Hf); [eauto|].
      exists (S j), t1, e1. auto.
    + destruct (first_rejection rs) as [[t' e']|] eqn:Hf.
      * destruct (t' <? t)%nat.
        -- assert (∃ j, rs !! j = Some (t', Rejected e')) as [j Hj].
           { clear -Hf. revert t' e' Hf.
             induction rs as [|[t2 s2] rs IHrs]; intros t' e' Hf; [discriminate|].
             destruct s2 as [a2|e2]; cbn [first_rejection] in Hf.
             - destruct (IHrs _ _ Hf) as [j Hj]. exists (S j). exact Hj.
             - destruct (first_rejection rs) as [[t3 e3]|] eqn:Hf3.
               + destruct (t3 <? t2)%nat; inversion Hf; subst.
                 * destruct (IHrs _ _ eq_refl) as [j Hj]. exists (S j). exact Hj.
                 * exists 0%nat. reflexivity.
               + inversion Hf; subst. exists 0%nat. reflexivity. }
           exists (S j), t', e'. auto.
        -- exists 0%nat, t, e. auto.
      * exists 0%nat, t, e. auto.
Qed.

Lemma Promise_all_rejected {A : Type} (rs : list (nat * Settled A))
      (k : list A -> Settled A) :
  (∃ i t e, rs !! i = Some (t, Rejected e)) ->
  ∃ i t e, rs !! i = Some (t, Rejected e) ∧ snd (Promise_all rs k) = Rejected e.
Proof.
  intros H. destruct (first_rejection_some rs H) as (i & t & e & Hi & Hf).
  exists i, t, e. split; [exact Hi|]. unfold Promise_all. rewrite Hf. reflexivity.
Qed.


Lemma write_response_rejects (s : Settled Buffer) (e : Error) :
  write_response s = Rejected e -> error_class e = WriteError.
Proof.
  unfold write_response. destruct s as [response|err]; [|intros H; inversion H; reflexivity].
  destruct (blen response <? 2) eqn:E; [intros H; inversion H; reflexivity|].
  destruct (split_last_two response ltac:(lia)) as (hi & lo & Hsplit).
  rewrite Hsplit, slice_status. unfold readUInt16BE. simpl.
  destruct (negb _); intros H; inversion H; reflexivity.
Qed.




(** A write of several blocks on a connected reader, as a list of single
    commands. *)
Lemma write_split_connected (r : Reader) (c : Card) (conn : ReaderConnection)
      (blockNumber : Z) (data : Buffer) (blockSize : Z) :
  card r = Some c -> connection r = Some conn ->
  0 < blockSize -> blockSize < blen data -> blen data mod blockSize = 0 ->
  write r blockNumber data blockSize
  = Some (AwaitAll
            ((λ n : nat,
                AwaitTransmit
                  (write_packet (js_add_int blockNumber (Z.of_nat n)) blockSize
                     (take (Z.to_nat blockSize) (drop (n * Z.to_nat blockSize) data)))
                  2 (protocol conn) write_response)
               <$> seq 0 (Z.to_nat (blen data / blockSize)))
            (λ _, Fulfilled true)).
Proof.
  intros Hc Hconn Hbs Hlt Hmod.
  assert (blen data = blockSize * (blen data / blockSize)) as Hd
    by (apply Z.div_exact; [lia | assumption]).
  unfold write. rewrite (write_split r c) by (auto; lia).
  rewrite (mapM_total _ (λ n : nat,
             AwaitTransmit
               (write_packet (js_add_int blockNumber (Z.of_nat n)) blockSize
                  (take (Z.to_nat blockSize) (drop (n * Z.to_nat blockSize) data)))
               2 (protocol conn) write_response)); [reflexivity|].
  intros n Hn. apply elem_of_seq in Hn as [_ Hn].
  assert ((Z.of_nat n + 1) * blockSize <= blen data) by nia.
  rewrite slice_block by assumption.
  rewrite (write_block r c); [| exact Hc | exact Hbs | apply block_length; auto].
  unfold transmit. rewrite Hc, Hconn. reflexivity.
Qed.

(** X5. A write of several blocks reports success only when every block
    was written. On a reader with a card and a connection, for data of a
    whole number of blocks: one packet per block is handed over; if every
    response passes the checks the write is fulfilled with [true]; if
    some block fails, the write is rejected with the error of one of the
    failed blocks, which is a [WriteError]. The blocks before and after
    the failed one have been sent all the same. *)
Theorem write_all_or_nothing (r : Reader) (c : Card) (conn : ReaderConnection)
        (blockNumber : Z) (data : Buffer) (blockSize : Z) :
  card r = Some c -> connection r = Some conn ->
  0 < blockSize -> blockSize < blen data -> blen data mod blockSize = 0 ->
  ∃ a (p : nat),
    write r blockNumber data blockSize = Some a
    ∧ Z.of_nat p * blockSize = blen data
    ∧ List.length (issued a) = p
    ∧ ∀ (answers : Provider) (first : nat),
        let block (n : nat) :=
          write_response (transmit_callback (snd (answers (first + n)%nat))) in
        ((∀ n, (n < p)%nat -> ∃ v, block n = Fulfilled v) ->
           snd (settle a answers first) = Fulfilled true)
        ∧ ((∃ n e, (n < p)%nat ∧ block n = Rejected e) ->
           ∃ n e, (n < p)%nat ∧ block n = Rejected e
                  ∧ snd (settle a answers first) = Rejected e
                  ∧ error_class e = WriteError).
Proof.
  intros Hc Hconn Hbs Hlt Hmod.
  assert (blen data = blockSize * (blen data / blockSize)) as Hd
    by (apply Z.div_exact; [lia | assumption]).
  eexists. exists (Z.to_nat (blen data / blockSize)).
  split; [apply (write_split_connected r c conn); assumption|].
  split; [nia|].
  split.
  { rewrite (issued_all_transmit write_response
               (λ n : nat, write_packet (js_add_int blockNumber (Z.of_nat n)) blockSize
                  (take (Z.to_nat blockSize) (drop (n * Z.to_nat blockSize) data)))
               (λ _, 2) (λ _, protocol conn)).
    rewrite length_fmap, length_seq. reflexivity. }
  intros answers first block.
  rewrite settle_AwaitAll.
  rewrite (settle_all_transmit write_response
             (λ n : nat, write_packet (js_add_int blockNumber (Z.of_nat n)) blockSize
                (take (Z.to_nat blockSize) (drop (n * Z.to_nat blockSize) data)))
             (λ _, 2) (λ _, protocol conn)).
  rewrite length_seq.
  set (p := Z.to_nat (blen data / blockSize)) in *.
  change ((λ j : nat, (fst (answers (first + j)%nat),
             write_response (transmit_callback (snd (answers (first + j)%nat)))))
            <$> seq 0 p)
    with ((λ j : nat, (fst (answers (first + j)%nat), block j)) <$> seq 0 p).
  split.
  - intros Hall.
    assert ((λ j : nat, (fst (answers (first + j)%nat), block j)) <$> seq 0 p
            = (λ j : nat, (fst (answers (first + j)%nat),
                           Fulfilled (match block j with
                                      | Fulfilled v => v
                                      | Rejected _ => false
                                      end))) <$> seq 0 p) as ->.
    { apply list_fmap_ext. intros i j Hj. apply lookup_seq in Hj as [-> Hj].
      destruct (Hall i Hj) as [v Hv]. simpl. rewrite Hv. reflexivity. }
    apply (Promise_all_fulfilled (λ j, fst (answers (first + j)%nat))).
  - intros (n & e & Hn & He).
    destruct (Promise_all_rejected
                ((λ j : nat, (fst (answers (first + j)%nat), block j)) <$> seq 0 p)
                (λ _, Fulfilled true))
      as (i & t & e' & Hi & Hrej).
    { exists n, (fst (answers (first + n)%nat)), e.
      rewrite list_lookup_fmap, lookup_seq_lt by exact Hn. simpl. rewrite He.
      reflexivity. }
    rewrite list_lookup_fmap in Hi.
    destruct (seq 0 p !! i) as [j|] eqn:Hj; [|discriminate].
    apply lookup_seq in Hj as [-> Hj]. simpl in Hi. inversion Hi as [[Ht He']].
    exists i, e'. repeat split; auto.
    apply (write_response_rejects _ _ He').
Qed.

Lemma write_all_or_nothing_witness :
  let r := with_connection (Some {| conn_type := 2; protocol := 2 |})
             (with_card (Some empty_card) (new_Reader acr1252)) in
  ∃ a (p : nat),
    write r 4 [x01; x02; x03; x04; x05; x06; x07; x08] 4 = Some a
    ∧ Z.of_nat p * 4 = 8
    ∧ List.length (issued a) = p.
Proof.
  intros r.
  destruct (write_all_or_nothing r empty_card {| conn_type := 2; protocol := 2 |}
              4 [x01; x02; x03; x04; x05; x06; x07; x08] 4
              eq_refl eq_refl ltac:(lia) ltac:(reflexivity) ltac:(reflexivity))
    as (a & p & H1 & H2 & H3 & _).
  exists a, p. auto.
Defined.

(** *** Reading and writing without a connection *)

Lemma settle_all_soon {A B : Type} (s : B -> Settled A) (xs : list B)
      (answers : Provider) (first : nat) :
  settle_all ((λ x, Soon (s x)) <$> xs) answers first = (λ x, (0%nat, s x)) <$> xs.
Proof.
  revert first. induction xs as [|x xs IH]; intros first; [reflexivity|].
  cbn [fmap list_fmap settle_all settle issued length]. f_equal. apply IH.
Qed.

Lemma issued_all_soon {A B : Type} (s : B -> Settled A) (xs : list B)
      (k : list A -> Settled A) :
  issued (AwaitAll ((λ x, Soon (s x)) <$> xs) k) = [].
Proof.
  cbn [issued]. induction xs as [|x xs IH]; [reflexivity | exact IH].
Qed.

Lemma Promise_all_same_rejection {A B : Type} (e : Error) (xs : list B)
      (k : list A -> Settled A) :
  xs ≠ [] ->
  snd (Promise_all ((λ _, (0%nat, Rejected e)) <$> xs) k) = Rejected e.
Proof.
  intros Hne.
  destruct (Promise_all_rejected ((λ _ : B, (0%nat, @Rejected A e)) <$> xs) k)
    as (i & t & e' & Hi & Hrej).
  { destruct xs as [|x xs]; [congruence|]. exists 0%nat, 0%nat, e. reflexivity. }
  rewrite list_lookup_fmap in Hi. destruct (xs !! i); [|discriminate].
  simpl in Hi. inversion Hi; subst. exact Hrej.
Qed.

(** X8. Without a connection nothing is read or written. When the reader
    has no connection, [read] (positive packet size) and [write]
    (positive block size) hand no packet to the provider and return a
    promise that is rejected, with a [ReadError], respectively a
    [WriteError]. When there is no card either, the error has the code
    [card_not_connected]. *)
Theorem read_write_need_connection (r : Reader) (blockNumber : Z) :
  connection r = None ->
  (∀ length blockSize packetSize readClass, 0 < packetSize ->
     ∃ a e, read r (of_int blockNumber) length blockSize packetSize readClass = Some a
       ∧ issued a = []
       ∧ (∀ answers first, snd (settle a answers first) = Rejected e)
       ∧ error_class e = ReadError
       ∧ (card r = None -> error_code e = Some CARD_NOT_CONNECTED))
  ∧ (∀ data blockSize, 0 < blockSize ->
     ∃ a e, write r blockNumber data blockSize = Some a
       ∧ issued a = []
       ∧ (∀ answers first, snd (settle a answers first) = Rejected e)
       ∧ error_class e = WriteError
       ∧ (card r = None -> error_code e = Some CARD_NOT_CONNECTED)).
Proof.
  intros Hconn. split.
  - intros length blockSize packetSize readClass Hps.
    destruct (card r) as [c|] eqn:Hc.
    2:{ eexists. eexists. unfold read. cbn [read_]. rewrite Hc.
        split; [reflexivity|]. repeat split; reflexivity. }
    set (e := MkError ReadError None None
                (Some (MkError TransmitError (Some CARD_NOT_CONNECTED)
                         (Some "No card or connection available.") None))).
    destruct (decide (packetSize < length)) as [Hlt|Hge].
    + destruct (Math_ceil_div_spec length packetSize Hps) as (pz & Hceil & Hbounds & Hpz).
      assert (0 < pz) by nia.
      exists (AwaitAll ((λ _ : nat, Soon (Rejected e)) <$> seq 0 (Z.to_nat pz))
                (λ values,
                   match Buffer_concat values length with
                   | Some b => Fulfilled b
                   | None => Rejected (MkError RangeError None None None)
                   end)), e.
      split.
      { unfold read. rewrite (read_split r c) by assumption. rewrite Hceil.
        rewrite (mapM_total _ (λ _ : nat, Soon (Rejected e))); [reflexivity|].
        intros n _. cbn beta zeta. rewrite part_size_min.
        rewrite (read_part r c) by (auto; lia).
        unfold transmit. rewrite Hc, Hconn. reflexivity. }
      split; [apply (issued_all_soon (λ _ : nat, Rejected e))|].
      split; [|split; [reflexivity | congruence]].
      intros answers first. rewrite settle_AwaitAll.
      rewrite (settle_all_soon (λ _ : nat, Rejected e)).
      apply Promise_all_same_rejection.
      intros Hnil. apply (f_equal List.length) in Hnil.
      rewrite length_seq in Hnil. simpl in Hnil. lia.
    + exists (Soon (Rejected e)), e. split.
      { unfold read. rewrite (read_part r c) by (auto; lia).
        unfold transmit. rewrite Hc, Hconn. reflexivity. }
      repeat split; congruence.
  - intros data blockSize Hbs.
    destruct (card r) as [c|] eqn:Hc.
    2:{ eexists. eexists. unfold write. cbn [write_]. rewrite Hc.
        split; [reflexivity|]. repeat split; reflexivity. }
    destruct ((blen data <? blockSize) || rem_not_zero (blen data) blockSize) eqn:Hchk.
    { eexists. eexists. unfold write. cbn [write_]. rewrite Hc, Hchk.
      split; [reflexivity|]. repeat split; congruence. }
    apply orb_false_iff in Hchk as [Hlt Hrem].
    apply rem_not_zero_spec in Hrem as [_ Hmod].
    set (e := MkError WriteError None None
                (Some (MkError TransmitError (Some CARD_NOT_CONNECTED)
                         (Some "No card or connection available.") None))).
    destruct (decide (blockSize < blen data)) as [Hgt|Hle].
    + assert (blen data = blockSize * (blen data / blockSize)) as Hd
        by (apply Z.div_exact; [lia | assumption]).
      exists (AwaitAll ((λ _ : nat, Soon (Rejected e))
                          <$> seq 0 (Z.to_nat (blen data / blockSize)))
                (λ _, Fulfilled true)), e.
      split.
      { unfold write. rewrite (write_split r c) by (auto; lia).
        rewrite (mapM_total _ (λ _ : nat, Soon (Rejected e))); [reflexivity|].
        intros n Hn. apply elem_of_seq in Hn as [_ Hn].
        assert ((Z.of_nat n + 1) * blockSize <= blen data) by nia.
        rewrite slice_block by assumption.
        rewrite (write_block r c); [| exact Hc | exact Hbs | apply block_length; auto].
        unfold transmit. rewrite Hc, Hconn. reflexivity. }
      split; [apply (issued_all_soon (λ _ : nat, Rejected e))|].
      split; [|split; [reflexivity | congruence]].
      intros answers first. rewrite settle_AwaitAll.
      rewrite (settle_all_soon (λ _ : nat, Rejected e)).
      apply Promise_all_same_rejection.
      intros Hnil. apply (f_equal List.length) in Hnil.
      rewrite length_seq in Hnil. simpl in Hnil. nia.
    + exists (Soon (Rejected e)), e. split.
      { unfold write. rewrite (write_block r c) by (auto; lia).
        unfold transmit. rewrite Hc, Hconn. reflexivity. }
      repeat split; congruence.
Qed.

Lemma read_write_need_connection_witness :
  ∃ a e, read (with_card (Some empty_card) (new_Reader acr1252))
           (of_int 4) 32 4 16 0xff = Some a
         ∧ issued a = []
         ∧ (∀ answers first, snd (settle a answers first) = Rejected e)
         ∧ error_class e = ReadError.
Proof.
  destruct (read_write_need_connection
              (with_card (Some empty_card) (new_Reader acr1252)) 4 eq_refl)
    as [Hread _].
  destruct (Hread 32 4 16 0xff ltac:(lia)) as (a & e & H1 & H2 & H3 & H4 & _).
  exists a, e. auto.
Defined.

(** X9. Sizes below zero. With a card present, a read of a non-negative
    length with a negative packet size, and a write with a negative block
    size that divides the length of the data, hand no packet to the
    provider; the read is fulfilled with the empty buffer, not with
    [length] bytes, and the write is fulfilled with [true] although
    nothing was written. Neither needs a connection. *)
Theorem negative_sizes_send_nothing (r : Reader) (c : Card) :
  card r = Some c ->
  (∀ blockNumber length blockSize packetSize readClass,
     packetSize < 0 -> 0 <= length ->
     ∃ a, read r blockNumber length blockSize packetSize readClass = Some a
       ∧ issued a = []
       ∧ ∀ answers first, snd (settle a answers first) = Fulfilled [])
  ∧ (∀ blockNumber data blockSize,
     blockSize < 0 -> blen data mod blockSize = 0 ->
     ∃ a, write r blockNumber data blockSize = Some a
       ∧ issued a = []
       ∧ ∀ answers first, snd (settle a answers first) = Fulfilled true).
Proof.
  intros Hc. split.
  - intros blockNumber length blockSize packetSize readClass Hps Hlen.
    eexists. split.
    { unfold read. rewrite (read_split r c) by (auto; lia).
      unfold Math_ceil_div. destruct (packetSize =? 0) eqn:E; [lia|].
      replace (Z.to_nat (- (- length / packetSize))) with 0%nat; [reflexivity|].
      assert (0 <= - length / packetSize); [|lia].
      pose proof (Z.div_mod (- length) packetSize ltac:(lia)).
      pose proof (Z.mod_neg_bound (- length) packetSize Hps). nia. }
    split; reflexivity.
  - intros blockNumber data blockSize Hbs Hmod.
    pose proof (blen_nonneg data).
    eexists. split.
    { unfold write. rewrite (write_split r c) by (auto; lia).
      replace (Z.to_nat (blen data / blockSize)) with 0%nat; [reflexivity|].
      assert (blen data = blockSize * (blen data / blockSize)) as Hd
        by (apply Z.div_exact; [lia | assumption]).
      nia. }
    split; reflexivity.
Qed.

Lemma negative_sizes_send_nothing_witness :
  ∃ a, read (with_card (Some empty_card) (new_Reader acr1252))
         (of_int 4) 16 4 (-16) 0xff = Some a
       ∧ issued a = []
       ∧ ∀ answers first, snd (settle a answers first) = Fulfilled [].
Proof.
  destruct (negative_sizes_send_nothing
              (with_card (Some empty_card) (new_Reader acr1252)) empty_card eq_refl)
    as [Hread _].
  exact (Hread (of_int 4) 16 4 (-16) 0xff ltac:(lia) ltac:(lia)).
Defined.

(** *** The status handler: removal and insertion of a card *)

Lemma modes_known (r : Reader) :
  modes r CONNECT_MODE_CARD = Some (ShareNumber (SCARD_SHARE_SHARED (reader r)))
  ∧ modes r CONNECT_MODE_DIRECT = Some (ShareNumber (SCARD_SHARE_DIRECT (reader r))).
Proof. split; reflexivity. Qed.

Lemma truthy_land (changes mask : Z) :
  truthy (Z.land changes mask) = true -> truthy changes = true.
Proof.
  unfold truthy. destruct (changes =? 0) eqn:E; [|reflexivity].
  apply Z.eqb_eq in E. subst. rewrite Z.land_0_l. discriminate.
Qed.

(** X10. Removal of a card. When the EMPTY bit of the status is set and
    differs from the state of the provider, the handler emits [card.off]
    with the card it had (nothing when it had none) and forgets the
    card, whatever the other bits say. With a connection it asks the
    provider to disconnect, leaving the card in the reader; the
    connection is dropped when the provider confirms and kept when it
    reports an error. From the moment the handler reaches its await,
    [transmit] throws, [handleTag] returns [false] and [read] is
    rejected with [card_not_connected]. *)
Theorem card_removed (r : Reader) (status : Status) :
  bit_rose r status (SCARD_STATE_EMPTY (reader r)) = true ->
  let t := on_status r status in
  status_reader t = with_card None r
  ∧ status_emitted t = match card r with
                       | Some c => [emit "card.off" (CardPayload c)]
                       | None => []
                       end
  ∧ (connection r = None -> t = StatusReturns (with_card None r) (status_emitted t))
  ∧ (connection r ≠ None ->
       ∃ k, t = StatusAwaitsDisconnect (with_card None r) (status_emitted t)
                  (SCARD_LEAVE_CARD (reader r)) k
            ∧ (∀ r', k None r' = (with_connection None r', []))
            ∧ (∀ err r', fst (k (Some err) r') = r'))
  ∧ (∀ data n, ∃ e, transmit (status_reader t) data n = TransmitThrows e
                    ∧ error_code e = Some CARD_NOT_CONNECTED)
  ∧ handleTag (status_reader t) = HandleFalse
  ∧ (∀ b l bs ps rc,
       read (status_reader t) b l bs ps rc
       = Some (Soon (Rejected (MkError ReadError (Some CARD_NOT_CONNECTED) None None)))).
Proof.
  intros Hrose t.
  unfold bit_rose in Hrose. apply andb_true_iff in Hrose as [H1 H2].
  pose proof (truthy_land _ _ H1) as H0.
  assert (t = match connection r with
              | Some _ =>
                  StatusAwaitsDisconnect (with_card None r)
                    match card r with
                    | Some c => [emit "card.off" (CardPayload c)]
                    | None => []
                    end (SCARD_LEAVE_CARD (reader r)) on_status_disconnected
              | None =>
                  StatusReturns (with_card None r)
                    match card r with
                    | Some c => [emit "card.off" (CardPayload c)]
                    | None => []
                    end
              end) as Ht.
  { subst t. unfold on_status. cbv zeta. rewrite H0, H1, H2. cbn [andb].
    unfold disconnect. cbn [with_card connection reader].
    destruct (connection r); reflexivity. }
  assert (status_reader t = with_card None r) as Hr
    by (rewrite Ht; destruct (connection r); reflexivity).
  assert (status_emitted t = match card r with
                             | Some c => [emit "card.off" (CardPayload c)]
                             | None => []
                             end) as He
    by (rewrite Ht; destruct (connection r); reflexivity).
  split; [exact Hr|]. split; [exact He|].
  split; [intros Hn; rewrite He, Ht, Hn; reflexivity|].
  split.
  { intros Hn. exists on_status_disconnected. rewrite He, Ht.
    destruct (connection r); [|congruence].
    split; [reflexivity|]. split; reflexivity. }
  rewrite Hr. split; [|split].
  - intros data n. eexists. split; reflexivity.
  - reflexivity.
  - reflexivity.
Qed.

Lemma card_removed_witness :
  let r := with_connection (Some {| conn_type := 2; protocol := 2 |})
             (with_card (Some empty_card)
                (new_Reader {| name := "ACS ACR1252"; state := 0x20;
                               SCARD_STATE_EMPTY := 0x10; SCARD_STATE_PRESENT := 0x20;
                               SCARD_SHARE_DIRECT := 3; SCARD_SHARE_SHARED := 2;
                               SCARD_LEAVE_CARD := 0 |})) in
  status_emitted (on_status r {| status_state := 0x10; status_atr := None |})
  = [emit "card.off" (CardPayload empty_card)].
Proof.
  intros r.
  exact (proj1 (proj2 (card_removed r {| status_state := 0x10; status_atr := None |}
                         eq_refl))).
Defined.

(** X11. Insertion of a card. When the EMPTY bit did not rise, the
    handler acts only if the PRESENT bit is set and differs from the
    state of the provider. It then replaces the card by a fresh one made
    from the ATR of the status (no UID, no data) and asks the provider
    for a shared connection without naming a protocol. Once the provider
    has connected, the reader holds the connection, with protocol 0 when
    the provider named none; with [autoProcessing] off the handler emits
    one [card] event with the card as it is and sends nothing, with
    [autoProcessing] on it emits nothing itself and calls [handleTag].
    When the provider fails to connect, the reader is left as it was,
    card included. *)
Theorem card_inserted (r : Reader) (status : Status) :
  bit_rose r status (SCARD_STATE_EMPTY (reader r)) = false ->
  SCARD_SHARE_SHARED (reader r) ≠ 0 ->
  if bit_rose r status (SCARD_STATE_PRESENT (reader r)) then
    ∃ c k,
      on_status r status
      = StatusAwaitsConnect (with_card (Some c) r) []
          (SCARD_SHARE_SHARED (reader r)) None k
      ∧ atr c = status_atr status
      ∧ standard c = selectStandardByAtr <$> status_atr status
      ∧ card_type c = standard c
      ∧ uid c = None ∧ data c = None
      ∧ (∀ p r',
           let conn := {| conn_type := SCARD_SHARE_SHARED (reader r);
                          protocol := default 0 p |} in
           k (inr p) r'
           = (with_connection (Some conn) r',
              if autoProcessing r' then []
              else [emit "card" (CardPayload (default empty_card (card r')))],
              if autoProcessing r' then Some (handleTag (with_connection (Some conn) r'))
              else None))
      ∧ (∀ err r', ∃ ev, k (inl err) r' = (r', [ev], None))
  else on_status r status = StatusReturns r [].
Proof.
  intros Hempty Hshare. unfold bit_rose in *.
  destruct (truthy (Z.land (Z.lxor (state (reader r)) (status_state status))
                      (SCARD_STATE_PRESENT (reader r)))
            && truthy (Z.land (status_state status) (SCARD_STATE_PRESENT (reader r))))
    eqn:Hpresent.
  - pose proof Hpresent as Hp. apply andb_true_iff in Hp as [H1 _].
    pose proof (truthy_land _ _ H1) as H0.
    eexists. exists (on_status_connected (SCARD_SHARE_SHARED (reader r))).
    split.
    { unfold on_status. cbv zeta. rewrite H0, Hempty, Hpresent.
      unfold connect. rewrite (proj1 (modes_known _)). cbn [with_card reader].
      destruct (SCARD_SHARE_SHARED (reader r) =? 0) eqn:E; [lia | reflexivity]. }
    destruct (status_atr status) as [a|]; cbn [atr standard card_type uid data empty_card fmap option_fmap option_map];
      (split; [reflexivity|]); (split; [reflexivity|]); (split; [reflexivity|]);
      (split; [reflexivity|]); (split; [reflexivity|]); (split;
        [ intros p r'; unfold on_status_connected, connect_callback;
          cbn [with_connection autoProcessing card];
          destruct (autoProcessing r'); reflexivity
        | intros err r'; eexists; reflexivity ]).
  - unfold on_status. cbv zeta. rewrite Hempty, Hpresent.
    destruct (truthy (Z.lxor _ _)); reflexivity.
Qed.

Lemma card_inserted_witness :
  ∃ c k,
    on_status (new_Reader acr1252)
      {| status_state := 0x20; status_atr := Some [x3b; x8f; x80; x01; x80; x4f] |}
    = StatusAwaitsConnect (with_card (Some c) (new_Reader acr1252)) [] 2 None k
    ∧ standard c = Some TAG_ISO_14443_3.
Proof.
  destruct (card_inserted (new_Reader acr1252)
              {| status_state := 0x20;
                 status_atr := Some [x3b; x8f; x80; x01; x80; x4f] |}
              eq_refl ltac:(discriminate))
    as (c & k & H1 & _ & H3 & _).
  exists c, k. split; [exact H1 | exact H3].
Defined.

(** *** The tag handlers *)

Lemma uid_response_ok (body : Buffer) (c : Card) (r : Reader) :
  card r = Some c ->
  handle_Iso_14443_3_Tag_response (Fulfilled (body ++ [x90; x00])) r
  = (with_card (Some (with_uid (Buffer_toString_hex body) c)) r,
     [emit "card" (CardPayload (with_uid (Buffer_toString_hex body) c))]).
Proof.
  intros Hc. unfold handle_Iso_14443_3_Tag_response.
  rewrite blen_app_two, slice_status, slice_payload, Hc.
  pose proof (blen_nonneg body).
  destruct (blen body + 2 <? 2) eqn:E; [lia | reflexivity].
Qed.

(** A response of two bytes or more ends with 0x9000, or has another
    status word. *)
Lemma status_word_cases (response : Buffer) :
  2 <= blen response ->
  (∃ body, response = body ++ [x90; x00])
  ∨ (∃ code, readUInt16BE (Buffer_slice response (-2) None) 0 = Some code
             ∧ code ≠ 0x9000 ∧ ∀ body, response ≠ body ++ [x90; x00]).
Proof.
  intros Hlen.
  destruct (split_last_two response Hlen) as (hi & lo & Hsplit).
  destruct (decide (hi = x90 ∧ lo = x00)) as [[-> ->]|Hne].
  - left. eauto.
  - right. exists (byte_val hi * 256 + byte_val lo).
    split; [rewrite Hsplit, slice_status; reflexivity|]. split.
    + intros Heq. apply Hne.
      pose proof (byte_val_range hi). pose proof (byte_val_range lo).
      split; apply byte_val_inj; change (byte_val x90) with 144;
        change (byte_val x00) with 0; lia.
    + intros body H. rewrite H in Hsplit.
      apply app_inj_2 in Hsplit as [_ H']; [|reflexivity].
      inversion H'; subst. apply Hne. auto.
Qed.

Lemma uid_response_cases (s : Settled Buffer) (r : Reader) :
  (∃ body c, s = Fulfilled (body ++ [x90; x00]) ∧ card r = Some c)
  ∨ ((∃ e, handle_Iso_14443_3_Tag_response s r = (r, [emit "error" (ErrorPayload e)]))
     ∧ ¬ (∃ body c, s = Fulfilled (body ++ [x90; x00]) ∧ card r = Some c)).
Proof.
  destruct s as [response|err].
  2:{ right. split; [eexists; reflexivity | intros (b & c & H & _); discriminate]. }
  destruct (blen response <? 2) eqn:Hlen.
  { right. split.
    - unfold handle_Iso_14443_3_Tag_response. rewrite Hlen. eexists. reflexivity.
    - intros (b & c & H & _). inversion H; subst.
      rewrite blen_app_two in Hlen. pose proof (blen_nonneg b). lia. }
  destruct (status_word_cases response ltac:(lia)) as [[body ->]|(code & Hcode & Hne & Hno)].
  - destruct (card r) as [c|] eqn:Hc; [left; eauto|].
    right. split; [|intros (b & c & _ & H); discriminate].
    unfold handle_Iso_14443_3_Tag_response. rewrite Hlen, slice_status, Hc.
    eexists. reflexivity.
  - right. split; [|intros (b & c & H & _); inversion H; subst; eapply Hno; eauto].
    unfold handle_Iso_14443_3_Tag_response. rewrite Hlen, Hcode.
    assert ((code =? 0x9000) = false) as -> by lia. eexists. reflexivity.
Qed.

(** X12. Every answer to the Get UID packet gives exactly one event,
    [card] or [error]. It is [card] exactly when the response ends with
    the status word 0x9000 and the reader still has a card; the UID of
    the card is then the hexadecimal form of the bytes before the status
    word, and the event carries the card. In every other case the reader
    is left as it was. The connection is never touched. *)
Theorem uid_handler_emits_once (s : Settled Buffer) (r : Reader) :
  ∃ ev,
    snd (handle_Iso_14443_3_Tag_response s r) = [ev]
    ∧ (event ev = "card" ∨ event ev = "error")
    ∧ (event ev = "card" ↔
       ∃ body c, s = Fulfilled (body ++ [x90; x00]) ∧ card r = Some c)
    ∧ (∀ body c, s = Fulfilled (body ++ [x90; x00]) -> card r = Some c ->
         handle_Iso_14443_3_Tag_response s r
         = (with_card (Some (with_uid (Buffer_toString_hex body) c)) r,
            [emit "card" (CardPayload (with_uid (Buffer_toString_hex body) c))]))
    ∧ (event ev = "error" -> fst (handle_Iso_14443_3_Tag_response s r) = r)
    ∧ connection (fst (handle_Iso_14443_3_Tag_response s r)) = connection r.
Proof.
  assert (∀ body c, s = Fulfilled (body ++ [x90; x00]) -> card r = Some c ->
            handle_Iso_14443_3_Tag_response s r
            = (with_card (Some (with_uid (Buffer_toString_hex body) c)) r,
               [emit "card" (CardPayload (with_uid (Buffer_toString_hex body) c))]))
    as Hok by (intros body c -> Hc; apply uid_response_ok; exact Hc).
  destruct (uid_response_cases s r) as [(body & c & Hs & Hc)|[[e He] Hno]].
  - exists (emit "card" (CardPayload (with_uid (Buffer_toString_hex body) c))).
    rewrite (Hok body c Hs Hc).
    split; [reflexivity|]. split; [left; reflexivity|].
    split; [split; [eauto | reflexivity]|].
    split; [intros b c' H1 H2; rewrite <- (Hok b c' H1 H2), (Hok body c Hs Hc);
            reflexivity|].
    split; [discriminate | reflexivity].
  - exists (emit "error" (ErrorPayload e)). rewrite He.
    split; [reflexivity|]. split; [right; reflexivity|].
    split; [split; [discriminate | intros H; destruct (Hno H)]|].
    split; [intros b c H1 H2; exfalso; apply Hno; eauto|].
    split; reflexivity.
Qed.

Lemma SelectAID_packet_bytes (aid : Buffer) :
  SelectAID_packet aid = [x00; xa4; x04; x00; u8 (blen aid)] ++ aid ++ [x00].
Proof.
  unfold SelectAID_packet, Buffer_from_array.
  rewrite !map_app. change (map u8 (byte_val <$> aid)) with (Buffer_from_array (byte_val <$> aid)).
  rewrite Buffer_from_array_vals. reflexivity.
Qed.

Lemma aid_response_ok (aid body : Buffer) (r : Reader) :
  handle_Iso_14443_4_Tag_response aid (Fulfilled (body ++ [x90; x00])) r
  = (r, [emit "card" (CardPayload (with_data body (default empty_card (card r))))]).
Proof.
  unfold handle_Iso_14443_4_Tag_response.
  rewrite slice_status, slice_payload, blen_app_two.
  pose proof (blen_nonneg body).
  destruct (blen body + 2 <? 2) eqn:E; [lia|].
  destruct ((blen body + 2 =? 2) && _) eqn:E2; [|reflexivity].
  apply andb_true_iff in E2 as [E2 E3]. apply bool_decide_eq_true in E3.
  assert (body = []) as -> by (destruct body; [reflexivity | apply Z.eqb_eq in E2; unfold blen in E2; cbn [length] in E2; lia]).
  discriminate.
Qed.

(** X13. Every answer to the Select packet gives exactly one event,
    [card] or [error], and leaves the reader as it was. The event is
    [card] exactly when the response ends with the status word 0x9000;
    it carries a copy of the card with the bytes before the status word
    as [data], while the card of the reader gets no data. The answer
    6A 82 alone gives the error that names the AID in upper case. *)
Theorem aid_handler_emits_once (aid : Buffer) (s : Settled Buffer) (r : Reader) :
  ∃ ev,
    handle_Iso_14443_4_Tag_response aid s r = (r, [ev])
    ∧ (event ev = "card" ∨ event ev = "error")
    ∧ (event ev = "card" ↔ ∃ body, s = Fulfilled (body ++ [x90; x00]))
    ∧ (∀ body, s = Fulfilled (body ++ [x90; x00]) ->
         ev = emit "card" (CardPayload (with_data body (default empty_card (card r)))))
    ∧ (s = Fulfilled [x6a; x82] ->
         ev = emit "error"
                (ErrorPayload
                   (MkError PlainError None
                      (Some ("Not found response. Tag not compatible with AID "
                             +:+ toUpperCase (Buffer_toString_hex aid) +:+ "."))
                      None))).
Proof.
  assert ((∃ body, s = Fulfilled (body ++ [x90; x00]))
          ∨ ((∃ e, handle_Iso_14443_4_Tag_response aid s r
                   = (r, [emit "error" (ErrorPayload e)])
                   ∧ (s = Fulfilled [x6a; x82] ->
                      e = MkError PlainError None
                            (Some ("Not found response. Tag not compatible with AID "
                                   +:+ toUpperCase (Buffer_toString_hex aid) +:+ "."))
                            None))
             ∧ ¬ (∃ body, s = Fulfilled (body ++ [x90; x00])))) as Hcases.
  { destruct s as [response|err].
    2:{ right. split; [eexists; split; [reflexivity | discriminate]
                      | intros (b & H); discriminate]. }
    unfold handle_Iso_14443_4_Tag_response.
    destruct ((blen response =? 2)
              && bool_decide (readUInt16BE response 0 = Some 0x6a82)) eqn:Hnf.
    { right. split; [eexists; split; reflexivity|].
      intros (b & H). inversion H; subst.
      apply andb_true_iff in Hnf as [E2 E3]. apply bool_decide_eq_true in E3.
      rewrite blen_app_two in E2.
      assert (b = []) as -> by (destruct b; [reflexivity | apply Z.eqb_eq in E2; unfold blen in E2; cbn [length] in E2; lia]).
      discriminate. }
    assert (response ≠ [x6a; x82]) as Hne by (intros ->; discriminate).
    destruct (blen response <? 2) eqn:Hlen.
    { right. split; [eexists; split; [reflexivity | congruence]|].
      intros (b & H). inversion H; subst.
      rewrite blen_app_two in Hlen. pose proof (blen_nonneg b). lia. }
    destruct (status_word_cases response ltac:(lia))
      as [[body ->]|(code & Hcode & Hcne & Hno)]; [left; eauto|].
    right. rewrite Hcode. assert ((code =? 0x9000) = false) as -> by lia.
    split; [eexists; split; [reflexivity | congruence]|].
    intros (b & H). inversion H; subst. eapply Hno; eauto. }
  destruct Hcases as [[body ->]|[(e & He & H6a) Hno]].
  - rewrite aid_response_ok. eexists. split; [reflexivity|].
    split; [left; reflexivity|]. split; [split; eauto|].
    split.
    + intros b H. inversion H as [H']. apply app_inj_2 in H' as [-> _]; reflexivity.
    + intros H. inversion H as [H'].
      apply (app_inj_2 body [] [x90; x00] [x6a; x82] eq_refl) in H' as [_ H'].
      discriminate.
  - rewrite He. eexists. split; [reflexivity|].
    split; [right; reflexivity|].
    split; [split; [discriminate | intros H; destruct (Hno H)]|].
    split; [intros b H; exfalso; apply Hno; eauto|].
    intros H. rewrite (H6a H). reflexivity.
Qed.

(** X14. An AID given as a string always counts as set. After the
    setter was given a string, the handler of ISO 14443-4 tags on a
    reader with a card and a connection hands the Select packet to the
    provider: 00 A4 04 00, the number of decoded bytes, the decoded
    bytes, 00, with room for 40 bytes of response. For the empty string,
    or a string that does not start with two hexadecimal digits, that is
    the packet 00 A4 04 00 00 00: the handler does not report that the
    AID is missing, which it does on a reader whose AID was never set. *)
Theorem string_aid_is_always_set (r : Reader) (c : Card) (conn : ReaderConnection)
        (s : string) :
  card r = Some c -> connection r = Some conn ->
  ∃ r',
    set_aid r (ArgString s) = inl r'
    ∧ handle_Iso_14443_4_Tag r'
      = TagAwaits ([x00; xa4; x04; x00; u8 (blen (Buffer_from_hex s))]
                     ++ Buffer_from_hex s ++ [x00])
          40 (protocol conn) (handle_Iso_14443_4_Tag_response (Buffer_from_hex s))
    ∧ (stops s = true ->
       handle_Iso_14443_4_Tag r'
       = TagAwaits [x00; xa4; x04; x00; x00; x00] 40 (protocol conn)
           (handle_Iso_14443_4_Tag_response []))
    ∧ (_aid r = None ->
       handle_Iso_14443_4_Tag r
       = TagReturns None
           [emit "error"
              (ErrorPayload
                 (MkError PlainError None
                    (Some "Cannot process ISO 14443-4 tag because AID was not set.")
                    None))]).
Proof.
  intros Hc Hconn. eexists. split; [reflexivity|].
  assert (handle_Iso_14443_4_Tag (with_aid (Some (AidBuffer (Buffer_from_hex s))) r)
          = TagAwaits ([x00; xa4; x04; x00; u8 (blen (Buffer_from_hex s))]
                         ++ Buffer_from_hex s ++ [x00])
              40 (protocol conn) (handle_Iso_14443_4_Tag_response (Buffer_from_hex s)))
    as Hsel.
  { unfold handle_Iso_14443_4_Tag, transmit.
    cbn [with_aid card connection _aid]. rewrite Hc, Hconn.
    rewrite SelectAID_packet_bytes. reflexivity. }
  split; [exact Hsel|]. split.
  - intros Hstops. rewrite Hsel, (Buffer_from_hex_stops s Hstops). reflexivity.
  - intros Haid. unfold handle_Iso_14443_4_Tag. rewrite Hc, Hconn, Haid. reflexivity.
Qed.

Lemma string_aid_is_always_set_witness :
  let r := with_connection (Some {| conn_type := 2; protocol := 2 |})
             (with_card (Some empty_card) (new_Reader acr1252)) in
  ∃ r',
    set_aid r (ArgString "F222222222") = inl r'
    ∧ handle_Iso_14443_4_Tag r'
      = TagAwaits [x00; xa4; x04; x00; x05; xf2; x22; x22; x22; x22; x00]
          40 2 (handle_Iso_14443_4_Tag_response [xf2; x22; x22; x22; x22]).
Proof.
  intros r.
  destruct (string_aid_is_always_set r empty_card {| conn_type := 2; protocol := 2 |}
              "F222222222" eq_refl eq_refl) as (r' & H1 & H2 & _).
  exists r'. split; [exact H1 | exact H2].
Defined.

(** X15. A card of ISO 14443-3 from insertion to the [card] event. On a
    reader with [autoProcessing] on, when the status reports a card
    whose ATR has 0x4f at index 5 and the provider connects, the handler
    emits nothing before it has the UID: it hands the packet
    FF CA 00 00 00 to the provider over the new connection, and on a
    response that ends with 0x9000 emits one [card] event with the ATR,
    the standard, the same value as type, and the bytes before the
    status word in hexadecimal as UID. The reader then holds that card
    and the connection. *)
Theorem inserted_card_reports_uid (r : Reader) (status : Status) (a : Buffer)
        (p : option Z) (body : Buffer) :
  bit_rose r status (SCARD_STATE_EMPTY (reader r)) = false ->
  bit_rose r status (SCARD_STATE_PRESENT (reader r)) = true ->
  SCARD_SHARE_SHARED (reader r) ≠ 0 ->
  autoProcessing r = true ->
  status_atr status = Some a -> a !! 5%nat = Some x4f ->
  let c := {| atr := Some a; standard := Some TAG_ISO_14443_3;
              card_type := Some TAG_ISO_14443_3;
              uid := Some (Buffer_toString_hex body); data := None |} in
  let conn := {| conn_type := SCARD_SHARE_SHARED (reader r);
                 protocol := default 0 p |} in
  ∃ r1 k,
    on_status r status
    = StatusAwaitsConnect r1 [] (SCARD_SHARE_SHARED (reader r)) None k
    ∧ ∃ r2 k',
        k (inr p) r1
        = (r2, [], Some (HandlePromise
                           (TagAwaits [xff; xca; x00; x00; x00] 12 (default 0 p) k')))
        ∧ ∃ r3,
            k' (Fulfilled (body ++ [x90; x00])) r2 = (r3, [emit "card" (CardPayload c)])
            ∧ card r3 = Some c ∧ connection r3 = Some conn.
Proof.
  intros Hempty Hpresent Hshare Hauto Hatr H5 c conn. unfold bit_rose in *.
  pose proof Hpresent as Hp. apply andb_true_iff in Hp as [H1 _].
  pose proof (truthy_land _ _ H1) as H0.
  assert (selectStandardByAtr a = TAG_ISO_14443_3) as Hstd
    by (unfold selectStandardByAtr; rewrite H5; reflexivity).
  eexists. eexists. split.
  { unfold on_status. cbv zeta. rewrite H0, Hempty, Hpresent, Hatr, Hstd.
    unfold connect. rewrite (proj1 (modes_known _)). cbn [with_card reader].
    destruct (SCARD_SHARE_SHARED (reader r) =? 0) eqn:E; [lia | reflexivity]. }
  eexists. eexists. split.
  { unfold on_status_connected, connect_callback.
    cbn [with_connection with_card autoProcessing]. rewrite Hauto. cbn [negb].
    unfold handleTag, handle_Iso_14443_3_Tag, transmit.
    cbn [card connection standard protocol]. reflexivity. }
  eexists. split; [erewrite uid_response_ok by reflexivity; reflexivity|].
  split; reflexivity.
Qed.

Lemma inserted_card_reports_uid_witness :
  ∃ r1 k,
    on_status (new_Reader acr1252)
      {| status_state := 0x20; status_atr := Some [x3b; x8f; x80; x01; x80; x4f] |}
    = StatusAwaitsConnect r1 [] 2 None k
    ∧ ∃ r2 k',
        k (inr (Some 2)) r1
        = (r2, [], Some (HandlePromise (TagAwaits [xff; xca; x00; x00; x00] 12 2 k')))
        ∧ ∃ r3,
            k' (Fulfilled ([x04; xa1; xb2; xc3] ++ [x90; x00])) r2
            = (r3, [emit "card"
                      (CardPayload
                         {| atr := Some [x3b; x8f; x80; x01; x80; x4f];
                            standard := Some TAG_ISO_14443_3;
                            card_type := Some TAG_ISO_14443_3;
                            uid := Some "04a1b2c3"; data := None |})]).
Proof.
  destruct (inserted_card_reports_uid (new_Reader acr1252)
              {| status_state := 0x20;
                 status_atr := Some [x3b; x8f; x80; x01; x80; x4f] |}
              [x3b; x8f; x80; x01; x80; x4f] (Some 2) [x04; xa1; xb2; xc3]
              eq_refl eq_refl ltac:(discriminate) eq_refl eq_refl eq_refl)
    as (r1 & k & H1 & r2 & k' & H2 & r3 & H3 & _).
  exists r1, k. split; [exact H1|]. exists r2, k'. split; [exact H2|].
  exists r3. exact H3.
Defined.

(** *** Keys as strings *)

Lemma unhex_lower (c : ascii) (h : Z) :
  unhex c = Some h ->
  0 <= h < 16 ∧ hex_digit h = lower_char c ∧ unhex (lower_char c) = Some h.
Proof.
  destruct c as [[] [] [] [] [] [] [] []]; intros H; vm_compute in H;
    try discriminate; injection H as <-; (split; [lia | split; reflexivity]).
Qed.

Lemma unhex_lower_None (c : ascii) : unhex c = None -> unhex (lower_char c) = None.
Proof.
  destruct c as [[] [] [] [] [] [] [] []]; intros H; vm_compute in H;
    try discriminate; reflexivity.
Qed.

Lemma hex_digits_of_byte (x : byte) :
  unhex (hex_digit (byte_val x / 16)) = Some (byte_val x / 16)
  ∧ unhex (hex_digit (byte_val x mod 16)) = Some (byte_val x mod 16)
  ∧ lower_char (hex_digit (byte_val x / 16)) = hex_digit (byte_val x / 16)
  ∧ lower_char (hex_digit (byte_val x mod 16)) = hex_digit (byte_val x mod 16).
Proof. destruct x; vm_compute; repeat split; reflexivity. Qed.

(** The hexadecimal form of the bytes a string of hexadecimal pairs
    decodes to is the string in lower case. *)
Lemma hex_round_trip (s : string) :
  hex_pairs s = true -> Buffer_toString_hex (Buffer_from_hex s) = toLowerCase s.
Proof.
  induction s as [| a | a b s IH] using string_pair_ind; [reflexivity | discriminate |].
  cbn [hex_pairs Buffer_from_hex].
  destruct (unhex a) as [h|] eqn:Ha; [|discriminate].
  destruct (unhex b) as [l|] eqn:Hb; [|discriminate].
  intros Hs. cbn [Buffer_toString_hex toLowerCase].
  destruct (unhex_lower a h Ha) as (Hh & Hda & _).
  destruct (unhex_lower b l Hb) as (Hl & Hdb & _).
  rewrite byte_val_u8, (Z.mod_small (16 * h + l)) by lia.
  replace ((16 * h + l) / 16) with h
    by (apply Z.div_unique with (r := l); lia).
  replace ((16 * h + l) mod 16) with l
    by (apply Z.mod_unique with (q := h); lia).
  rewrite Hda, Hdb, (IH Hs). reflexivity.
Qed.

Lemma hex_of_buffer (b : Buffer) :
  hex_pairs (Buffer_toString_hex b) = true
  ∧ toLowerCase (Buffer_toString_hex b) = Buffer_toString_hex b
  ∧ Buffer_from_hex (Buffer_toString_hex b) = b.
Proof.
  induction b as [|x b (IH1 & IH2 & IH3)]; [repeat split; reflexivity|].
  destruct (hex_digits_of_byte x) as (H1 & H2 & H3 & H4).
  cbn [Buffer_toString_hex hex_pairs toLowerCase Buffer_from_hex].
  rewrite H1, H2, H3, H4, IH1, IH2, IH3.
  repeat split. f_equal.
  pose proof (Z.div_mod (byte_val x) 16 ltac:(lia)) as Hdm.
  rewrite <- Hdm. apply u8_byte_val.
Qed.

Lemma hex_pairs_lower (s : string) : hex_pairs (toLowerCase s) = hex_pairs s.
Proof.
  induction s as [| a | a b s IH] using string_pair_ind; [reflexivity | reflexivity |].
  cbn [toLowerCase hex_pairs].
  destruct (unhex a) as [h|] eqn:Ha.
  - destruct (unhex_lower a h Ha) as (_ & _ & ->).
    destruct (unhex b) as [l|] eqn:Hb.
    + destruct (unhex_lower b l Hb) as (_ & _ & ->). exact IH.
    + rewrite (unhex_lower_None b Hb). reflexivity.
  - rewrite (unhex_lower_None a Ha). reflexivity.
Qed.

(** What [findKeyNumber] answers for a key. *)
Lemma findKeyNumber_cases (r : Reader) (key : string) :
  findKeyNumber r (Some key)
  = match key0 (keyStorage r) with
    | Some v =>
        if bool_decide (toLowerCase (KeyVal_toString v) = toLowerCase key) then Some 0
        else match key1 (keyStorage r) with
             | Some w =>
                 if bool_decide (toLowerCase (KeyVal_toString w) = toLowerCase key)
                 then Some 1 else None
             | None => None
             end
    | None =>
        match key1 (keyStorage r) with
        | Some w =>
            if bool_decide (toLowerCase (KeyVal_toString w) = toLowerCase key)
            then Some 1 else None
        | None => None
        end
    end.
Proof.
  unfold findKeyNumber, Object_keys, get_key. cbn.
  destruct (key0 (keyStorage r)) as [v|]; [destruct (bool_decide _); [reflexivity|]|];
    (destruct (key1 (keyStorage r)) as [w|]; [destruct (bool_decide _)|]; reflexivity).
Qed.

Lemma keys_set_key (ks : KeyStorage) (v : KeyVal) :
  key0 (set_key ks 0 v) = Some v ∧ key1 (set_key ks 0 v) = key1 ks
  ∧ key0 (set_key ks 1 v) = key0 ks ∧ key1 (set_key ks 1 v) = Some v.
Proof. repeat split; reflexivity. Qed.

(** X16. A key that was loaded is found again. When the answer to the
    Load Authentication Keys packet starts with 0x9000, the key given as
    a string of hexadecimal pairs is stored in its slot, and
    [findKeyNumber] finds it under every spelling of the string that
    differs in the case of the letters only: it answers a slot whose key
    has this text, the slot just written unless slot 0 held such a key
    already. *)
Theorem loaded_key_is_found (r : Reader) (k : Z) (s s' : string) (body : Buffer) :
  k = 0 ∨ k = 1 -> hex_pairs s = true -> toLowerCase s' = toLowerCase s ->
  ∃ kv r' n,
    normalize_key (KeyString s) = inl kv
    ∧ loadAuthenticationKey_resume k kv (Fulfilled ([x90; x00] ++ body)) r
      = (Fulfilled (VNumber k), r')
    ∧ get_key (keyStorage r') k = Some (StoredBuffer (Buffer_from_hex s))
    ∧ Buffer_toString_hex (Buffer_from_hex s) = toLowerCase s
    ∧ findKeyNumber r' (Some s') = Some n
    ∧ 0 <= n <= k
    ∧ (∃ v, get_key (keyStorage r') n = Some v
            ∧ toLowerCase (KeyVal_toString v) = toLowerCase s)
    ∧ (findKeyNumber r (Some s') = None -> n = k).
Proof.
  intros Hk Hs Hcase.
  pose proof (hex_round_trip s Hs) as Hrt.
  assert (toLowerCase (toLowerCase s) = toLowerCase s) as Hidem.
  { rewrite <- Hrt. apply (hex_of_buffer (Buffer_from_hex s)). }
  set (kv := StoredBuffer (Buffer_from_hex s)).
  assert (bool_decide (toLowerCase (KeyVal_toString kv) = toLowerCase s') = true)
    as Hself.
  { apply bool_decide_eq_true. subst kv. cbn [KeyVal_toString].
    rewrite Hrt, Hidem. congruence. }
  assert (toLowerCase (KeyVal_toString kv) = toLowerCase s) as Htext.
  { subst kv. cbn [KeyVal_toString]. rewrite Hrt. exact Hidem. }
  destruct (keys_set_key (keyStorage r) kv) as (K00 & K01 & K10 & K11).
  exists kv, (with_keyStorage (set_key (keyStorage r) k kv) r).
  assert (loadAuthenticationKey_resume k kv (Fulfilled ([x90; x00] ++ body)) r
          = (Fulfilled (VNumber k), with_keyStorage (set_key (keyStorage r) k kv) r))
    as Hload by reflexivity.
  assert (get_key (keyStorage (with_keyStorage (set_key (keyStorage r) k kv) r)) k
          = Some kv) as Hget by (apply get_set_key; exact Hk).
  rewrite (findKeyNumber_cases r s').
  rewrite (findKeyNumber_cases (with_keyStorage (set_key (keyStorage r) k kv) r) s').
  cbn [with_keyStorage keyStorage].
  destruct Hk as [-> | ->].
  - exists 0. rewrite K00, Hself. repeat split; try reflexivity; try lia; try exact Hrt.
    exists kv. split; [exact Hget | exact Htext].
  - rewrite K10, K11.
    destruct (key0 (keyStorage r)) as [v|] eqn:H0.
    + destruct (bool_decide (toLowerCase (KeyVal_toString v) = toLowerCase s')) eqn:Hv.
      * exists 0. repeat split; try reflexivity; try lia; try discriminate; try exact Hrt.
        exists v. split.
        -- unfold get_key. simpl (0 =? 0). cbn iota. cbn [with_keyStorage keyStorage].
           exact K10.
        -- apply bool_decide_eq_true in Hv. congruence.
      * exists 1. rewrite Hself. repeat split; try reflexivity; try lia; try exact Hrt.
        exists kv. split; [exact Hget | exact Htext].
    + exists 1. rewrite Hself. repeat split; try reflexivity; try lia; try exact Hrt.
      exists kv. split; [exact Hget | exact Htext].
Qed.

Lemma loaded_key_is_found_witness :
  ∃ kv r' n,
    normalize_key (KeyString "A0A1A2A3A4A5") = inl kv
    ∧ loadAuthenticationKey_resume 1 kv (Fulfilled ([x90; x00] ++ [])) (new_Reader acr1252)
      = (Fulfilled (VNumber 1), r')
    ∧ findKeyNumber r' (Some "a0a1a2a3a4a5") = Some n
    ∧ n = 1.
Proof.
  destruct (loaded_key_is_found (new_Reader acr1252) 1 "A0A1A2A3A4A5" "a0a1a2a3a4a5" []
              ltac:(right; reflexivity) eq_refl eq_refl)
    as (kv & r' & n & H1 & H2 & _ & _ & H3 & _ & _ & H4).
  exists kv, r', n. repeat split; [exact H1 | exact H2 | exact H3 |].
  apply H4. reflexivity.
Defined.

(** A call of [authenticate] with the name of a member of
    [Object.prototype] as key, the key in no slot and the table without
    an entry of its own for it: the call starts no load and goes on, in
    a job of its own, with that member as key number. *)
Lemma authenticate_inherited (m : Loop) (b kt : Z) (key : string) (o : bool) :
  findKeyNumber (this m) (Some key) = None ->
  get_pending (this m) key = Inherited ->
  let t := length (tasks m) in
  let m' := snd (authenticate b kt key o m) in
  fst (authenticate b kt key o m) = t
  ∧ call_of <$> tasks m' = (call_of <$> tasks m) ++ [(Authenticate b kt key o, None)]
  ∧ this m' = this m
  ∧ sent m' = sent m
  ∧ jobs m' = jobs m ++ [Resume t (FromPromise (Fulfilled VObject))]
  ∧ status_of m' t = Some (Suspended (AuthenticateAwaitsLoad b kt key o)).
Proof.
  intros Hfind Hinh t m'. subst t m'. unfold authenticate.
  destruct (alloc (Authenticate b kt key o) None m) as [t m1] eqn:Ha.
  assert (t = length (tasks m) ∧ this m1 = this m ∧ sent m1 = sent m
          ∧ jobs m1 = jobs m
          ∧ tasks m1 = tasks m ++ [{| invoked := Authenticate b kt key o;
                                      caller := None; status := Running;
                                      reactions := [] |}])
    as (-> & Hthis & Hsent & Hjobs & Htasks).
  { unfold alloc in Ha. inversion Ha; subst. auto. }
  cbn [fst snd]. rewrite Hthis, Hfind, Hinh.
  split; [reflexivity|]. split.
  { unfold await_value, enqueue. cbn [tasks set_jobs set_status set_tasks].
    rewrite (fmap_alter_same call_of) by reflexivity.
    rewrite Htasks, fmap_app. reflexivity. }
  split; [exact Hthis|]. split; [exact Hsent|].
  split; [unfold await_value, enqueue; cbn [jobs set_jobs set_status set_tasks];
          rewrite Hjobs; reflexivity|].
  apply status_of_await_value_eq. rewrite Htasks, length_app. simpl. lia.
Qed.

(** X17. A key string with anything but pairs of hexadecimal digits is
    never found. [loadAuthenticationKey] accepts such a string when its
    first twelve characters are hexadecimal digits, since decoding stops
    at the first other character, and stores the six bytes; but
    [findKeyNumber] compares texts, and no text of a stored Buffer
    equals the string. So with Buffers in the slots the string is not
    found, before the load and after it. A call of [authenticate] with
    it loads the key again each time the read of the table of loads
    yields nothing; when the string is the name of a member of
    [Object.prototype] and the table has no entry of its own for it, the
    read yields that member and the call starts no load. *)
Theorem key_with_other_characters_is_never_found (r : Reader) (s : string) :
  hex_pairs s = false ->
  (∀ k l, get_key (keyStorage r) k ≠ Some (StoredArray l)) ->
  findKeyNumber r (Some s) = None
  ∧ (∀ k body,
       findKeyNumber
         (snd (loadAuthenticationKey_resume k (StoredBuffer (Buffer_from_hex s))
                 (Fulfilled ([x90; x00] ++ body)) r))
         (Some s) = None)
  ∧ (∀ m b kt o,
       this m = r -> get_pending r s = Undefined ->
       ∃ p task,
         pendingLoadAuthenticationKey (this (snd (authenticate b kt s o m))) !! s = Some p
         ∧ tasks (snd (authenticate b kt s o m)) !! p = Some task
         ∧ invoked task = LoadAuthenticationKey (target_keyNumber r) (KeyString s))
  ∧ (∀ m b kt o,
       this m = r -> get_pending r s = Inherited ->
       call_of <$> tasks (snd (authenticate b kt s o m))
       = (call_of <$> tasks m) ++ [(Authenticate b kt s o, None)]
       ∧ this (snd (authenticate b kt s o m)) = r
       ∧ sent (snd (authenticate b kt s o m)) = sent m).
Proof.
  intros Hs Hbuf.
  assert (∀ b, bool_decide (toLowerCase (KeyVal_toString (StoredBuffer b))
                            = toLowerCase s) = false) as Hno.
  { intros b. apply bool_decide_eq_false. cbn [KeyVal_toString]. intros Heq.
    destruct (hex_of_buffer b) as (Hp & Hl & _).
    rewrite Hl in Heq. rewrite <- (hex_pairs_lower s), <- Heq, Hp in Hs. discriminate. }
  assert (∀ r', (∀ k l, get_key (keyStorage r') k ≠ Some (StoredArray l)) ->
                findKeyNumber r' (Some s) = None) as Hfind.
  { intros r' Hb. rewrite findKeyNumber_cases.
    pose proof (Hb 0) as H0. pose proof (Hb 1) as H1.
    unfold get_key in H0, H1. simpl in H0, H1.
    destruct (key0 (keyStorage r')) as [[b0|l0]|]; [rewrite Hno | destruct (H0 l0 eq_refl) |];
      (destruct (key1 (keyStorage r')) as [[b1|l1]|];
         [rewrite Hno; reflexivity | destruct (H1 l1 eq_refl) | reflexivity]). }
  split; [apply Hfind; exact Hbuf|]. split; [|split].
  - intros k body. apply Hfind. intros k' l.
    cbn [loadAuthenticationKey_resume readUInt16BE app lookup list_lookup snd].
    change (byte_val x90 * 256 + byte_val x00) with 0x9000. simpl (negb _).
    cbn iota. cbn [snd with_keyStorage keyStorage].
    unfold set_key, get_key.
    pose proof (Hbuf 0 l) as H0. pose proof (Hbuf 1 l) as H1.
    unfold get_key in H0, H1. simpl in H0, H1.
    destruct (k =? 0); [|destruct (k =? 1)]; cbn [key0 key1];
      destruct (k' =? 0); try congruence; destruct (k' =? 1); congruence.
  - intros m b kt o Hm Hpending. subst r.
    destruct (authenticate_initiates m b kt s o) as (Ht & Hp & Hcalls & _);
      [apply Hfind; exact Hbuf | exact Hpending |].
    exists (S (length (tasks m))).
    assert (call_of <$> tasks (snd (authenticate b kt s o m)) !! S (length (tasks m))
            = Some (LoadAuthenticationKey (target_keyNumber (this m)) (KeyString s),
                    Some (length (tasks m)))) as Hcall.
    { rewrite <- list_lookup_fmap, Hcalls.
      rewrite lookup_app_r by (rewrite length_fmap; lia).
      rewrite length_fmap. replace (S (length (tasks m)) - length (tasks m))%nat with 1%nat by lia.
      reflexivity. }
    destruct (tasks (snd (authenticate b kt s o m)) !! S (length (tasks m)))
      as [task|]; [|discriminate].
    exists task. split; [rewrite Hp; apply lookup_insert_eq|].
    split; [reflexivity|]. inversion Hcall. reflexivity.
  - intros m b kt o Hm Hinh. subst r.
    destruct (authenticate_inherited m b kt s o) as (_ & H1 & H2 & H3 & _);
      [apply Hfind; exact Hbuf | exact Hinh |].
    auto.
Qed.

Lemma key_with_other_characters_is_never_found_witness :
  blen (Buffer_from_hex "FFFFFFFFFFFF;") = 6
  ∧ findKeyNumber
      (snd (loadAuthenticationKey_resume 0 (StoredBuffer (Buffer_from_hex "FFFFFFFFFFFF;"))
              (Fulfilled ([x90; x00] ++ [])) (new_Reader acr1252)))
      (Some "FFFFFFFFFFFF;") = None.
Proof.
  split; [reflexivity|].
  apply (key_with_other_characters_is_never_found (new_Reader acr1252) "FFFFFFFFFFFF;"
           eq_refl).
  intros k l. unfold get_key. simpl. destruct (k =? 0); [|destruct (k =? 1)]; discriminate.
Defined.

(** *** [authenticate] with a key that is stored, or being loaded *)

Lemma findKeyNumber_slot (r : Reader) (key : string) (n : Z) :
  findKeyNumber r (Some key) = Some n ->
  (n = 0 ∨ n = 1)
  ∧ ∃ v, get_key (keyStorage r) n = Some v
         ∧ toLowerCase (KeyVal_toString v) = toLowerCase key.
Proof.
  rewrite findKeyNumber_cases. unfold get_key.
  destruct (key0 (keyStorage r)) as [v|] eqn:H0.
  - destruct (bool_decide _) eqn:Hv.
    + intros H. inversion H; subst. split; [auto|]. exists v.
      apply bool_decide_eq_true in Hv. auto.
    + destruct (key1 (keyStorage r)) as [w|] eqn:H1; [|discriminate].
      destruct (bool_decide (toLowerCase (KeyVal_toString w) = _)) eqn:Hw; [|discriminate].
      intros H. inversion H; subst. split; [auto|]. exists w.
      apply bool_decide_eq_true in Hw. auto.
  - destruct (key1 (keyStorage r)) as [w|] eqn:H1; [|discriminate].
    destruct (bool_decide _) eqn:Hw; [|discriminate].
    intros H. inversion H; subst. split; [auto|]. exists w.
    apply bool_decide_eq_true in Hw. auto.
Qed.

Lemma authenticate_packet_bytes (b kt n : Z) (o : bool) :
  authenticate_packet b kt n o
  = if o then [xff; x88; x00; u8 b; u8 kt; u8 n]
    else [xff; x86; x00; x00; x05; x01; x00; u8 b; u8 kt; u8 n].
Proof. destruct o; reflexivity. Qed.

Lemma authenticate_transmit_connected (m : Loop) (t : TaskId) (b kt n : Z) (o : bool)
      (cd : Card) (conn : ReaderConnection) :
  card (this m) = Some cd -> connection (this m) = Some conn ->
  (t < length (tasks m))%nat ->
  let m' := authenticate_transmit t b kt n o m in
  sent m' = sent m ++ [ {| packet := {| tx_data := authenticate_packet b kt n o;
                                        tx_responseMaxLength := 2;
                                        tx_protocol := protocol conn |};
                           awaiter := t; answered := false |} ]
  ∧ status_of m' t
    = Some (Suspended (AuthenticateAwaitsTransmit (authenticate_packet b kt n o)))
  ∧ this m' = this m
  ∧ call_of <$> tasks m' = call_of <$> tasks m
  ∧ jobs m' = jobs m.
Proof.
  intros Hc Hconn Ht m'. subst m'. unfold authenticate_transmit.
  split; [|split; [|split; [apply this_await_transmit|split; [apply calls_await_transmit|]]]].
  - unfold transmit. rewrite Hc, Hconn. reflexivity.
  - unfold transmit. rewrite Hc, Hconn. cbn [await_transmit].
    change (status_of (set_status t
              (Suspended (AuthenticateAwaitsTransmit (authenticate_packet b kt n o))) m) t
            = Some (Suspended (AuthenticateAwaitsTransmit (authenticate_packet b kt n o)))).
    apply status_of_set_status_eq. exact Ht.
  - unfold transmit. rewrite Hc, Hconn. reflexivity.
Qed.

Lemma authenticate_outcome (s : Settled Buffer) :
  authenticate_after_transmit s = Fulfilled (VBoolean true)
  ↔ ∃ body, s = Fulfilled ([x90; x00] ++ body).
Proof.
  split.
  - destruct s as [response|err]; [|discriminate].
    unfold authenticate_after_transmit, readUInt16BE.
    destruct response as [|hi [|lo body]]; [discriminate | discriminate |].
    cbn [lookup list_lookup].
    destruct (negb (byte_val hi * 256 + byte_val lo =? 0x9000)) eqn:E; [discriminate|].
    intros _. exists body.
    pose proof (byte_val_range hi). pose proof (byte_val_range lo).
    assert (hi = x90 ∧ lo = x00) as [-> ->]; [|reflexivity].
    apply negb_false_iff, Z.eqb_eq in E.
    split; apply byte_val_inj; change (byte_val x90) with 144;
      change (byte_val x00) with 0; lia.
  - intros [body ->]. reflexivity.
Qed.

(** X18. [authenticate] with a key that is in a slot loads nothing. On
    a reader with a card and a connection, when [findKeyNumber] finds
    the key, the call starts no load, leaves the reader and the table of
    loads alone, and hands exactly one packet to the provider: the
    Authenticate packet with the block number, the key type and the
    number of the slot, which is 0 or 1. Its promise is fulfilled with
    [true] exactly when the response starts with 0x9000. *)
Theorem authenticate_uses_stored_key (m : Loop) (b kt : Z) (key : string) (o : bool)
        (n : Z) (cd : Card) (conn : ReaderConnection) :
  findKeyNumber (this m) (Some key) = Some n ->
  card (this m) = Some cd -> connection (this m) = Some conn ->
  let t := fst (authenticate b kt key o m) in
  let m' := snd (authenticate b kt key o m) in
  (n = 0 ∨ n = 1)
  ∧ call_of <$> tasks m' = (call_of <$> tasks m) ++ [(Authenticate b kt key o, None)]
  ∧ this m' = this m
  ∧ sent m'
    = sent m ++ [ {| packet :=
                       {| tx_data :=
                            if o then [xff; x88; x00; u8 b; u8 kt; u8 n]
                            else [xff; x86; x00; x00; x05; x01; x00; u8 b; u8 kt; u8 n];
                          tx_responseMaxLength := 2;
                          tx_protocol := protocol conn |};
                     awaiter := t; answered := false |} ]
  ∧ (∀ s, status_of (resume t (FromTransmit s) m') t
          = Some (Done (authenticate_after_transmit s)))
  ∧ (∀ s, authenticate_after_transmit s = Fulfilled (VBoolean true)
          ↔ ∃ body, s = Fulfilled ([x90; x00] ++ body)).
Proof.
  intros Hfind Hc Hconn t m'. subst t m'.
  split; [apply (findKeyNumber_slot _ _ _ Hfind)|].
  unfold authenticate.
  destruct (alloc (Authenticate b kt key o) None m) as [t m1] eqn:Ha.
  assert (t = length (tasks m) ∧ this m1 = this m ∧ sent m1 = sent m
          ∧ tasks m1 = tasks m ++ [{| invoked := Authenticate b kt key o;
                                      caller := None; status := Running;
                                      reactions := [] |}]) as (-> & Hthis & Hsent & Htasks).
  { unfold alloc in Ha. inversion Ha; subst. auto. }
  cbn [fst snd]. rewrite Hthis, Hfind.
  assert (length (tasks m) < length (tasks m1))%nat as Hlt
    by (rewrite Htasks, length_app; simpl; lia).
  destruct (authenticate_transmit_connected m1 (length (tasks m)) b kt n o cd conn)
    as (H1 & H2 & H3 & H4 & H5); [congruence | congruence | exact Hlt |].
  split; [rewrite H4, Htasks, fmap_app; reflexivity|].
  split; [congruence|].
  split; [rewrite H1, Hsent, authenticate_packet_bytes; reflexivity|].
  split; [|apply authenticate_outcome].
  intros s. unfold resume.
  change (status <$> tasks (authenticate_transmit (length (tasks m)) b kt n o m1)
                       !! length (tasks m))
    with (status_of (authenticate_transmit (length (tasks m)) b kt n o m1)
            (length (tasks m))).
  rewrite H2. apply status_of_finish_eq.
  unfold authenticate_transmit. rewrite length_tasks_await_transmit. exact Hlt.
Qed.

Lemma authenticate_uses_stored_key_witness :
  let r := with_keyStorage
             {| key0 := Some (StoredBuffer [xff; xff; xff; xff; xff; xff]);
                key1 := None |}
             (with_connection (Some {| conn_type := 2; protocol := 2 |})
                (with_card (Some empty_card) (new_Reader acr1252))) in
  sent (snd (authenticate 4 KEY_TYPE_A "ffffffffffff" false (boot r)))
  = [ {| packet := {| tx_data := [xff; x86; x00; x00; x05; x01; x00; x04; x60; x00];
                      tx_responseMaxLength := 2; tx_protocol := 2 |};
         awaiter := 0%nat; answered := false |} ].
Proof.
  intros r.
  exact (proj1 (proj2 (proj2 (proj2
    (authenticate_uses_stored_key (boot r) 4 KEY_TYPE_A "ffffffffffff" false 0
       empty_card {| conn_type := 2; protocol := 2 |} eq_refl eq_refl eq_refl))))).
Defined.

(** X3. A call of [authenticate] for a key that is being loaded joins
    the load. When the key is in no slot and the table has an entry for
    it, the call starts no load and sends nothing; it leaves the reader
    and the table alone and waits for the promise of the entry. If that
    promise has settled, the call is resumed with its outcome by the
    next job; if not, the call is resumed with the outcome when the
    load ends, after the calls that waited before it. *)
Theorem authenticate_joins_pending_load (m : Loop) (b kt : Z) (key : string)
        (o : bool) (p : TaskId) (st : TaskState) :
  findKeyNumber (this m) (Some key) = None ->
  pendingLoadAuthenticationKey (this m) !! key = Some p ->
  status_of m p = Some st ->
  let t := fst (authenticate b kt key o m) in
  let m' := snd (authenticate b kt key o m) in
  call_of <$> tasks m' = (call_of <$> tasks m) ++ [(Authenticate b kt key o, None)]
  ∧ this m' = this m
  ∧ sent m' = sent m
  ∧ status_of m' t = Some (Suspended (AuthenticateAwaitsLoad b kt key o))
  ∧ match st with
    | Done s => jobs m' = jobs m ++ [Resume t (FromPromise s)]
    | _ =>
        jobs m' = jobs m
        ∧ ∀ s, ∃ before,
            jobs (finish p s m')
            = jobs m ++ before ++ [Resume t (FromPromise s)]
            ∧ jobs (finish p s m) = jobs m ++ before
    end.
Proof.
  intros Hfind Hp Hst t m'. subst t m'. unfold authenticate.
  pose proof (status_of_lt _ _ _ Hst) as Hplt.
  destruct (alloc (Authenticate b kt key o) None m) as [t m1] eqn:Ha.
  assert (t = length (tasks m) ∧ this m1 = this m ∧ sent m1 = sent m
          ∧ jobs m1 = jobs m
          ∧ tasks m1 = tasks m ++ [{| invoked := Authenticate b kt key o;
                                      caller := None; status := Running;
                                      reactions := [] |}])
    as (-> & Hthis & Hsent & Hjobs & Htasks).
  { unfold alloc in Ha. inversion Ha; subst. auto. }
  assert (get_pending (this m) key = OwnValue p) as Hown
    by (unfold get_pending; rewrite Hp; reflexivity).
  cbn [fst snd]. rewrite Hthis, Hfind, Hown.
  assert (length (tasks m) < length (tasks m1))%nat as Hlt
    by (rewrite Htasks, length_app; simpl; lia).
  split; [rewrite calls_await_promise, Htasks, fmap_app; reflexivity|].
  split; [rewrite this_await_promise; exact Hthis|].
  split; [rewrite sent_await_promise; exact Hsent|].
  split; [apply status_of_await_promise_eq; exact Hlt|].
  set (f := AuthenticateAwaitsLoad b kt key o).
  assert (status <$> tasks (set_status (length (tasks m)) (Suspended f) m1) !! p
          = Some st) as Hst1.
  { change (status_of (set_status (length (tasks m)) (Suspended f) m1) p = Some st).
    rewrite status_of_set_status_ne by lia.
    unfold status_of. rewrite Htasks, lookup_app_l by exact Hplt. exact Hst. }
  unfold await_promise. rewrite Hst1.
  assert (∃ x, tasks m !! p = Some x ∧ status x = st) as (x & Hx & Hxs).
  { unfold status_of in Hst. destruct (tasks m !! p) as [x|]; [|discriminate].
    exists x. split; [reflexivity|]. inversion Hst. reflexivity. }
  assert (∀ s,
            jobs (finish p s
                    (set_tasks (alter (with_reaction (length (tasks m))) p
                                  (tasks (set_status (length (tasks m)) (Suspended f) m1)))
                       (set_status (length (tasks m)) (Suspended f) m1)))
            = jobs m ++ ((λ w, Resume w (FromPromise s)) <$> reactions x)
                ++ [Resume (length (tasks m)) (FromPromise s)]
            ∧ jobs (finish p s m)
              = jobs m ++ ((λ w, Resume w (FromPromise s)) <$> reactions x)) as Hfin.
  { intros s. unfold finish. cbn [jobs set_jobs set_status set_tasks tasks].
    rewrite Hx, Hjobs. cbn [fmap option_fmap option_map default].
    rewrite Htasks.
    rewrite list_lookup_alter_eq.
    rewrite list_lookup_alter_ne by lia.
    rewrite lookup_app_l by exact Hplt. rewrite Hx.
    change (default [] (reactions <$> (with_reaction (length (tasks m)) <$> Some x)))
      with (reactions x ++ [length (tasks m)]).
    rewrite fmap_app. split; reflexivity. }
  destruct st as [|fr|s].
  - split; [exact Hjobs|]. intros s. eexists. exact (Hfin s).
  - split; [exact Hjobs|]. intros s. eexists. exact (Hfin s).
  - cbn [enqueue jobs set_jobs set_status set_tasks]. rewrite Hjobs. reflexivity.
Qed.

Lemma authenticate_joins_pending_load_witness :
  let r := with_connection (Some {| conn_type := 2; protocol := 2 |})
             (with_card (Some empty_card) (new_Reader acr1252)) in
  let m := snd (authenticate 4 KEY_TYPE_A "FFFFFFFFFFFF" false (boot r)) in
  sent (snd (authenticate 5 KEY_TYPE_A "FFFFFFFFFFFF" false m)) = sent m.
Proof.
  intros r m.
  refine (proj1 (proj2 (proj2
    (authenticate_joins_pending_load m 5 KEY_TYPE_A "FFFFFFFFFFFF" false 1%nat
       (Suspended (LoadAwaitsTransmit 0 (StoredBuffer [xff; xff; xff; xff; xff; xff])))
       _ _ _)))); vm_compute; reflexivity.
Defined.

(** *** After the load, and the checks of [loadAuthenticationKey] *)

(** X19. What [authenticate] does with the outcome of the load it
    waited for. If the load failed, the call is rejected with
    [unable_to_load_key], which wraps the error of the load, and sends
    nothing. If the load gave a slot number, the call hands the
    Authenticate packet with that number to the provider (on a reader
    with a card and a connection at that moment). On both paths the
    entry of the key is gone from the table and the slots are as they
    were. *)
Theorem authenticate_after_the_load (m : Loop) (t : TaskId) (b kt : Z)
        (key : string) (o : bool) :
  status_of m t = Some (Suspended (AuthenticateAwaitsLoad b kt key o)) ->
  (∀ err,
     let m' := resume t (FromPromise (Rejected err)) m in
     status_of m' t
     = Some (Done (Rejected
                     (MkError AuthenticationError (Some "unable_to_load_key")
                        (Some "Could not load authentication key into reader.")
                        (Some err))))
     ∧ sent m' = sent m
     ∧ pendingLoadAuthenticationKey (this m')
       = delete key (pendingLoadAuthenticationKey (this m))
     ∧ keyStorage (this m') = keyStorage (this m))
  ∧ (∀ n cd conn,
       card (this m) = Some cd -> connection (this m) = Some conn ->
       let m' := resume t (FromPromise (Fulfilled (VNumber n))) m in
       sent m'
       = sent m ++ [ {| packet :=
                          {| tx_data :=
                               if o then [xff; x88; x00; u8 b; u8 kt; u8 n]
                               else [xff; x86; x00; x00; x05; x01; x00;
                                     u8 b; u8 kt; u8 n];
                             tx_responseMaxLength := 2;
                             tx_protocol := protocol conn |};
                        awaiter := t; answered := false |} ]
       ∧ pendingLoadAuthenticationKey (this m')
         = delete key (pendingLoadAuthenticationKey (this m))
       ∧ keyStorage (this m') = keyStorage (this m)).
Proof.
  intros Hst. pose proof (status_of_lt _ _ _ Hst) as Hlt. split.
  - intros err m'. subst m'.
    split; [|split; [|split]].
    + unfold resume. fold (status_of m t). rewrite Hst.
      unfold authenticate_after_load. apply status_of_finish_eq. exact Hlt.
    + unfold resume. fold (status_of m t). rewrite Hst. reflexivity.
    + apply (resume_deletes_entry m t b kt key o). exact Hst.
    + unfold resume. fold (status_of m t). rewrite Hst.
      unfold authenticate_after_load. rewrite this_finish. reflexivity.
  - intros n cd conn Hc Hconn m'. subst m'.
    split; [|split].
    + unfold resume. fold (status_of m t). rewrite Hst.
      unfold authenticate_after_load. cbn [number_of].
      destruct (authenticate_transmit_connected
                  (set_pending (delete key (pendingLoadAuthenticationKey (this m))) m)
                  t b kt n o cd conn Hc Hconn Hlt) as (H1 & _).
      rewrite H1, authenticate_packet_bytes. reflexivity.
    + apply (resume_deletes_entry m t b kt key o). exact Hst.
    + unfold resume. fold (status_of m t). rewrite Hst.
      unfold authenticate_after_load, authenticate_transmit.
      rewrite this_await_transmit. reflexivity.
Qed.

Lemma authenticate_after_the_load_witness :
  let r := with_card (Some empty_card) (new_Reader acr1252) in
  let m := snd (authenticate 4 KEY_TYPE_A "FFFFFFFFFFFF" false (boot r)) in
  let err := MkError LoadAuthenticationKeyError None None None in
  sent (resume 0%nat (FromPromise (Rejected err)) m) = sent m.
Proof.
  intros r m err.
  refine (proj1 (proj2 (proj1
    (authenticate_after_the_load m 0%nat 4 KEY_TYPE_A "FFFFFFFFFFFF" false _) err))).
  vm_compute. reflexivity.
Defined.

(** X20. The checks of [loadAuthenticationKey]. A key number other than
    0 and 1 is refused with [invalid_key_number], before the key is
    looked at; a key that is no string, Buffer or array, and a key that
    has not six bytes (for a string: whose hexadecimal digits decode to
    another number of bytes), are refused with [invalid_key]. A refused
    call hands nothing to the provider. A call that passes the checks on
    a reader with a card and a connection hands over one packet:
    FF 82 00, the key number, 06 and the six bytes. No call changes the
    reader before the answer of the provider. *)
Theorem loadAuthenticationKey_checks (m : Loop) (c : option TaskId) (k : Z)
        (key : KeyArg) :
  let t := fst (loadAuthenticationKey c k key m) in
  let m' := snd (loadAuthenticationKey c k key m) in
  this m' = this m
  ∧ (k ≠ 0 -> k ≠ 1 ->
       status_of m' t
       = Some (Done (Rejected (MkError LoadAuthenticationKeyError
                                 (Some "invalid_key_number") None None)))
       ∧ sent m' = sent m)
  ∧ (k = 0 ∨ k = 1 -> key = KeyOther ->
       status_of m' t
       = Some (Done (Rejected
                       (MkError LoadAuthenticationKeyError (Some "invalid_key")
                          (Some "Key must an instance of Buffer or an array of bytes or a string.")
                          None)))
       ∧ sent m' = sent m)
  ∧ (∀ kv, k = 0 ∨ k = 1 -> normalize_key key = inl kv -> key_length kv ≠ 6 ->
       status_of m' t
       = Some (Done (Rejected
                       (MkError LoadAuthenticationKeyError (Some "invalid_key")
                          (Some "Key length must be 6 bytes.") None)))
       ∧ sent m' = sent m)
  ∧ (∀ kv cd conn, k = 0 ∨ k = 1 -> normalize_key key = inl kv -> key_length kv = 6 ->
       card (this m) = Some cd -> connection (this m) = Some conn ->
       status_of m' t = Some (Suspended (LoadAwaitsTransmit k kv))
       ∧ sent m'
         = sent m ++ [ {| packet :=
                            {| tx_data := [xff; x82; x00; u8 k; x06]
                                          ++ (u8 <$> key_spread kv);
                               tx_responseMaxLength := 2;
                               tx_protocol := protocol conn |};
                          awaiter := t; answered := false |} ]).
Proof.
  intros t m'. subst t m'.
  split; [apply this_loadAuthenticationKey|].
  unfold loadAuthenticationKey.
  destruct (alloc (LoadAuthenticationKey k key) c m) as [t m1] eqn:Ha.
  assert (t = length (tasks m) ∧ this m1 = this m ∧ sent m1 = sent m
          ∧ (length (tasks m) < length (tasks m1))%nat)
    as (-> & Hthis & Hsent & Hlt).
  { unfold alloc in Ha. inversion Ha; subst. cbn [tasks set_tasks].
    rewrite length_app. simpl. repeat split; lia. }
  cbn [fst snd].
  split; [|split; [|split]].
  - intros H0 H1.
    assert (negb ((k =? 0) || (k =? 1)) = true) as ->
      by (apply negb_true_iff, orb_false_iff; split; lia).
    split; [apply status_of_finish_eq; exact Hlt | exact Hsent].
  - intros Hk ->.
    assert (negb ((k =? 0) || (k =? 1)) = false) as ->
      by (destruct Hk as [->| ->]; reflexivity).
    cbn [normalize_key].
    split; [apply status_of_finish_eq; exact Hlt | exact Hsent].
  - intros kv Hk Hkv Hlen.
    assert (negb ((k =? 0) || (k =? 1)) = false) as ->
      by (destruct Hk as [->| ->]; reflexivity).
    rewrite Hkv.
    assert (negb (key_length kv =? 6) = true) as -> by (apply negb_true_iff; lia).
    split; [apply status_of_finish_eq; exact Hlt | exact Hsent].
  - intros kv cd conn Hk Hkv Hlen Hc Hconn.
    assert (negb ((k =? 0) || (k =? 1)) = false) as ->
      by (destruct Hk as [->| ->]; reflexivity).
    rewrite Hkv. rewrite Hlen. cbn [Z.eqb Pos.eqb negb].
    unfold transmit. rewrite Hthis, Hc, Hconn. cbn [await_transmit].
    split.
    + change (status_of (set_status (length (tasks m))
                           (Suspended (LoadAwaitsTransmit k kv)) m1) (length (tasks m))
              = Some (Suspended (LoadAwaitsTransmit k kv))).
      apply status_of_set_status_eq. exact Hlt.
    + cbn [sent set_sent set_status set_tasks]. rewrite Hsent.
      unfold loadAuthenticationKey_packet, Buffer_from_array.
      rewrite map_app, Hlen. reflexivity.
Qed.

(** *** Invariants of the event loop *)

(** A property kept by the parts of a step is kept by every step. *)
Lemma step_preserves (P : Loop -> Prop) :
  (∀ m js, P m -> P (set_jobs js m)) ->
  (∀ m s, P m -> P (set_sent s m)) ->
  (∀ m c conn, P m -> P (set_this (with_connection conn (with_card c (this m))) m)) ->
  (∀ t input m, P m -> P (resume t input m)) ->
  (∀ k key m, P m -> P (snd (loadAuthenticationKey None k key m))) ->
  (∀ b kt key o m, P m -> P (snd (authenticate b kt key o m))) ->
  ∀ e m m', step e m = Some m' -> P m -> P m'.
Proof.
  intros Hjobs Hsent Hreader Hresume Hload Hauth.
  assert (∀ body m, P m -> P (run_actions body m)) as Hrun.
  { induction body as [|a body IH]; intros m Hm; [exact Hm|].
    destruct a as [k key|b kt key o|job]; cbn [run_actions]; apply IH.
    - apply Hload. exact Hm.
    - apply Hauth. exact Hm.
    - apply Hjobs. exact Hm. }
  intros e m m' Hstep Hm. destruct e as [|body|n reply|c conn]; simpl in Hstep.
  - destruct (jobs m) as [|j q] eqn:Hj; [discriminate|]. inversion Hstep; subst.
    destruct j as [t input|body]; cbn [run_job].
    + apply Hresume, Hjobs. exact Hm.
    + apply Hrun, Hjobs. exact Hm.
  - destruct (is_nil (jobs m)); [|discriminate]. inversion Hstep; subst.
    apply Hrun. exact Hm.
  - destruct (is_nil (jobs m)); [|discriminate].
    unfold provider_answers in Hstep.
    destruct (sent m !! n) as [s|]; [|discriminate].
    destruct (answered s); [discriminate|]. inversion Hstep; subst.
    apply Hjobs, Hsent. exact Hm.
  - inversion Hstep; subst. apply Hreader. exact Hm.
Qed.

Lemma reachable_invariant (P : Loop -> Prop) (cr : CardReader) :
  P (boot (new_Reader cr)) ->
  (∀ e m m', step e m = Some m' -> P m -> P m') ->
  ∀ m, reachable cr m -> P m.
Proof.
  intros Hboot Hstep m [events Hexec]. revert Hexec Hboot.
  generalize (boot (new_Reader cr)). induction events as [|e events IH];
    intros m0 Hexec Hm0; simpl in Hexec.
  - inversion Hexec; subst. exact Hm0.
  - destruct (step e m0) as [m1|] eqn:H1; [|discriminate].
    apply (IH m1 Hexec). apply (Hstep e m0); assumption.
Qed.

Lemma frames_hold_set_status (Q : Frame -> Prop) (m : Loop) (t : TaskId)
      (st : TaskState) :
  frames_hold Q m -> (∀ f, st = Suspended f -> Q f) ->
  frames_hold Q (set_status t st m).
Proof.
  intros Hm Hst t' f H. destruct (decide (t = t')) as [<-|Hne].
  - pose proof (status_of_lt _ _ _ H) as Hlt.
    rewrite length_tasks_set_status in Hlt.
    rewrite status_of_set_status_eq in H by exact Hlt.
    apply Hst. congruence.
  - rewrite status_of_set_status_ne in H by exact Hne. exact (Hm t' f H).
Qed.

Lemma frames_hold_finish (Q : Frame -> Prop) (m : Loop) (t : TaskId)
      (s : Settled Value) :
  frames_hold Q m -> frames_hold Q (finish t s m).
Proof.
  intros Hm t' f H.
  apply (frames_hold_set_status Q m t (Done s) Hm ltac:(discriminate) t' f).
  exact H.
Qed.

Lemma frames_hold_await_transmit (Q : Frame -> Prop) (m : Loop) (t : TaskId)
      (f : Frame) (call : TransmitCall) (wrap : Error -> Error) :
  Q f -> frames_hold Q m -> frames_hold Q (await_transmit t f call wrap m).
Proof.
  intros Hf Hm. destruct call as [err|err|d l pr]; cbn [await_transmit].
  - apply frames_hold_finish. exact Hm.
  - intros t' f' H.
    apply (frames_hold_set_status Q m t (Suspended f) Hm
             ltac:(intros ? [= <-]; exact Hf) t' f').
    exact H.
  - intros t' f' H.
    apply (frames_hold_set_status Q m t (Suspended f) Hm
             ltac:(intros ? [= <-]; exact Hf) t' f').
    exact H.
Qed.

Lemma frames_hold_await_promise (Q : Frame -> Prop) (m : Loop) (t p : TaskId)
      (f : Frame) :
  Q f -> frames_hold Q m -> frames_hold Q (await_promise t f p m).
Proof.
  intros Hf Hm t' f' H.
  apply (frames_hold_set_status Q m t (Suspended f) Hm
           ltac:(intros ? [= <-]; exact Hf) t' f').
  unfold await_promise in H.
  destruct (status <$> tasks (set_status t (Suspended f) m) !! p) as [[| |s]|];
    try exact H.
  all: unfold status_of in H |- *; cbn [tasks set_tasks] in H;
    rewrite lookup_alter_status in H by reflexivity; exact H.
Qed.

Lemma frames_hold_await_value (Q : Frame -> Prop) (m : Loop) (t : TaskId)
      (f : Frame) (v : Value) :
  Q f -> frames_hold Q m -> frames_hold Q (await_value t f v m).
Proof.
  intros Hf Hm t' f' H.
  apply (frames_hold_set_status Q m t (Suspended f) Hm
           ltac:(intros ? [= <-]; exact Hf) t' f').
  exact H.
Qed.

Lemma calls_await_value (m : Loop) (t : TaskId) (f : Frame) (v : Value) :
  call_of <$> tasks (await_value t f v m) = call_of <$> tasks m.
Proof.
  unfold await_value, enqueue. cbn [tasks set_jobs set_status set_tasks].
  apply fmap_alter_same. reflexivity.
Qed.

Lemma frames_hold_alloc (Q : Frame -> Prop) (m : Loop) (i : Invocation)
      (c : option TaskId) :
  frames_hold Q m -> frames_hold Q (snd (alloc i c m)).
Proof.
  intros Hm t f H. unfold status_of, alloc in H. cbn [snd tasks set_tasks] in H.
  destruct (decide (t < length (tasks m))%nat) as [Hlt|Hge].
  - rewrite lookup_app_l in H by exact Hlt. exact (Hm t f H).
  - rewrite lookup_app_r in H by lia.
    destruct (t - length (tasks m))%nat as [|n]; simpl in H; discriminate.
Qed.

Lemma frames_hold_loadAuthenticationKey (m : Loop) (c : option TaskId) (k : Z)
      (key : KeyArg) :
  frames_hold frame_key_ok m ->
  frames_hold frame_key_ok (snd (loadAuthenticationKey c k key m)).
Proof.
  intros Hm. unfold loadAuthenticationKey.
  pose proof (frames_hold_alloc _ m (LoadAuthenticationKey k key) c Hm) as H1.
  destruct (alloc (LoadAuthenticationKey k key) c m) as [t m1]. cbn [snd] in *.
  destruct (negb ((k =? 0) || (k =? 1))) eqn:Hk; [apply frames_hold_finish; exact H1|].
  destruct (normalize_key key) as [kv|err]; [|apply frames_hold_finish; exact H1].
  destruct (negb (key_length kv =? 6)) eqn:Hlen; [apply frames_hold_finish; exact H1|].
  apply frames_hold_await_transmit; [|exact H1].
  apply negb_false_iff in Hk, Hlen. apply orb_true_iff in Hk.
  split; lia.
Qed.

(** What a call of [authenticate] adds to the calls and to the table. *)
Lemma authenticate_calls (m : Loop) (b kt : Z) (key : string) (o : bool) :
  let m' := snd (authenticate b kt key o m) in
  let loads :=
    match findKeyNumber (this m) (Some key), get_pending (this m) key with
    | None, Undefined => true
    | _, _ => false
    end in
  call_of <$> tasks m'
  = (call_of <$> tasks m)
      ++ (Authenticate b kt key o, None)
         :: (if loads
             then [(LoadAuthenticationKey (target_keyNumber (this m)) (KeyString key),
                    Some (length (tasks m)))]
             else [])
  ∧ pendingLoadAuthenticationKey (this m')
    = (if loads then <[key := S (length (tasks m))]> (pendingLoadAuthenticationKey (this m))
       else pendingLoadAuthenticationKey (this m))
  ∧ keyStorage (this m') = keyStorage (this m)
  ∧ (frames_hold frame_key_ok m -> frames_hold frame_key_ok m').
Proof.
  unfold authenticate.
  pose proof (frames_hold_alloc frame_key_ok m (Authenticate b kt key o) None) as Hfr.
  destruct (alloc (Authenticate b kt key o) None m) as [t m1] eqn:Ha.
  assert (t = length (tasks m) ∧ this m1 = this m
          ∧ tasks m1 = tasks m ++ [{| invoked := Authenticate b kt key o;
                                      caller := None; status := Running;
                                      reactions := [] |}]) as (-> & Hthis & Htasks).
  { unfold alloc in Ha. inversion Ha; subst. auto. }
  cbn [fst snd] in *. rewrite Hthis.
  destruct (findKeyNumber (this m) (Some key)) as [k|] eqn:Hfind.
  { unfold authenticate_transmit.
    rewrite calls_await_transmit, this_await_transmit, Hthis, Htasks, fmap_app.
    repeat split. intros Hm. apply frames_hold_await_transmit; [exact I | auto]. }
  destruct (get_pending (this m) key) as [p| |] eqn:Hp.
  { rewrite calls_await_promise, this_await_promise, Hthis, Htasks, fmap_app.
    repeat split. intros Hm. apply frames_hold_await_promise; [exact I | auto]. }
  { rewrite calls_await_value, this_await_value, Hthis, Htasks, fmap_app.
    repeat split. intros Hm. apply frames_hold_await_value; [exact I | auto]. }
  pose proof (this_loadAuthenticationKey m1 (Some (length (tasks m)))
                (target_keyNumber (this m)) (KeyString key)) as Hthis2.
  pose proof (length_tasks_loadAuthenticationKey m1 (Some (length (tasks m)))
                (target_keyNumber (this m)) (KeyString key)) as [Hpid _].
  pose proof (calls_loadAuthenticationKey m1 (Some (length (tasks m)))
                (target_keyNumber (this m)) (KeyString key)) as Hcalls.
  pose proof (frames_hold_loadAuthenticationKey m1 (Some (length (tasks m)))
                (target_keyNumber (this m)) (KeyString key)) as Hfr2.
  destruct (loadAuthenticationKey (Some (length (tasks m)))
              (target_keyNumber (this m)) (KeyString key) m1) as [p m2] eqn:Hl.
  cbn [fst snd] in Hthis2, Hpid, Hcalls, Hfr2. cbv beta iota zeta.
  assert (length (tasks m1) = S (length (tasks m))) as Hlen1
    by (rewrite Htasks, length_app; simpl; lia).
  rewrite calls_await_promise, this_await_promise.
  cbn [tasks this set_pending set_this pendingLoadAuthenticationKey with_pending
       keyStorage].
  rewrite Hcalls, Htasks, fmap_app, <- app_assoc, Hthis2, Hthis, Hpid, Hlen1.
  repeat split. intros Hm. apply frames_hold_await_promise; [exact I|].
  intros t' f H. apply (Hfr2 (Hfr Hm) t' f). exact H.
Qed.

Lemma keys_well_formed_resume (t : TaskId) (input : Input) (m : Loop) :
  keys_well_formed m -> keys_well_formed (resume t input m).
Proof.
  intros [Hkeys Hfr]. unfold resume. fold (status_of m t).
  destruct (status_of m t) as [[|[k kv|b kt key o|pk]|s]|] eqn:Hst;
    destruct input as [s'|s']; try (split; assumption).
  - destruct (Hfr t _ Hst) as [Hk Hlen].
    destruct (loadAuthenticationKey_resume k kv s' (this m)) as [res r] eqn:Hr.
    split.
    + rewrite this_finish. cbn [this set_this].
      unfold loadAuthenticationKey_resume in Hr.
      destruct s' as [response|err];
        [destruct (readUInt16BE response 0); [destruct (negb _)|]|];
        inversion Hr; subst; try exact Hkeys.
      intros k' kv' Hget. cbn [with_keyStorage keyStorage] in Hget.
      unfold get_key, set_key in Hget.
      destruct Hk as [-> | ->]; simpl in Hget.
      * destruct (k' =? 0) eqn:E0; [inversion Hget; subst; exact Hlen|].
        apply (Hkeys k' kv'). unfold get_key. rewrite E0. exact Hget.
      * destruct (k' =? 0) eqn:E0;
          [apply (Hkeys k' kv'); unfold get_key; rewrite E0; exact Hget|].
        destruct (k' =? 1) eqn:E1; [inversion Hget; subst; exact Hlen|].
        discriminate.
    + apply frames_hold_finish. exact Hfr.
  - unfold authenticate_after_load, authenticate_transmit.
    destruct s' as [v|err].
    + split; [rewrite this_await_transmit; exact Hkeys|].
      apply frames_hold_await_transmit; [exact I | exact Hfr].
    + split; [rewrite this_finish; exact Hkeys|].
      apply frames_hold_finish. exact Hfr.
  - split; [rewrite this_finish; exact Hkeys | apply frames_hold_finish; exact Hfr].
Qed.

(** X21. The slots only ever hold keys of six bytes. In every state the
    reader goes through from its construction, by calls of
    [loadAuthenticationKey] and [authenticate] in any order and answers
    of the provider of any content, a key in a slot has six bytes (six
    elements for an array), and every call of [loadAuthenticationKey]
    that waits for the provider is for slot 0 or 1 with such a key. *)
Theorem stored_keys_have_six_bytes (cr : CardReader) (m : Loop) :
  reachable cr m ->
  keys_have_six_bytes (this m)
  ∧ ∀ t k kv,
      status_of m t = Some (Suspended (LoadAwaitsTransmit k kv)) ->
      (k = 0 ∨ k = 1) ∧ key_length kv = 6.
Proof.
  intros Hreach.
  assert (keys_well_formed m) as [Hkeys Hfr].
  { apply (reachable_invariant keys_well_formed cr); [| |exact Hreach].
    - split.
      + intros k kv H. unfold get_key in H. simpl in H.
        destruct (k =? 0); [discriminate|]. destruct (k =? 1); discriminate.
      + intros t f H. unfold status_of in H. simpl in H. discriminate.
    - apply step_preserves.
      + intros m0 js H. exact H.
      + intros m0 s H. exact H.
      + intros m0 c conn H. exact H.
      + intros t input m0 H. apply keys_well_formed_resume. exact H.
      + intros k key m0 [H1 H2]. split.
        * rewrite this_loadAuthenticationKey. exact H1.
        * apply frames_hold_loadAuthenticationKey. exact H2.
      + intros b kt key o m0 [H1 H2].
        destruct (authenticate_calls m0 b kt key o) as (_ & _ & Hks & Hfr).
        split; [|apply Hfr; exact H2].
        unfold keys_have_six_bytes. rewrite Hks. exact H1. }
  split; [exact Hkeys|]. intros t k kv H. exact (Hfr t _ H).
Qed.

Lemma stored_keys_have_six_bytes_witness :
  ∃ m,
    exec [ ReaderChanges (Some empty_card) (Some {| conn_type := 2; protocol := 2 |});
           Macrotask [CallLoadAuthenticationKey 1 (KeyArray [1; 2; 3; 4; 5; 6])];
           ProviderAnswers 0 (ReplyResponse [x90; x00]); Microtask ]
      (boot (new_Reader acr1252)) = Some m
    ∧ get_key (keyStorage (this m)) 1 = Some (StoredArray [1; 2; 3; 4; 5; 6])
    ∧ keys_have_six_bytes (this m).
Proof.
  eexists. split; [vm_compute; reflexivity|]. split; [reflexivity|].
  refine (proj1 (stored_keys_have_six_bytes acr1252 _ _)).
  exists [ ReaderChanges (Some empty_card) (Some {| conn_type := 2; protocol := 2 |});
           Macrotask [CallLoadAuthenticationKey 1 (KeyArray [1; 2; 3; 4; 5; 6])];
           ProviderAnswers 0 (ReplyResponse [x90; x00]); Microtask ].
  vm_compute. reflexivity.
Defined.

Lemma calls_resume (t : TaskId) (input : Input) (m : Loop) :
  call_of <$> tasks (resume t input m) = call_of <$> tasks m.
Proof.
  unfold resume.
  destruct (status <$> tasks m !! t) as [[|[k kv|b kt key o|pk]|s]|];
    destruct input as [s'|s']; try reflexivity.
  - destruct (loadAuthenticationKey_resume k kv s' (this m)) as [res r].
    rewrite calls_finish. reflexivity.
  - unfold authenticate_after_load, authenticate_transmit.
    destruct s'; rewrite ?calls_finish, ?calls_await_transmit; reflexivity.
  - rewrite calls_finish. reflexivity.
Qed.

Lemma pending_resume (t : TaskId) (input : Input) (m : Loop) (key : string)
      (p : TaskId) :
  pendingLoadAuthenticationKey (this (resume t input m)) !! key = Some p ->
  pendingLoadAuthenticationKey (this m) !! key = Some p.
Proof.
  unfold resume. fold (status_of m t).
  destruct (status_of m t) as [[|[k kv|b kt key' o|pk]|s]|] eqn:Hst;
    destruct input as [s'|s']; try (intros H; exact H).
  - destruct (loadAuthenticationKey_resume k kv s' (this m)) as [res r] eqn:Hr.
    assert (pendingLoadAuthenticationKey r = pendingLoadAuthenticationKey (this m)) as Hpr.
    { unfold loadAuthenticationKey_resume in Hr.
      destruct s' as [a|e]; [destruct (readUInt16BE a 0); [destruct (negb _)|]|];
        inversion Hr; reflexivity. }
    rewrite this_finish. cbn [this set_this]. rewrite Hpr. intros H; exact H.
  - assert (pendingLoadAuthenticationKey (this (authenticate_after_load t b kt key' o s' m))
            = delete key' (pendingLoadAuthenticationKey (this m))) as ->.
    { unfold authenticate_after_load, authenticate_transmit.
      destruct s'; rewrite ?this_finish, ?this_await_transmit; reflexivity. }
    intros H. apply lookup_delete_Some in H as [_ H]. exact H.
Qed.

(** The property is kept when calls are added and no entry is. *)
Lemma pending_names_loads_extend (m m' : Loop) (ext : list (Invocation * option TaskId)) :
  call_of <$> tasks m' = (call_of <$> tasks m) ++ ext ->
  (∀ key p, pendingLoadAuthenticationKey (this m') !! key = Some p ->
            pendingLoadAuthenticationKey (this m) !! key = Some p) ->
  pending_names_loads m -> pending_names_loads m'.
Proof.
  intros Hcalls Hsub Hm key p Hp.
  destruct (Hm key p (Hsub key p Hp)) as (Hname & k & c & b & kt & o & H1 & H2 & H3).
  split; [exact Hname|].
  exists k, c, b, kt, o. rewrite Hcalls.
  split; [apply lookup_app_l_Some; exact H1|].
  split; [apply lookup_app_l_Some; exact H2 | exact H3].
Qed.

Lemma target_keyNumber_slot (r : Reader) : target_keyNumber r = 0 ∨ target_keyNumber r = 1.
Proof.
  rewrite target_keyNumber_cases.
  destruct (key0 (keyStorage r)); [destruct (key1 (keyStorage r))|]; auto.
Qed.

Lemma pending_names_loads_authenticate (m : Loop) (b kt : Z) (key : string) (o : bool) :
  pending_names_loads m -> pending_names_loads (snd (authenticate b kt key o m)).
Proof.
  intros Hm.
  destruct (authenticate_calls m b kt key o) as (Hcalls & Hpend & _).
  cbv zeta in Hcalls, Hpend.
  destruct (findKeyNumber (this m) (Some key)) as [n|] eqn:Hfind.
  { apply (pending_names_loads_extend m _ _ Hcalls); [|exact Hm].
    rewrite Hpend. auto. }
  destruct (get_pending (this m) key) as [p0| |] eqn:Hp0.
  { apply (pending_names_loads_extend m _ _ Hcalls); [|exact Hm].
    rewrite Hpend. auto. }
  { apply (pending_names_loads_extend m _ _ Hcalls); [|exact Hm].
    rewrite Hpend. auto. }
  apply (proj1 (get_pending_cases (this m) key)) in Hp0 as [_ Hname].
  intros key' p Hp. rewrite Hpend in Hp.
  destruct (decide (key' = key)) as [->|Hne].
  - rewrite lookup_insert_eq in Hp. inversion Hp; subst.
    split; [exact Hname|].
    exists (target_keyNumber (this m)), (length (tasks m)), b, kt, o.
    rewrite Hcalls.
    split; [|split; [|apply target_keyNumber_slot]].
    + rewrite lookup_app_r by (rewrite length_fmap; lia).
      rewrite length_fmap.
      replace (S (length (tasks m)) - length (tasks m))%nat with 1%nat by lia.
      reflexivity.
    + rewrite lookup_app_r by (rewrite length_fmap; lia).
      rewrite length_fmap, Nat.sub_diag. reflexivity.
  - rewrite lookup_insert_ne in Hp by congruence.
    destruct (Hm key' p Hp) as (Hname' & k & c & b' & kt' & o' & H1 & H2 & H3).
    split; [exact Hname'|].
    exists k, c, b', kt', o'. rewrite Hcalls.
    split; [apply lookup_app_l_Some; exact H1|].
    split; [apply lookup_app_l_Some; exact H2 | exact H3].
Qed.

(** X22. What the read of the table of loads in flight yields. In every
    state the reader goes through from its construction, the read
    [this.pendingLoadAuthenticationKey[key]] yields one of three things.
    For the name of a member of [Object.prototype] ("constructor",
    "toString", "__proto__", ...) it yields that member, never a
    promise: the table has no property of its own by such a name. For
    any other key it yields nothing, or the promise of a call
    [loadAuthenticationKey(k, key)] for that same key string, with [k] 0
    or 1, made by a call of [authenticate] for the key. *)
Theorem pending_entries_name_loads (cr : CardReader) (m : Loop) (key : string) :
  reachable cr m ->
  match get_pending (this m) key with
  | OwnValue p => (key ∉ Object_prototype_names) ∧ load_of m key p
  | Inherited => key ∈ Object_prototype_names
  | Undefined => key ∉ Object_prototype_names
  end.
Proof.
  intros Hreach.
  assert (pending_names_loads m) as Hinv.
  { apply (reachable_invariant pending_names_loads cr); [| |exact Hreach].
    - intros key0 p H. simpl in H. rewrite lookup_empty in H. discriminate.
    - apply step_preserves.
      + intros m0 js H. exact H.
      + intros m0 s H. exact H.
      + intros m0 c conn H. exact H.
      + intros t input m0 H.
        apply (pending_names_loads_extend m0 _ []); [| |exact H].
        * rewrite calls_resume, app_nil_r. reflexivity.
        * apply pending_resume.
      + intros k key0 m0 H.
        apply (pending_names_loads_extend m0 _ _
                 (calls_loadAuthenticationKey m0 None k key0)); [|exact H].
        rewrite this_loadAuthenticationKey. auto.
      + intros b kt key0 o m0 H. apply pending_names_loads_authenticate. exact H. }
  destruct (get_pending_cases (this m) key) as (HU & HI & HO).
  destruct (get_pending (this m) key) as [p| |] eqn:E.
  - apply Hinv. apply HO. reflexivity.
  - apply HI. reflexivity.
  - apply HU. reflexivity.
Qed.

Lemma pending_entries_name_loads_witness :
  ∃ m,
    exec [ Macrotask [CallAuthenticate 4 KEY_TYPE_A "FFFFFFFFFFFF" false] ]
      (boot (new_Reader acr1252)) = Some m
    ∧ get_pending (this m) "FFFFFFFFFFFF" = OwnValue 1%nat
    ∧ load_of m "FFFFFFFFFFFF" 1%nat.
Proof.
  eexists. split; [vm_compute; reflexivity|]. split; [vm_compute; reflexivity|].
  match goal with
  | |- load_of ?m _ _ =>
      assert (reachable acr1252 m) as Hr
        by (exists [ Macrotask [CallAuthenticate 4 KEY_TYPE_A "FFFFFFFFFFFF" false] ];
            vm_compute; reflexivity);
      pose proof (pending_entries_name_loads acr1252 m "FFFFFFFFFFFF" Hr) as H;
      change (("FFFFFFFFFFFF" ∉ Object_prototype_names) ∧ load_of m "FFFFFFFFFFFF" 1%nat) in H
  end.
  exact (proj2 H).
Defined.

(** *** The reader listener of [NFC] *)

Lemma prefix_spec (t s : string) :
  String.prefix t s = true ↔ ∃ post, s = t +:+ post.
Proof.
  revert s. induction t as [|a t IH]; intros s.
  - split; [intros _; exists s; reflexivity | intros _; destruct s; reflexivity].
  - destruct s as [|b s]; cbn [String.prefix].
    + split; [discriminate | intros [post H]; discriminate].
    + destruct (ascii_dec a b) as [->|Hne].
      * rewrite IH. split; intros [post H]; exists post.
        -- simpl. rewrite H. reflexivity.
        -- simpl in H. inversion H. reflexivity.
      * split; [discriminate|]. intros [post H]. simpl in H. inversion H. congruence.
Qed.

Lemma includes_spec (t s : string) :
  includes t s = true ↔ ∃ pre post, s = pre +:+ t +:+ post.
Proof.
  induction s as [|b s IH].
  - cbn [includes]. rewrite orb_false_r, prefix_spec. split.
    + intros [post H]. exists EmptyString, post. exact H.
    + intros (pre & post & H). destruct pre; [exists post; exact H | discriminate].
  - cbn [includes]. rewrite orb_true_iff, prefix_spec, IH. split.
    + intros [[post H]|(pre & post & H)].
      * exists EmptyString, post. exact H.
      * exists (String b pre), post. simpl. rewrite H. reflexivity.
    + intros (pre & post & H). destruct pre as [|c pre].
      * left. exists post. exact H.
      * right. simpl in H. inversion H. exists pre, post. reflexivity.
Qed.

Lemma toLowerCase_app (a b : string) :
  toLowerCase (a +:+ b) = toLowerCase a +:+ toLowerCase b.
Proof. induction a as [|c a IH]; [reflexivity|]. simpl. rewrite IH. reflexivity. Qed.

Lemma toLowerCase_split (s a b : string) :
  toLowerCase s = a +:+ b ->
  ∃ s1 s2, s = s1 +:+ s2 ∧ toLowerCase s1 = a ∧ toLowerCase s2 = b.
Proof.
  revert s. induction a as [|c a IH]; intros s H.
  - exists EmptyString, s. auto.
  - destruct s as [|d s]; [discriminate|]. simpl in H. inversion H as [[Hc Hs]].
    destruct (IH s Hs) as (s1 & s2 & -> & H1 & H2).
    exists (String d s1), s2. simpl. rewrite H1. auto.
Qed.

Lemma includes_lower (t name : string) :
  includes t (toLowerCase name) = true
  ↔ ∃ pre mid post, name = pre +:+ mid +:+ post ∧ toLowerCase mid = t.
Proof.
  rewrite includes_spec. split.
  - intros (pre & post & H).
    destruct (toLowerCase_split _ _ _ H) as (s1 & s2 & -> & H1 & H2).
    destruct (toLowerCase_split _ _ _ H2) as (s3 & s4 & -> & H3 & H4).
    exists s1, s3, s4. auto.
  - intros (pre & mid & post & -> & H).
    exists (toLowerCase pre), (toLowerCase post).
    rewrite !toLowerCase_app, H. reflexivity.
Qed.

(** X23. Which readers get the ACR122 class. The listener of [NFC]
    builds an [ACR122Reader] exactly for the readers whose name
    contains, in any mix of upper and lower case, the letters ACR122 or
    ACR125, wherever in the name they stand; every other reader gets a
    plain [Reader]. The object is built on the reader the provider
    reported. *)
Theorem acr122_class_by_name (reader : CardReader) :
  (NFC_on_reader reader = new_ACR122Reader reader
   ↔ ∃ pre mid post,
       name reader = pre +:+ mid +:+ post
       ∧ (toLowerCase mid = "acr122" ∨ toLowerCase mid = "acr125"))
  ∧ (NFC_on_reader reader ≠ new_ACR122Reader reader ->
     NFC_on_reader reader = new_Reader_device reader).
Proof.
  unfold NFC_on_reader.
  destruct (includes "acr122" (toLowerCase (name reader))
            || includes "acr125" (toLowerCase (name reader))) eqn:E.
  - split; [|congruence]. split; [|reflexivity]. intros _.
    apply orb_true_iff in E as [E|E]; apply includes_lower in E
      as (pre & mid & post & H1 & H2); exists pre, mid, post; auto.
  - split; [|reflexivity]. split; [discriminate|].
    intros (pre & mid & post & H1 & [H2|H2]); apply orb_false_iff in E as [E1 E2].
    + assert (includes "acr122" (toLowerCase (name reader)) = true)
        by (apply includes_lower; eauto). congruence.
    + assert (includes "acr125" (toLowerCase (name reader)) = true)
        by (apply includes_lower; eauto). congruence.
Qed.

(** *** [control], [connect] and [disconnect] *)

(** X24. [control] needs a connection and no card. Without a connection
    it throws [not_connected] and hands nothing to the provider. With
    one it hands the data over, with the control code the provider
    computes from 3500 when the name of the platform starts with "win"
    and from 1 otherwise, whether or not a card is present: after the
    removal of a card and until the provider has disconnected,
    [transmit] throws while [control] still goes through. An error of
    the provider comes back as a [ControlError] with code [failure] that
    wraps it, a response comes back as it is. *)
Theorem control_needs_no_card (SCARD_CTL_CODE : Z -> Z) (platform : string)
        (r : Reader) (data : Buffer) (responseMaxLength : Z) :
  (connection r = None ->
     ∃ e, control SCARD_CTL_CODE platform r data responseMaxLength = ControlThrows e
          ∧ error_class e = ControlError ∧ error_code e = Some "not_connected")
  ∧ (connection r ≠ None ->
       control SCARD_CTL_CODE platform r data responseMaxLength
       = ControlIssued data
           (SCARD_CTL_CODE (if String.prefix "win" platform then 3500 else 1))
           responseMaxLength
       ∧ control SCARD_CTL_CODE platform (with_card None r) data responseMaxLength
         = control SCARD_CTL_CODE platform r data responseMaxLength
       ∧ ∃ e, transmit (with_card None r) data responseMaxLength = TransmitThrows e)
  ∧ (∀ err, control_callback (ReplyError err)
            = Rejected (MkError ControlError (Some FAILURE)
                          (Some "An error occurred while transmitting control.")
                          (Some err)))
  ∧ (∀ response, control_callback (ReplyResponse response) = Fulfilled response).
Proof.
  split; [|split; [|split; reflexivity]].
  - intros H. unfold control. rewrite H. eexists. repeat split.
  - intros H. unfold control. cbn [with_card connection].
    destruct (connection r); [|congruence].
    split; [destruct (String.prefix "win" platform); reflexivity|].
    split; [reflexivity|]. eexists. reflexivity.
Qed.

(** X25. Connecting and disconnecting. When [modes[mode]] is a share
    mode of the provider other than 0, which only the two modes
    'CONNECT_MODE_DIRECT' and 'CONNECT_MODE_CARD' give, [connect] asks
    the provider to connect with it. For any other string [connect]
    throws a [ConnectError] with code [invalid_mode], unless the string
    names a member of [Object.prototype] ('constructor', 'toString',
    '__proto__', ...): the object literal [modes] inherits that member,
    the test [!modes[mode]] lets it through, and the provider is asked
    to connect with the member as share mode. When the provider answers
    with a protocol the reader holds a connection of the share mode and
    protocol (0 when none was named), and [disconnect] then asks the
    provider to leave the card; when the provider confirms, the reader
    holds no connection and a second [disconnect] throws
    [not_connected]. An error of the provider leaves the connection as
    it was, in both directions, and neither call touches the card. *)
Theorem connect_then_disconnect (r : Reader) (mode : ReaderConnectMode)
        (protocol : option Z) (share : Z) :
  modes r mode = Some (ShareNumber share) -> share ≠ 0 ->
  connect r mode protocol = ConnectIssued share protocol
  ∧ (mode = CONNECT_MODE_DIRECT ∨ mode = CONNECT_MODE_CARD)
  ∧ (∀ s, s ≠ CONNECT_MODE_DIRECT -> s ≠ CONNECT_MODE_CARD ->
       (s ∉ Object_prototype_names ->
          ∃ e, connect r s protocol = ConnectThrows e
               ∧ error_class e = ConnectError
               ∧ error_code e = Some "invalid_mode")
       ∧ (s ∈ Object_prototype_names ->
            connect r s protocol = ConnectIssued (ShareInherited s) protocol))
  ∧ (∀ p,
       let r1 := snd (connect_callback share (inr p) r) in
       connection r1 = Some {| conn_type := share; protocol := default 0 p |}
       ∧ card r1 = card r
       ∧ disconnect r1 = DisconnectIssued (SCARD_LEAVE_CARD (reader r))
       ∧ let r2 := snd (disconnect_callback None r1) in
         connection r2 = None ∧ card r2 = card r
         ∧ (∃ e, disconnect r2 = DisconnectThrows e
                 ∧ error_code e = Some "not_connected")
         ∧ ∀ err, snd (disconnect_callback (Some err) r1) = r1)
  ∧ (∀ err, snd (connect_callback share (inl err) r) = r).
Proof.
  intros Hmode Hshare. split; [|split; [|split; [|split]]].
  - unfold connect. rewrite Hmode.
    destruct (share =? 0) eqn:E; [lia | reflexivity].
  - unfold modes in Hmode. repeat case_bool_decide; auto; discriminate.
  - intros s HD HC. unfold connect, modes.
    rewrite !bool_decide_eq_false_2 by assumption.
    split; intros Hs.
    + rewrite bool_decide_eq_false_2 by assumption.
      eexists. repeat split.
    + rewrite bool_decide_eq_true_2 by assumption. reflexivity.
  - intros p r1. subst r1. cbn.
    split; [reflexivity|]. split; [reflexivity|]. split; [reflexivity|].
    split; [reflexivity|]. split; [reflexivity|].
    split; [eexists; split; reflexivity | reflexivity].
  - reflexivity.
Qed.

Lemma connect_then_disconnect_witness :
  connect (new_Reader acr1252) CONNECT_MODE_DIRECT (Some 1) = ConnectIssued 3 (Some 1)
  ∧ connect (new_Reader acr1252) "constructor" (Some 1)
    = ConnectIssued (ShareInherited "constructor") (Some 1).
Proof.
  pose proof (connect_then_disconnect (new_Reader acr1252) CONNECT_MODE_DIRECT
                (Some 1) 3 eq_refl ltac:(discriminate)) as (H1 & _ & H2 & _).
  split; [exact H1|].
  apply (H2 "constructor"); [discriminate | discriminate |].
  unfold Object_prototype_names. apply list_elem_of_here.
Defined.

(** *** The messages of wrapped errors *)

(** X26. The message a caller of [read] sees. [read] wraps the error of
    [transmit] in a [ReadError] made without code and message, and the
    constructor of the errors gives such an error the message of the one
    it wraps. So for a read of one packet on a reader with a card: with
    no connection the message is that of [transmit], "No card or
    connection available."; when the provider reports an error it is "An
    error occurred while transmitting.", whatever the message of the
    provider; and a response of fewer than two bytes gives the message
    of the [ReadError] itself, which names the length. *)
Theorem read_error_messages (r : Reader) (c : Card) (blockNumber : jsnum)
        (length blockSize packetSize readClass : Z) :
  card r = Some c -> length <= packetSize ->
  (connection r = None ->
     ∃ e, read r blockNumber length blockSize packetSize readClass
          = Some (Soon (Rejected e))
          ∧ Error_message e = "No card or connection available.")
  ∧ (connection r ≠ None ->
     ∃ a, read r blockNumber length blockSize packetSize readClass = Some a
          ∧ ∀ (answers : Provider) (first : nat),
              (∀ err, snd (answers first) = ReplyError err ->
                 ∃ e, snd (settle a answers first) = Rejected e
                      ∧ error_previous e
                        = Some (MkError TransmitError (Some FAILURE)
                                  (Some "An error occurred while transmitting.")
                                  (Some err))
                      ∧ Error_message e = "An error occurred while transmitting.")
              ∧ (∀ response, snd (answers first) = ReplyResponse response ->
                   blen response < 2 ->
                   ∃ e, snd (settle a answers first) = Rejected e
                        ∧ error_code e = Some OPERATION_FAILED
                        ∧ Error_message e
                          = "Read operation failed: Invalid response length "
                            +:+ pretty (blen response)
                            +:+ ". Expected minimal length is 2 bytes.")).
Proof.
  intros Hc Hlen. split.
  - intros Hconn. eexists. split.
    + unfold read. rewrite (read_part r c) by (auto; lia).
      unfold transmit. rewrite Hc, Hconn. reflexivity.
    + reflexivity.
  - intros Hconn. destruct (connection r) as [conn|] eqn:Hcn; [|congruence].
    eexists. split.
    + unfold read. rewrite (read_part r c) by (auto; lia).
      unfold transmit. rewrite Hc, Hcn. reflexivity.
    + intros answers first. cbn [settle snd]. split.
      * intros err ->. eexists. repeat split.
      * intros response -> Hshort. cbn [transmit_callback]. unfold read_response.
        destruct (blen response <? 2) eqn:E; [|lia].
        eexists. split; [reflexivity|]. split; [reflexivity|].
        reflexivity.
Qed.

Lemma read_error_messages_witness :
  ∃ e, read (with_card (Some empty_card) (new_Reader acr1252)) (of_int 4) 16 4 16 0xff
       = Some (Soon (Rejected e))
       ∧ Error_message e = "No card or connection available.".
Proof.
  exact (proj1 (read_error_messages (with_card (Some empty_card) (new_Reader acr1252))
                  empty_card (of_int 4) 16 4 16 0xff eq_refl ltac:(lia)) eq_refl).
Defined.
